(** * Sensor-DSP: a shallow embedding of the signal-conditioning core

    The C sources under [source/] are embedded function by function.
    [float32_t] is kept abstract behind the class [Float32]; the instance
    [binary32] is IEEE-754 single precision (round to nearest even, built on
    [SpecFloat] with a 24 bit mantissa), the instance [exact] is the real
    line and serves the statements that are only meant up to rounding.
    Functions of CMSIS-DSP ([arm_*]) are not part of the repository and
    come in through the classes [ArmBasicMath], [ArmTrig], [ArmFastMath],
    [ArmTransform] and [ArmMatrix].  C arrays are lists addressed through an
    offset; an output array whose capacity matters is the finite map of the
    cells that were written.  Signed 32 bit counters are integers (their
    overflow is undefined in C), unsigned ones wrap. *)

From Stdlib Require Import ZArith List Lia Bool Reals Lra Permutation.
From Stdlib Require Import Floats.SpecFloat.
From stdpp Require Import base option list gmap.
Import ListNotations.
Open Scope Z_scope.

(** ** Numbers *)

(** Arithmetic and comparisons of [float32_t], the conversion of an integer
    and the value of a decimal literal [n / d]. *)
Class Float32 (F : Type) := {
  f32_add : F -> F -> F;
  f32_sub : F -> F -> F;
  f32_mul : F -> F -> F;
  f32_div : F -> F -> F;
  f32_neg : F -> F;
  f32_ltb : F -> F -> bool;
  f32_leb : F -> F -> bool;
  f32_of_int : Z -> F;
  f32_lit : Z -> positive -> F;
  f32_PI : F
}.

(** [INFINITY] of <math.h> and [FLT_EPSILON] of <float.h>. *)
Class Float32Limits (F : Type) := {
  f32_INFINITY : F;
  f32_FLT_EPSILON : F
}.

Declare Scope f32_scope.
Delimit Scope f32_scope with f32.
Infix "+" := f32_add : f32_scope.
Infix "-" := f32_sub : f32_scope.
Infix "*" := f32_mul : f32_scope.
Infix "/" := f32_div : f32_scope.
Notation "- x" := (f32_neg x) : f32_scope.
Infix "<?" := f32_ltb : f32_scope.
Infix "<=?" := f32_leb : f32_scope.
Notation "x >? y" := (f32_ltb y x) : f32_scope.
Notation "x >=? y" := (f32_leb y x) : f32_scope.

Module Binary32.

Definition prec : Z := 24.
Definition emax : Z := 128.

Definition of_int (n : Z) : spec_float := binary_normalize prec emax n 0 false.

(** A decimal literal is the quotient of two integers, rounded once. *)
Definition lit (n : Z) (d : positive) : spec_float :=
  match n with
  | Z0 => S754_zero false
  | Zpos p => SFdiv prec emax (S754_finite false p 0) (S754_finite false d 0)
  | Zneg p => SFdiv prec emax (S754_finite true p 0) (S754_finite false d 0)
  end.

(** [#define PI 3.14159265358979f] of arm_math.h. *)
Definition PI : spec_float := lit 314159265358979 100000000000000.

Definition is_finite (x : spec_float) : bool :=
  match x with
  | S754_zero _ | S754_finite _ _ _ => true
  | _ => false
  end.

End Binary32.

#[export] Instance binary32 : Float32 spec_float := {
  f32_add := SFadd Binary32.prec Binary32.emax;
  f32_sub := SFsub Binary32.prec Binary32.emax;
  f32_mul := SFmul Binary32.prec Binary32.emax;
  f32_div := SFdiv Binary32.prec Binary32.emax;
  f32_neg := SFopp;
  f32_ltb := SFltb;
  f32_leb := SFleb;
  f32_of_int := Binary32.of_int;
  f32_lit := Binary32.lit;
  f32_PI := Binary32.PI
}.

#[export] Instance binary32_limits : Float32Limits spec_float := {
  f32_INFINITY := S754_infinity false;
  f32_FLT_EPSILON := SFldexp Binary32.prec Binary32.emax (Binary32.of_int 1) (-23)
}.

(** Exact arithmetic: the same programs read over the reals. *)
#[export] Instance exact : Float32 R := {
  f32_add := Rplus;
  f32_sub := Rminus;
  f32_mul := Rmult;
  f32_div := Rdiv;
  f32_neg := Ropp;
  f32_ltb := fun a b => if Rlt_dec a b then true else false;
  f32_leb := fun a b => if Rle_dec a b then true else false;
  f32_of_int := IZR;
  f32_lit := fun n d => (IZR n / IZR (Zpos d))%R;
  f32_PI := Rtrigo1.PI
}.

(** ** Arrays *)

(** [x[i]] on an array held as a list; the programs below only read inside
    the array when the caller's length is honest. *)
Definition load {A} (dflt : A) (x : list A) (i : Z) : A :=
  nth (Z.to_nat i) x dflt.

(** [x[i] = a]; a store outside the list is lost (undefined in C), the
    statements below keep every store inside. *)
Definition store {A} (x : list A) (i : Z) (a : A) : list A :=
  <[Z.to_nat i := a]> x.

(** [for (uint32_t i = 0; i < n; ++i) body], without [break]. *)
Definition for_loop {S} (n : Z) (body : Z -> S -> S) (s : S) : S :=
  fold_left (fun s i => body (Z.of_nat i) s) (seq 0 (Z.to_nat n)) s.

(** Unsigned 32 bit arithmetic wraps. *)
Definition wrap32 (z : Z) : Z := z mod 2 ^ 32.

(** A call either runs to its end or stops at a failed [assert]. *)
Inductive outcome (A : Type) :=
  | Done (a : A)
  | AssertionFailed.
Arguments Done {A} a.
Arguments AssertionFailed {A}.

(** ** ifx_peak_search_f32.c *)

Section PeakSearch.
Context {F : Type} `{Float32 F} `{Float32Limits F}.

Record ifx_peak_search_opts_f32_t := {
  height : F;
  threshold : F;
  distance : Z;
  width : Z
}.

Local Notation "x .[ i ]" := (load (f32_of_int 0) x i) (at level 1, format "x .[ i ]").

(** The left walk of [get_prominence]: [i] runs from [n - 1] down to 0 and
    stops at the first sample above the peak. *)
Fixpoint prominence_lhs (x : list F) (peak_val : F) (n : nat) (min_lhs : F) : F :=
  match n with
  | O => min_lhs
  | S i =>
      let xi := x.[Z.of_nat i] in
      if (xi >? peak_val)%f32 then min_lhs
      else prominence_lhs x peak_val i (if (xi <? min_lhs)%f32 then xi else min_lhs)
  end.

(** The right walk: [i] runs upwards while [i < length]; [fuel] is the
    number of indices left. *)
Fixpoint prominence_rhs (x : list F) (length : Z) (peak_val : F)
         (fuel : nat) (i : Z) (min_rhs : F) : F :=
  match fuel with
  | O => min_rhs
  | S fuel' =>
      if i <? length then
        let xi := x.[i] in
        if (xi >? peak_val)%f32 then min_rhs
        else prominence_rhs x length peak_val fuel' (i + 1)
               (if (xi <? min_rhs)%f32 then xi else min_rhs)
      else min_rhs
  end.

Definition get_prominence (x : list F) (length : Z) (peak_index : Z) : F :=
  let peak_val := x.[peak_index] in
  let min_lhs := prominence_lhs x peak_val (Z.to_nat peak_index) peak_val in
  let min_rhs :=
    prominence_rhs x length peak_val (Z.to_nat (length - (peak_index + 1)))
                   (peak_index + 1) peak_val in
  if (min_rhs >? min_lhs)%f32 then (peak_val - min_rhs)%f32 else (peak_val - min_lhs)%f32.

(** First index right of the peak below [width_magnitude], 0 when none. *)
Fixpoint width_rhs (x : list F) (length : Z) (width_magnitude : F)
         (fuel : nat) (i : Z) : Z :=
  match fuel with
  | O => 0
  | S fuel' =>
      if i <? length then
        if (x.[i] <? width_magnitude)%f32 then i
        else width_rhs x length width_magnitude fuel' (i + 1)
      else 0
  end.

(** Subtract the first index left of the peak below [width_magnitude]. *)
Fixpoint width_lhs (x : list F) (width_magnitude : F) (n : nat) (width : Z) : Z :=
  match n with
  | O => width
  | S i =>
      if (x.[Z.of_nat i] <? width_magnitude)%f32 then width - Z.of_nat i
      else width_lhs x width_magnitude i width
  end.

Definition get_width (x : list F) (length : Z) (peak_index : Z) (peak_prominence : F) : Z :=
  let width_magnitude := (x.[peak_index] - peak_prominence)%f32 in
  let width :=
    width_rhs x length width_magnitude (Z.to_nat (length - (peak_index + 1)))
              (peak_index + 1) in
  width_lhs x width_magnitude (Z.to_nat peak_index) width.

(** The locals that survive an iteration of the scan, and the caller's
    [peak_indices] as the map of the cells written so far. *)
Record peak_scan := {
  peak_count : Z;
  last_peak_index : Z;
  peak_indices : gmap Z Z
}.

Inductive loop_exit := Next | Break.

Definition peak_search_step (x : list F) (length max_peaks : Z)
           (o : ifx_peak_search_opts_f32_t) (i : Z) (s : peak_scan)
  : peak_scan * loop_exit :=
  if (x.[i] <=? height o)%f32 then (s, Next) else
  let sample_thresh := (x.[i] - threshold o)%f32 in
  if (sample_thresh <? x.[i - 1])%f32 then (s, Next) else
  if (sample_thresh <? x.[i + 1])%f32 then (s, Next) else
  let near := (0 <? peak_count s) && (i - distance o <? last_peak_index s) in
  match (if near
         then if (x.[last_peak_index s] <? x.[i])%f32 then Some 0 else None
         else Some 1) with
  | None => (s, Next)
  | Some peak_count_increment =>
  if (1 <? width o) &&
     (get_width x length i (get_prominence x length i * f32_lit 5 10)%f32 <? width o)
  then (s, Next) else
  let peak_count' := peak_count s + peak_count_increment in
  let s' := {| peak_count := peak_count';
               last_peak_index := i;
               peak_indices := <[peak_count' := i]> (peak_indices s) |} in
  (s', if max_peaks <=? peak_count' + 1 then Break else Next)
  end.

Fixpoint peak_search_loop (x : list F) (length max_peaks : Z)
         (o : ifx_peak_search_opts_f32_t) (fuel : nat) (i : Z) (s : peak_scan)
  : peak_scan :=
  match fuel with
  | O => s
  | S fuel' =>
      if i <? length - 1 then
        match peak_search_step x length max_peaks o i s with
        | (s', Break) => s'
        | (s', Next) => peak_search_loop x length max_peaks o fuel' (i + 1) s'
        end
      else s
  end.

Definition default_opts : ifx_peak_search_opts_f32_t :=
  {| height := (- f32_INFINITY)%f32;
     threshold := f32_FLT_EPSILON;
     distance := 1;
     width := 1 |}.

(** Returns the count and the cells of [peak_indices] it wrote;
    [opts = None] is the NULL pointer. *)
Definition ifx_peak_search_f32 (x : list F) (length : Z) (max_peaks : Z)
           (opts : option ifx_peak_search_opts_f32_t) : Z * gmap Z Z :=
  let o := match opts with None => default_opts | Some o => o end in
  let s := peak_search_loop x length max_peaks o (Z.to_nat (length - 2)) 1
             {| peak_count := -1; last_peak_index := 0; peak_indices := ∅ |} in
  (peak_count s + 1, peak_indices s).

End PeakSearch.

Arguments ifx_peak_search_opts_f32_t F : clear implicits.
Arguments peak_scan : clear implicits.

(** ** ifx_mti_f32.c *)

(** Modelled from the spec: [arm_sub_f32] of CMSIS-DSP, which is not part of
    the repository: [pDst[i] = pSrcA[i] - pSrcB[i]] for [i < blockSize]. *)
Definition arm_sub_f32 {F} `{Float32 F} (pSrcA pSrcB pDst : list F) (blockSize : Z) : list F :=
  for_loop blockSize
    (fun i dst => store dst i (load (f32_of_int 0) pSrcA i - load (f32_of_int 0) pSrcB i)%f32)
    pDst.

Section MTI.
Context {F : Type} `{Float32 F}.

Local Notation "x .[ i ]" := (load (f32_of_int 0) x i) (at level 1, format "x .[ i ]").

(** [historical_data] is the buffer the field points to, [None] for NULL. *)
Record ifx_mti_inst_f32 := {
  len : Z;
  alpha : F;
  historical_data : option (list F)
}.

(** [inst] and [historical_data] are the pointers passed in; the instance
    behind [inst] holds whatever the caller left there. *)
Definition ifx_mti_init_f32 (inst : option ifx_mti_inst_f32) (alpha_arg : F)
           (len_arg : Z) (historical_data_arg : option (list F))
  : outcome ifx_mti_inst_f32 :=
  match inst with
  | None => AssertionFailed
  | Some i =>
  match historical_data_arg with
  | None => AssertionFailed
  | Some buf =>
  match historical_data i with
  | None => AssertionFailed
  | Some _ =>
  if negb (alpha i >=? f32_of_int 0)%f32 then AssertionFailed else
  if negb (alpha i <=? f32_of_int 1)%f32 then AssertionFailed else
  Done {| alpha := alpha_arg;
          len := len_arg;
          historical_data :=
            Some (for_loop len_arg (fun i h => store h i (f32_lit 0 1)) buf) |}
  end end end.

(** Returns the instance, whose history buffer was updated in place, and
    the contents of [out_data]. *)
Definition ifx_mti_f32 (inst : ifx_mti_inst_f32) (in_data out_data : option (list F))
  : outcome (ifx_mti_inst_f32 * list F) :=
  match in_data with
  | None => AssertionFailed
  | Some input =>
  match out_data with
  | None => AssertionFailed
  | Some out =>
  match historical_data inst with
  | None => AssertionFailed
  | Some h =>
  if negb (alpha inst >=? f32_of_int 0)%f32 then AssertionFailed else
  if negb (alpha inst <=? f32_of_int 1)%f32 then AssertionFailed else
  let out' := arm_sub_f32 input h out (len inst) in
  let h' := for_loop (len inst)
              (fun j h => store h j (h.[j] + alpha inst * out'.[j])%f32) h in
  Done ({| len := len inst; alpha := alpha inst; historical_data := Some h' |}, out')
  end end end.

(** The result of the [k]-th of [k] successive calls on the same input,
    each with a fresh output buffer [out]. *)
Fixpoint mti_calls (k : nat) (inst : ifx_mti_inst_f32) (input out : list F)
  : outcome (ifx_mti_inst_f32 * list F) :=
  match k with
  | O => Done (inst, out)
  | S O => ifx_mti_f32 inst (Some input) (Some out)
  | S k' =>
      match ifx_mti_f32 inst (Some input) (Some out) with
      | Done (inst', _) => mti_calls k' inst' input out
      | AssertionFailed => AssertionFailed
      end
  end.

End MTI.

Arguments ifx_mti_inst_f32 F : clear implicits.

(** ** ifx_rotate_f32.c and ifx_shift_cfft_f32.c *)

Section Rotate.
Context {F : Type} `{Float32 F}.

Local Notation "x .[ i ]" := (load (f32_of_int 0) x i) (at level 1, format "x .[ i ]").

(** One turn of the [while] loop: the array of [len] floats that starts at
    offset [v] of [mem] moves one place to the left, its head to the end. *)
Definition rotate_step (v : Z) (len : Z) (mem : list F) : list F :=
  let temp := mem.[v + 0] in
  let mem' :=
    for_loop (wrap32 (len - 1))
      (fun j m => store m (v + j) m.[v + wrap32 (j + 1)]) mem in
  store mem' (v + wrap32 (len - 1)) temp.

(** [mem] is the memory [v] points into, [v] the offset in floats. *)
Definition ifx_rotate_f32 (mem : list F) (v : Z) (len : Z) (k : Z) : list F :=
  Nat.iter (Z.to_nat k) (rotate_step v len) mem.

(** [v] is the offset in complex elements, two floats each; the loop
    carries the memory and the advancing pointer. *)
Definition ifx_shift_cfft_f32 (mem : list F) (v : Z) (len : Z) (dim : Z) : list F :=
  fst (for_loop dim
         (fun _ '(mem, v) =>
            (ifx_rotate_f32 mem (2 * v) (wrap32 (len * 2))
               (if len mod 2 =? 1 then wrap32 (len + 1) else len),
             v + len))
         (mem, v)).

(** The [len] complex elements at complex offset [v], as pairs. *)
Definition complex_row (mem : list F) (v : Z) (len : Z) : list (F * F) :=
  map (fun j => (mem.[2 * (v + Z.of_nat j)], mem.[2 * (v + Z.of_nat j) + 1]))
      (seq 0 (Z.to_nat len)).

End Rotate.

(** ** The CMSIS-DSP backend

    [arm_math.h] and the functions behind it are outside the repository.
    A function that works on [n] elements at a pointer takes and returns
    those [n] elements; a scalar function with a result pointer returns the
    value it writes there, [None] when it leaves the cell as it was. *)

(** The values are those of the [arm_status] enumeration of CMSIS-DSP. *)
Inductive arm_status :=
  | ARM_MATH_SUCCESS
  | ARM_MATH_ARGUMENT_ERROR
  | ARM_MATH_LENGTH_ERROR
  | ARM_MATH_SIZE_MISMATCH
  | ARM_MATH_NANINF
  | ARM_MATH_SINGULAR
  | ARM_MATH_TEST_FAILURE.

Definition arm_status_value (s : arm_status) : Z :=
  match s with
  | ARM_MATH_SUCCESS => 0
  | ARM_MATH_ARGUMENT_ERROR => -1
  | ARM_MATH_LENGTH_ERROR => -2
  | ARM_MATH_SIZE_MISMATCH => -3
  | ARM_MATH_NANINF => -4
  | ARM_MATH_SINGULAR => -5
  | ARM_MATH_TEST_FAILURE => -6
  end.

Definition arm_status_eqb (a b : arm_status) : bool :=
  arm_status_value a =? arm_status_value b.

Record arm_matrix_instance_f32 (F : Type) := {
  numRows : Z;
  numCols : Z;
  pData : list F
}.
Arguments numRows {F} _.
Arguments numCols {F} _.
Arguments pData {F} _.

Class ArmBasicMath (F : Type) := {
  arm_mean_f32 : list F -> F;
  arm_offset_f32 : list F -> F -> list F;
  arm_mult_f32 : list F -> list F -> list F;
  arm_cmplx_mult_real_f32 : list F -> list F -> list F
}.

Class ArmTrig (F : Type) := {
  arm_cos_f32 : F -> F;
  arm_sin_f32 : F -> F
}.

Class ArmFastMath (F : Type) := {
  arm_sqrt_f32 : F -> arm_status * option F;
  arm_atan2_f32 : F -> F -> arm_status * option F
}.

Class ArmTransform (F : Type) := {
  arm_rfft_fast_instance_f32 : Type;
  fftLenRFFT : arm_rfft_fast_instance_f32 -> Z;
  arm_rfft_fast_init_f32 :
    arm_rfft_fast_instance_f32 -> Z -> arm_status * arm_rfft_fast_instance_f32;
  arm_rfft_fast_f32 : arm_rfft_fast_instance_f32 -> list F -> list F * list F;
  arm_cfft_instance_f32 : Type;
  fftLen : arm_cfft_instance_f32 -> Z;
  arm_cfft_init_f32 :
    arm_cfft_instance_f32 -> Z -> arm_status * arm_cfft_instance_f32;
  arm_cfft_f32 : arm_cfft_instance_f32 -> list F -> list F
}.

Class ArmMatrix (F : Type) := {
  arm_mat_cmplx_trans_f32 :
    arm_matrix_instance_f32 F -> arm_matrix_instance_f32 F ->
    arm_status * arm_matrix_instance_f32 F;
  arm_mat_cmplx_mult_f32 :
    arm_matrix_instance_f32 F -> arm_matrix_instance_f32 F ->
    arm_matrix_instance_f32 F -> arm_status * arm_matrix_instance_f32 F
}.

(** The [n] elements at offset [off], and writing [n] elements back. *)
Definition slice {A} (mem : list A) (off n : Z) : list A :=
  take (Z.to_nat n) (drop (Z.to_nat off) mem).

Definition blit {A} (mem : list A) (off n : Z) (data : list A) : list A :=
  list_inserts (Z.to_nat off) (take (Z.to_nat n) data) mem.

Definition IFX_SENSOR_DSP_STATUS_OK : Z := 0.
Definition IFX_SENSOR_DSP_ARGUMENT_ERROR : Z := 1.

(** ** ifx_mean_removal_f32.c and ifx_cmplx_mean_removal_f32.c *)

Section MeanRemoval.
Context {F : Type} `{Float32 F} `{ArmBasicMath F}.

Local Notation "x .[ i ]" := (load (f32_of_int 0) x i) (at level 1, format "x .[ i ]").

Definition ifx_mean_removal_f32 (mem : list F) (v : Z) (len : Z) : list F :=
  let mean := arm_mean_f32 (slice mem v len) in
  blit mem v len (arm_offset_f32 (slice mem v len) (- mean)%f32).

(** [v] counts complex elements; a complex number is a pair of floats. *)
Definition ifx_cmplx_mean_removal_f32 (mem : list F) (v : Z) (len : Z) : list F :=
  let sum :=
    for_loop len
      (fun j '(re, im) => ((re + mem.[2 * (v + j)])%f32, (im + mem.[2 * (v + j) + 1])%f32))
      (f32_lit 0 1, f32_lit 0 1) in
  let sum := ((fst sum / f32_of_int len)%f32, (snd sum / f32_of_int len)%f32) in
  for_loop len
    (fun j m =>
       let m := store m (2 * (v + j)) (m.[2 * (v + j)] - fst sum)%f32 in
       store m (2 * (v + j) + 1) (m.[2 * (v + j) + 1] - snd sum)%f32)
    mem.

End MeanRemoval.

(** ** ifx_range_fft_f32.c, ifx_range_cfft_f32.c and ifx_doppler_cfft_f32.c *)

(** The block that opens the three entry points: a [static] plan, zeroed at
    program start, is initialised again when its length differs from the
    requested one, and a failed initialisation ends the call.  Returns the
    status, the plan left in the static variable, and the lengths for which
    the backend was asked to build a plan. *)
Definition plan_for {P : Type} (len_of : P -> Z) (init : P -> Z -> arm_status * P)
           (plan : P) (n : Z) : arm_status * P * list Z :=
  if negb (len_of plan =? n)
  then let '(status, plan') := init plan n in (status, plan', [n])
  else (ARM_MATH_SUCCESS, plan, []).

Section Transforms.
Context {F : Type} `{Float32 F} `{ArmBasicMath F} `{ArmTransform F} `{ArmMatrix F}.

(** A request to the backend to build a plan of the given length. *)
Inductive plan_init :=
  | Rfft_init (n : Z)
  | Cfft_init (n : Z).

(** The function-local [static] plans, one per entry point, which live
    across calls, and the log of the plan initialisations asked of the
    backend so far. *)
Record statics := {
  range_fft_rfft : arm_rfft_fast_instance_f32;
  range_cfft_cfft : arm_cfft_instance_f32;
  doppler_cfft_cfft : arm_cfft_instance_f32;
  plan_inits : list plan_init
}.

(** One chirp of [ifx_range_fft_f32]: the loop carries the memories behind
    [frame] and [range] with the two advancing pointers, [frame] in floats
    and [range] in complex elements. *)
Definition range_fft_chirp (rfft : arm_rfft_fast_instance_f32)
           (mean_removal : bool) (win : option (list F)) (num_samples_per_chirp : Z)
           (s : list F * list F * Z * Z) : list F * list F * Z * Z :=
  let '(frame_mem, range_mem, frame, range) := s in
  let frame_mem :=
    if mean_removal
    then ifx_mean_removal_f32 frame_mem frame num_samples_per_chirp
    else frame_mem in
  let frame_mem :=
    match win with
    | Some w =>
        blit frame_mem frame num_samples_per_chirp
          (arm_mult_f32 (slice frame_mem frame num_samples_per_chirp) w)
    | None => frame_mem
    end in
  let '(src, dst) :=
    arm_rfft_fast_f32 rfft (slice frame_mem frame num_samples_per_chirp) in
  let frame_mem := blit frame_mem frame num_samples_per_chirp src in
  let range_mem := blit range_mem (2 * range) num_samples_per_chirp dst in
  let range_mem := store range_mem (2 * range + 1) (f32_lit 0 1) in
  (frame_mem, range_mem, frame + num_samples_per_chirp, range + num_samples_per_chirp / 2).

(** Returns the status, the statics, and the memories behind [frame] and
    [range]; [win = None] is the NULL pointer. *)
Definition ifx_range_fft_f32 (st : statics) (frame range : list F)
           (mean_removal : bool) (win : option (list F))
           (num_samples_per_chirp num_chirps_per_frame : Z)
  : Z * statics * list F * list F :=
  let '(status, rfft, inits) :=
    plan_for fftLenRFFT arm_rfft_fast_init_f32 (range_fft_rfft st) num_samples_per_chirp in
  let st := {| range_fft_rfft := rfft;
               range_cfft_cfft := range_cfft_cfft st;
               doppler_cfft_cfft := doppler_cfft_cfft st;
               plan_inits := plan_inits st ++ map Rfft_init inits |} in
  if negb (arm_status_eqb status ARM_MATH_SUCCESS)
  then (IFX_SENSOR_DSP_ARGUMENT_ERROR, st, frame, range)
  else
    let '(frame_mem, range_mem, _, _) :=
      for_loop num_chirps_per_frame
        (fun chirp_idx => range_fft_chirp rfft mean_removal win num_samples_per_chirp)
        (frame, range, 0, 0) in
    (IFX_SENSOR_DSP_STATUS_OK, st, frame_mem, range_mem).

(** One row of complex elements, shared by [ifx_range_cfft_f32] and
    [ifx_doppler_cfft_f32]: mean removal, window, transform in place. *)
Definition cfft_row (cfft : arm_cfft_instance_f32)
           (mean_removal : bool) (win : option (list F)) (n : Z)
           (s : list F * Z) : list F * Z :=
  let '(mem, v) := s in
  let mem := if mean_removal then ifx_cmplx_mean_removal_f32 mem v n else mem in
  let mem :=
    match win with
    | Some w =>
        blit mem (2 * v) (2 * n) (arm_cmplx_mult_real_f32 (slice mem (2 * v) (2 * n)) w)
    | None => mem
    end in
  let mem := blit mem (2 * v) (2 * n) (arm_cfft_f32 cfft (slice mem (2 * v) (2 * n))) in
  (mem, v + n).

(** In place on [frame], a memory of complex elements as pairs of floats. *)
Definition ifx_range_cfft_f32 (st : statics) (frame : list F)
           (mean_removal : bool) (win : option (list F))
           (num_samples_per_chirp num_chirps_per_frame : Z)
  : Z * statics * list F :=
  let '(status, cfft, inits) :=
    plan_for fftLen arm_cfft_init_f32 (range_cfft_cfft st) num_samples_per_chirp in
  let st := {| range_fft_rfft := range_fft_rfft st;
               range_cfft_cfft := cfft;
               doppler_cfft_cfft := doppler_cfft_cfft st;
               plan_inits := plan_inits st ++ map Cfft_init inits |} in
  if negb (arm_status_eqb status ARM_MATH_SUCCESS)
  then (IFX_SENSOR_DSP_ARGUMENT_ERROR, st, frame)
  else
    let '(frame_mem, _) :=
      for_loop num_chirps_per_frame
        (fun chirp_idx => cfft_row cfft mean_removal win num_samples_per_chirp)
        (frame, 0) in
    (IFX_SENSOR_DSP_STATUS_OK, st, frame_mem).

(** [range] is only read; the transpose goes to [doppler], which is then
    transformed row by row. *)
Definition ifx_doppler_cfft_f32 (st : statics) (range doppler : list F)
           (mean_removal : bool) (win : option (list F))
           (num_range_bins num_chirps_per_frame : Z)
  : Z * statics * list F :=
  let '(status, cfft, inits) :=
    plan_for fftLen arm_cfft_init_f32 (doppler_cfft_cfft st) num_chirps_per_frame in
  let st := {| range_fft_rfft := range_fft_rfft st;
               range_cfft_cfft := range_cfft_cfft st;
               doppler_cfft_cfft := cfft;
               plan_inits := plan_inits st ++ map Cfft_init inits |} in
  if negb (arm_status_eqb status ARM_MATH_SUCCESS)
  then (IFX_SENSOR_DSP_ARGUMENT_ERROR, st, doppler)
  else
    let range_matrix :=
      {| numRows := num_chirps_per_frame; numCols := num_range_bins; pData := range |} in
    let doppler_matrix :=
      {| numRows := num_range_bins; numCols := num_chirps_per_frame; pData := doppler |} in
    let doppler_mem := pData (snd (arm_mat_cmplx_trans_f32 range_matrix doppler_matrix)) in
    let '(doppler_mem, _) :=
      for_loop num_range_bins
        (fun range_idx => cfft_row cfft mean_removal win num_chirps_per_frame)
        (doppler_mem, 0) in
    (IFX_SENSOR_DSP_STATUS_OK, st, doppler_mem).

(** A call of one of the entry points, for a run of successive calls:
    the buffers, the two switches, the transform length and the number of
    rows. *)
Record fft_call := {
  c_in : list F;
  c_out : list F;
  c_mean_removal : bool;
  c_win : option (list F);
  c_len : Z;
  c_rows : Z
}.

Definition range_fft_calls (st : statics) (calls : list fft_call) : statics :=
  fold_left
    (fun st c =>
       snd (fst (fst (ifx_range_fft_f32 st (c_in c) (c_out c) (c_mean_removal c)
                        (c_win c) (c_len c) (c_rows c)))))
    calls st.

Definition range_cfft_calls (st : statics) (calls : list fft_call) : statics :=
  fold_left
    (fun st c =>
       snd (fst (ifx_range_cfft_f32 st (c_in c) (c_mean_removal c)
                   (c_win c) (c_len c) (c_rows c))))
    calls st.

Definition doppler_cfft_calls (st : statics) (calls : list fft_call) : statics :=
  fold_left
    (fun st c =>
       snd (fst (ifx_doppler_cfft_f32 st (c_in c) (c_out c) (c_mean_removal c)
                   (c_win c) (c_rows c) (c_len c))))
    calls st.

End Transforms.

(** The lengths of [k] calls that go back and forth between [a] and [b]. *)
Fixpoint alternating (a b : Z) (k : nat) : list Z :=
  match k with
  | O => []
  | S k => a :: alternating b a k
  end.

(** ** ifx_angle_dbf_f32.c *)

Section Beamforming.
Context {F : Type} `{ArmMatrix F}.

(** Returns the status of the backend and the output matrix it filled. *)
Definition ifx_angle_dbf_f32 (pInput pSteering pOutput : arm_matrix_instance_f32 F)
  : outcome (arm_status * arm_matrix_instance_f32 F) :=
  if negb (numCols pSteering =? numRows pInput) then AssertionFailed else
  if negb (numCols pInput =? numCols pOutput) then AssertionFailed else
  if negb (numRows pSteering =? numRows pOutput) then AssertionFailed else
  Done (arm_mat_cmplx_mult_f32 pSteering pInput pOutput).

End Beamforming.

(** ** ifx_arcsin_f32.c and ifx_angle_monopulse_f32.c *)

Section Monopulse.
Context {F : Type} `{Float32 F} `{ArmFastMath F}.

Definition PI_2_F32 : F := f32_lit 1570796370506 1000000000000.

(** [result] is the old contents of the cell the pointer names; the
    local [y] starts as 0.0F. *)
Definition ifx_arcsin_f32 (x : F) (result : F) : arm_status * F :=
  if (x >=? f32_lit 1 1)%f32 then (ARM_MATH_SUCCESS, PI_2_F32)
  else if (x <=? - f32_lit 1 1)%f32 then (ARM_MATH_SUCCESS, (- PI_2_F32)%f32)
  else
    let '(status, y) := arm_sqrt_f32 (f32_lit 1 1 - x * x)%f32 in
    let y := default (f32_lit 0 1) y in
    if arm_status_eqb ARM_MATH_SUCCESS status
    then (status, default result (snd (arm_atan2_f32 x y)))
    else (status, f32_lit 0 1).

(** [status |= (uint32_t)s] *)
Definition or_status (status : Z) (s : arm_status) : Z :=
  Z.lor status (wrap32 (arm_status_value s)).

Record monopulse_locals := {
  l_rx1_ang : F;
  l_rx2_ang : F;
  l_status : Z;
  l_angle : list F
}.

Definition monopulse_step (rx1 rx2 : list (F * F)) (TWO_PI ratio : F)
           (i : Z) (s : monopulse_locals) : monopulse_locals :=
  let c1 := load (f32_lit 0 1, f32_lit 0 1) rx1 i in
  let c2 := load (f32_lit 0 1, f32_lit 0 1) rx2 i in
  let '(s1, a1) := arm_atan2_f32 (snd c1) (fst c1) in
  let rx1_ang := default (l_rx1_ang s) a1 in
  let status := or_status (l_status s) s1 in
  let '(s2, a2) := arm_atan2_f32 (snd c2) (fst c2) in
  let rx2_ang := default (l_rx2_ang s) a2 in
  let status := or_status status s2 in
  let delta_phi := (rx1_ang - rx2_ang)%f32 in
  let delta_phi :=
    if (delta_phi <=? - f32_PI)%f32 then (delta_phi + TWO_PI)%f32
    else if (delta_phi >? f32_PI)%f32 then (delta_phi - TWO_PI)%f32
    else delta_phi in
  let '(s3, a) :=
    ifx_arcsin_f32 (delta_phi * ratio)%f32 (load (f32_lit 0 1) (l_angle s) i) in
  {| l_rx1_ang := rx1_ang;
     l_rx2_ang := rx2_ang;
     l_status := or_status status s3;
     l_angle := store (l_angle s) i a |}.

(** [rx1], [rx2] hold complex samples as (real, imaginary); [angle] is the
    output array as the caller passes it. *)
Definition ifx_angle_monopulse_f32 (rx1 rx2 : option (list (F * F))) (size : Z)
           (wavelength antenna_spacing : F) (angle : option (list F))
  : outcome (arm_status * list F) :=
  match rx1, rx2, angle with
  | Some rx1, Some rx2, Some angle =>
      if negb (0 <? size) then AssertionFailed else
      if negb (wavelength >? f32_of_int 0)%f32 then AssertionFailed else
      if negb (antenna_spacing >? f32_of_int 0)%f32 then AssertionFailed else
      let TWO_PI := (f32_lit 2 1 * f32_PI)%f32 in
      let ratio := (wavelength / antenna_spacing / TWO_PI)%f32 in
      let s :=
        for_loop size (monopulse_step rx1 rx2 TWO_PI ratio)
          {| l_rx1_ang := f32_lit 0 1; l_rx2_ang := f32_lit 0 1;
             l_status := 0; l_angle := angle |} in
      Done (if l_status s =? 0 then ARM_MATH_SUCCESS else ARM_MATH_ARGUMENT_ERROR,
            l_angle s)
  | _, _, _ => AssertionFailed
  end.

End Monopulse.

(** ** ifx_window_hamming_f32.c and ifx_window_blackmanharris_f32.c *)

Section Windows.
Context {F : Type} `{Float32 F} `{ArmTrig F}.

Definition ifx_window_hamming_f32 (win : option (list F)) (len : Z) : outcome (list F) :=
  match win with
  | None => AssertionFailed
  | Some win =>
      if negb (1 <? len) then AssertionFailed else
      let M := (f32_lit 1 1 / (f32_of_int len - f32_lit 1 1))%f32 in
      Done (for_loop len
              (fun n win =>
                 store win n
                   (f32_lit 54 100
                    - f32_lit 46 100 * arm_cos_f32 (f32_lit 2 1 * f32_PI * f32_of_int n * M))%f32)
              win)
  end.

Definition BLACKMANHARRIS_CONST_A0 : F := f32_lit 35875 100000.
Definition BLACKMANHARRIS_CONST_A1 : F := f32_lit 48829 100000.
Definition BLACKMANHARRIS_CONST_A2 : F := f32_lit 14128 100000.
Definition BLACKMANHARRIS_CONST_A3 : F := f32_lit 1168 100000.

Definition ifx_window_blackmanharris_f32 (win : option (list F)) (len : Z)
  : outcome (list F) :=
  match win with
  | None => AssertionFailed
  | Some win =>
      if negb (1 <? len) then AssertionFailed else
      let M := (f32_lit 1 1 / (f32_of_int len - f32_lit 1 1))%f32 in
      Done (for_loop len
              (fun n win =>
                 store win n
                   (BLACKMANHARRIS_CONST_A0
                    - BLACKMANHARRIS_CONST_A1
                      * arm_cos_f32 (f32_lit 2 1 * f32_PI * f32_of_int n * M)
                    + BLACKMANHARRIS_CONST_A2
                      * arm_cos_f32 (f32_lit 4 1 * f32_PI * f32_of_int n * M)
                    - BLACKMANHARRIS_CONST_A3
                      * arm_cos_f32 (f32_lit 6 1 * f32_PI * f32_of_int n * M))%f32)
              win)
  end.

(** Modelled from the spec: [ifx_window_hann_f32] is declared in the header
    and missing from the sources; the formula is that of the header and of
    the spec, [0.5 (1 - cos (2 pi n / (N - 1)))], laid out as the two
    windows above. *)
Definition ifx_window_hann_f32 (win : option (list F)) (len : Z) : outcome (list F) :=
  match win with
  | None => AssertionFailed
  | Some win =>
      if negb (1 <? len) then AssertionFailed else
      let M := (f32_lit 1 1 / (f32_of_int len - f32_lit 1 1))%f32 in
      Done (for_loop len
              (fun n win =>
                 store win n
                   (f32_lit 5 10
                    * (f32_lit 1 1
                       - arm_cos_f32 (f32_lit 2 1 * f32_PI * f32_of_int n * M)))%f32)
              win)
  end.

(** Modelled from the spec: [ifx_window_blackman_f32] is declared in the
    header and missing from the sources; the formula is that of the header
    and of the spec, [0.42 - 0.5 cos (2 pi n / (N - 1))
    + 0.08 cos (4 pi n / (N - 1))]. *)
Definition ifx_window_blackman_f32 (win : option (list F)) (len : Z) : outcome (list F) :=
  match win with
  | None => AssertionFailed
  | Some win =>
      if negb (1 <? len) then AssertionFailed else
      let M := (f32_lit 1 1 / (f32_of_int len - f32_lit 1 1))%f32 in
      Done (for_loop len
              (fun n win =>
                 store win n
                   (f32_lit 42 100
                    - f32_lit 5 10 * arm_cos_f32 (f32_lit 2 1 * f32_PI * f32_of_int n * M)
                    + f32_lit 8 100 * arm_cos_f32 (f32_lit 4 1 * f32_PI * f32_of_int n * M))%f32)
              win)
  end.

End Windows.

(** ** Backends to run the programs on

    None of this is in the repository; the statements that need a backend
    quantify over the classes above, and these instances show that their
    assumptions can be met. *)

(** Modelled from the spec: the scalar functions of the backend in exact
    arithmetic, [cos] and [sin] the real functions, the square root refused
    on a negative radicand, and the two-argument arctangent by quadrants,
    refused at the origin where it has no value (CMSIS-DSP reports
    [ARM_MATH_NANINF] there and writes nothing). *)
#[export] Instance exact_trig : ArmTrig R := {
  arm_cos_f32 := cos;
  arm_sin_f32 := sin
}.

#[export] Instance exact_fast_math : ArmFastMath R := {
  arm_sqrt_f32 := fun x =>
    if Rle_dec 0 x then (ARM_MATH_SUCCESS, Some (sqrt x))
    else (ARM_MATH_ARGUMENT_ERROR, Some 0%R);
  arm_atan2_f32 := fun y x =>
    if Rlt_dec 0 x then (ARM_MATH_SUCCESS, Some (atan (y / x)))
    else if Rlt_dec x 0 then
      (ARM_MATH_SUCCESS,
       Some (if Rlt_dec 0 y then atan (y / x) + Rtrigo1.PI
             else if Rlt_dec y 0 then atan (y / x) - Rtrigo1.PI
             else Rtrigo1.PI)%R)
    else if Rlt_dec 0 y then (ARM_MATH_SUCCESS, Some (Rtrigo1.PI / 2)%R)
    else if Rlt_dec y 0 then (ARM_MATH_SUCCESS, Some (- Rtrigo1.PI / 2)%R)
    else (ARM_MATH_NANINF, None)
}.

(** Modelled from the spec: mean, offset and the two element-wise products
    as CMSIS-DSP documents them. *)
#[export] Instance basic_math : ArmBasicMath spec_float := {
  arm_mean_f32 := fun src =>
    (fold_left f32_add src (f32_lit 0 1) / f32_of_int (Z.of_nat (length src)))%f32;
  arm_offset_f32 := fun src offset => map (fun a => (a + offset)%f32) src;
  arm_mult_f32 := fun a b => zip_with f32_mul a b;
  arm_cmplx_mult_real_f32 := fun cmplx real =>
    flat_map (fun '(i, r) =>
                [(load (f32_lit 0 1) cmplx (2 * Z.of_nat i) * r)%f32;
                 (load (f32_lit 0 1) cmplx (2 * Z.of_nat i + 1) * r)%f32])
             (combine (seq 0 (length real)) real)
}.

(** A scalar backend in single precision with the statuses of CMSIS-DSP:
    the square root is the correctly rounded one, the arctangent is coarse
    and only tells the half-axes apart. *)
#[export] Instance axis_fast_math : ArmFastMath spec_float := {
  arm_sqrt_f32 := fun x =>
    if (x >=? S754_zero false)%f32
    then (ARM_MATH_SUCCESS, Some (SFsqrt Binary32.prec Binary32.emax x))
    else (ARM_MATH_ARGUMENT_ERROR, Some (S754_zero false));
  arm_atan2_f32 := fun y x =>
    if (x >? S754_zero false)%f32 then (ARM_MATH_SUCCESS, Some (S754_zero false))
    else if (x <? S754_zero false)%f32 then
      (ARM_MATH_SUCCESS, Some (if (y <? S754_zero false)%f32 then (- f32_PI)%f32 else f32_PI))
    else if (y >? S754_zero false)%f32 then
      (ARM_MATH_SUCCESS, Some (f32_PI / Binary32.of_int 2)%f32)
    else if (y <? S754_zero false)%f32 then
      (ARM_MATH_SUCCESS, Some (- (f32_PI / Binary32.of_int 2))%f32)
    else (ARM_MATH_NANINF, None)
}.

(** A cosine and a sine in single precision: the Taylor sums about 0 with
    49 terms, taken in exact rational arithmetic on the exact value of the
    argument and rounded once.  For the phases of the windows (at most
    [6 pi]) the sum is within [10^-20] of the function before the rounding. *)
Module Series.

(** A finite float as the fraction [p / 2^d]. *)
Definition fraction (x : spec_float) : option (Z * Z) :=
  match x with
  | S754_zero _ => Some (0, 0)
  | S754_finite s m e =>
      let p := if s then Zneg m else Zpos m in
      Some (if 0 <=? e then (p * 2 ^ e, 0) else (p, - e))
  | _ => None
  end.

(** [1 - t / (a (a + 1)) * (1 - t / ((a + 2) (a + 3)) * (...))] with [n]
    nested factors and [t = P / Q], as a fraction. *)
Fixpoint nest (P Q : Z) (n : nat) (a : Z) : Z * Z :=
  match n with
  | O => (1, 1)
  | S n' =>
      let '(num, den) := nest P Q n' (a + 2) in
      let den' := den * Q * (a * (a + 1)) in
      (den' - P * num, den')
  end.

Definition terms : nat := 48.

Definition cos (x : spec_float) : spec_float :=
  match fraction x with
  | Some (p, d) =>
      let '(num, den) := nest (p * p) (2 ^ (2 * d)) terms 1 in
      Binary32.lit num (Z.to_pos den)
  | None => S754_nan
  end.

Definition sin (x : spec_float) : spec_float :=
  match fraction x with
  | Some (p, d) =>
      let '(num, den) := nest (p * p) (2 ^ (2 * d)) terms 2 in
      Binary32.lit (p * num) (Z.to_pos (den * 2 ^ d))
  | None => S754_nan
  end.

End Series.

#[export] Instance series_trig : ArmTrig spec_float := {
  arm_cos_f32 := Series.cos;
  arm_sin_f32 := Series.sin
}.

(** A plan is the length it was built for; lengths are accepted as CMSIS-DSP
    does, powers of two from 32 (real) or 16 (complex) to 4096.  The
    transforms themselves are stand-ins that copy their input. *)
Definition plan_length_ok (least n : Z) : bool :=
  (least <=? n) && (n <=? 4096) && (2 ^ Z.log2 n =? n).

#[export] Instance copy_transform : ArmTransform spec_float := {
  arm_rfft_fast_instance_f32 := Z;
  fftLenRFFT := fun plan => plan;
  arm_rfft_fast_init_f32 := fun plan n =>
    if plan_length_ok 32 n then (ARM_MATH_SUCCESS, n) else (ARM_MATH_ARGUMENT_ERROR, plan);
  arm_rfft_fast_f32 := fun plan p => (p, p);
  arm_cfft_instance_f32 := Z;
  fftLen := fun plan => plan;
  arm_cfft_init_f32 := fun plan n =>
    if plan_length_ok 16 n then (ARM_MATH_SUCCESS, n) else (ARM_MATH_ARGUMENT_ERROR, plan);
  arm_cfft_f32 := fun plan p => p
}.

(** Modelled from the spec: complex transpose and product on row-major
    matrices of interleaved (real, imaginary) floats, with the size checks of
    CMSIS-DSP. *)
Section MatrixBackend.
Context {F : Type} `{Float32 F}.

Local Notation "x .[ i ]" := (load (f32_lit 0 1) x i) (at level 1, format "x .[ i ]").

Definition mat_cmplx_trans (src dst : arm_matrix_instance_f32 F)
  : arm_status * arm_matrix_instance_f32 F :=
  if (numRows src =? numCols dst) && (numCols src =? numRows dst) then
    (ARM_MATH_SUCCESS,
     {| numRows := numRows dst; numCols := numCols dst;
        pData :=
          for_loop (numRows src)
            (fun i d =>
               for_loop (numCols src)
                 (fun j d =>
                    let d := store d (2 * (j * numRows src + i))
                               (pData src).[2 * (i * numCols src + j)] in
                    store d (2 * (j * numRows src + i) + 1)
                      (pData src).[2 * (i * numCols src + j) + 1])
                 d)
            (pData dst) |})
  else (ARM_MATH_SIZE_MISMATCH, dst).

Definition mat_cmplx_mult (a b dst : arm_matrix_instance_f32 F)
  : arm_status * arm_matrix_instance_f32 F :=
  if (numCols a =? numRows b) && (numRows a =? numRows dst)
     && (numCols b =? numCols dst) then
    (ARM_MATH_SUCCESS,
     {| numRows := numRows dst; numCols := numCols dst;
        pData :=
          for_loop (numRows a)
            (fun i d =>
               for_loop (numCols b)
                 (fun j d =>
                    let sum :=
                      for_loop (numCols a)
                        (fun k '(re, im) =>
                           let ar := (pData a).[2 * (i * numCols a + k)] in
                           let ai := (pData a).[2 * (i * numCols a + k) + 1] in
                           let br := (pData b).[2 * (k * numCols b + j)] in
                           let bi := (pData b).[2 * (k * numCols b + j) + 1] in
                           ((re + (ar * br - ai * bi))%f32,
                            (im + (ar * bi + ai * br))%f32))
                        (f32_lit 0 1, f32_lit 0 1) in
                    let d := store d (2 * (i * numCols b + j)) (fst sum) in
                    store d (2 * (i * numCols b + j) + 1) (snd sum))
                 d)
            (pData dst) |})
  else (ARM_MATH_SIZE_MISMATCH, dst).

End MatrixBackend.

#[export] Instance matrix_backend : ArmMatrix spec_float := {
  arm_mat_cmplx_trans_f32 := mat_cmplx_trans;
  arm_mat_cmplx_mult_f32 := mat_cmplx_mult
}.

(** ** Predicates of the statements *)

Section Predicates.
Context {F : Type} `{Float32 F}.

Local Notation "x .[ i ]" := (load (f32_of_int 0) x i) (at level 1, format "x .[ i ]").

(** What the scan of the peak search keeps true while it goes on: the cells
    written are those up to [peak_count], and there is room for one more
    peak. *)
Definition scan_inv (max_peaks : Z) (s : peak_scan) : Prop :=
  -1 <= peak_count s /\ peak_count s + 1 < max_peaks /\
  forall k, is_Some (peak_indices s !! k) <-> 0 <= k <= peak_count s.

(** What holds when it has ended. *)
Definition scan_post (max_peaks : Z) (s : peak_scan) : Prop :=
  -1 <= peak_count s /\ peak_count s + 1 <= max_peaks /\
  forall k, is_Some (peak_indices s !! k) <-> 0 <= k <= peak_count s.

(** The memory [m] after [k] rows of [2 * len] floats, from complex offset
    [v] on, were each turned [K] floats to the left; the rest of the memory
    is as in [mem]. *)
Definition shifted (mem : list F) (v len K : Z) (k : Z) (m : list F) : Prop :=
  length m = length mem /\
  (forall row j, 0 <= row < k -> 0 <= j < 2 * len ->
     m.[2 * (v + row * len) + j] = mem.[2 * (v + row * len) + (j + K) mod (2 * len)]) /\
  (forall p, 0 <= p -> p < 2 * v \/ 2 * (v + k * len) <= p -> m.[p] = mem.[p]).

(** The backend builds a plan for [n] and records the length in it. *)
Definition supports {P : Type} (len_of : P -> Z) (init : P -> Z -> arm_status * P)
           (n : Z) : Prop :=
  forall plan, fst (init plan n) = ARM_MATH_SUCCESS /\ len_of (snd (init plan n)) = n.

(** The rows written after [k] chirps: row [j] starts at complex offset
    [j * (n / 2)], holds the floats the backend produced for some input,
    with a zero in the imaginary part of bin 0; above the rows (and the
    one float an odd [n] spills) the memory is as it was. *)
Definition rows_written `{ArmTransform F} (rfft : arm_rfft_fast_instance_f32) (n : Z)
           (range : list F) (k : Z) (range_mem : list F) : Prop :=
  length range_mem = length range /\
  (exists chirp_in : Z -> list F, forall j, 0 <= j < k ->
     range_mem.[2 * (j * (n / 2)) + 1] = f32_lit 0 1 /\
     forall p, 0 <= p < 2 * (n / 2) -> p <> 1 ->
       range_mem.[2 * (j * (n / 2)) + p]
       = (snd (arm_rfft_fast_f32 rfft (chirp_in j))).[p]) /\
  (forall p, 2 * (n / 2) * k + n mod 2 <= p -> range_mem.[p] = range.[p]).

End Predicates.

(** What is asked of the backend: the root of 1 is found, and the
    arctangent of 0 over that root is 0. *)
Definition arcsin_backend_ok `{B : ArmFastMath R} : Prop :=
  fst (arm_sqrt_f32 1%R) = ARM_MATH_SUCCESS /\
  snd (arm_atan2_f32 0%R (default (f32_lit 0 1) (snd (arm_sqrt_f32 1%R)))) = Some 0%R.

(** The same in single precision, for either sign of zero; the phases the
    backend returns are finite. *)
Definition backend_ok_b32 `{B : ArmFastMath spec_float} : Prop :=
  fst (arm_sqrt_f32 (Binary32.of_int 1)) = ARM_MATH_SUCCESS /\
  (forall s, exists s',
     snd (arm_atan2_f32 (S754_zero s)
            (default (f32_lit 0 1) (snd (arm_sqrt_f32 (Binary32.of_int 1)))))
     = Some (S754_zero s')) /\
  (forall y x a, snd (arm_atan2_f32 y x) = Some a -> Binary32.is_finite a = true).

(** ** Concrete inputs *)

Definition b32_samples (l : list Z) : list spec_float := map Binary32.of_int l.

Definition no_plans : @statics spec_float copy_transform :=
  {| range_fft_rfft := 0; range_cfft_cfft := 0; doppler_cfft_cfft := 0; plan_inits := [] |}.

Definition call_of_length (n : Z) : @fft_call spec_float :=
  {| c_in := repeat (S754_zero false) 64; c_out := repeat (S754_zero false) 64;
     c_mean_removal := false; c_win := None; c_len := n; c_rows := 1 |}.

Definition two_chirps : list spec_float := b32_samples (map Z.of_nat (seq 1 64)).

Definition matrix_2x3 : arm_matrix_instance_f32 spec_float :=
  {| numRows := 2; numCols := 3; pData := b32_samples [1; 0; 2; 0; 3; 0; 4; 0; 5; 0; 6; 0] |}.

Definition matrix_2x2 : arm_matrix_instance_f32 spec_float :=
  {| numRows := 2; numCols := 2; pData := b32_samples [1; 0; 0; 0; 0; 0; 1; 0] |}.

Definition two_rows : list spec_float := b32_samples [1; 2; 3; 4; 5; 6; 7; 8; 9; 10; 11; 12].

(** ** ifx_gen_steering_matrix_f32.c *)

(** The matrix instance as a function that tests its data pointer sees
    it: [pData' = None] is a NULL [pData]. *)
Record arm_matrix_instance_f32' (F : Type) := {
  numRows' : Z;
  numCols' : Z;
  pData' : option (list F)
}.
Arguments numRows' {F} _.
Arguments numCols' {F} _.
Arguments pData' {F} _.

Section Steering.
Context {F : Type} `{Float32 F} `{ArmTrig F}.

(** The inner loop over the antennas of one angle; the loop carries the
    memory behind [pDst->pData] and the advancing pointer [pOut]. *)
Definition steering_row (phase_calc_coefficient angle : F) (num_ant : Z)
           (s : list F * Z) : list F * Z :=
  for_loop num_ant
    (fun jj '(mem, pOut) =>
       let phase := (phase_calc_coefficient * f32_of_int jj * arm_sin_f32 angle)%f32 in
       let mem := store mem pOut (arm_cos_f32 phase) in
       let pOut := pOut + 1 in
       let mem := store mem pOut (arm_sin_f32 phase) in
       (mem, pOut + 1))
    s.

(** [pDst = None] is the NULL pointer.  Returns the matrix with its data
    filled. *)
Definition ifx_gen_steering_matrix_f32 (ang_est_range : F) (num_angles : Z)
           (antenna_spacing_mm lambda_mm : F) (num_ant : Z)
           (pDst : option (arm_matrix_instance_f32' F))
  : outcome (arm_matrix_instance_f32 F) :=
  if negb (ang_est_range >? f32_lit 0 1)%f32 then AssertionFailed else
  if negb (ang_est_range <=? f32_PI / f32_lit 2 1)%f32 then AssertionFailed else
  if negb (1 <? num_angles) then AssertionFailed else
  if negb (1 <? num_ant) then AssertionFailed else
  match pDst with
  | None => AssertionFailed
  | Some dst =>
  match pData' dst with
  | None => AssertionFailed
  | Some data =>
  let ang_est_resolution :=
    ((f32_lit 2 1 * ang_est_range) / (f32_of_int num_angles - f32_lit 1 1))%f32 in
  if negb (numCols' dst =? num_ant) then AssertionFailed else
  if negb (numRows' dst =? num_angles) then AssertionFailed else
  let phase_calc_coefficient :=
    ((- f32_lit 1 1) * f32_PI * ((f32_lit 2 1 * antenna_spacing_mm) / lambda_mm))%f32 in
  let '(mem, _) :=
    for_loop num_angles
      (fun kk s =>
         let angle := ((- ang_est_range) + (f32_of_int kk * ang_est_resolution))%f32 in
         steering_row phase_calc_coefficient angle num_ant s)
      (data, 0) in
  Done {| numRows := numRows' dst; numCols := numCols' dst; pData := mem |}
  end end.

End Steering.

(** ** ifx_sensor_dsp.h: the inline helpers *)

Section RadarHelpers.
Context {F : Type} `{Float32 F}.

Definition IFX_LIGHT_SPEED_M_S : F := f32_lit 299792458 1.

Definition ifx_range_resolution (bandwidth_hz : F) : F :=
  (IFX_LIGHT_SPEED_M_S / (f32_lit 2 1 * bandwidth_hz))%f32.

Definition ifx_range_resolution_ex (num_samples : Z) (sample_rate_hz freq_slope_hz_s : F) : F :=
  let bandwidth := ((freq_slope_hz_s / sample_rate_hz) * f32_of_int num_samples)%f32 in
  ifx_range_resolution bandwidth.

Definition ifx_max_range (sample_rate_hz : Z) (freq_slope_hz_s : F) : F :=
  ((f32_of_int sample_rate_hz * IFX_LIGHT_SPEED_M_S) / (f32_lit 2 1 * freq_slope_hz_s))%f32.

Definition ifx_doppler_resolution (bandwidth_hz frame_time_s : F) : F :=
  (IFX_LIGHT_SPEED_M_S / (bandwidth_hz * frame_time_s))%f32.

Definition ifx_max_doppler (bandwidth_hz chirp_time_s : F) : F :=
  (IFX_LIGHT_SPEED_M_S / (f32_lit 2 1 * bandwidth_hz * chirp_time_s))%f32.

End RadarHelpers.

(** ** Further predicates *)

Section PeakPredicates.
Context {F : Type} `{Float32 F}.

Local Notation "x .[ i ]" := (load (f32_of_int 0) x i) (at level 1, format "x .[ i ]").

(** The first three tests of the scan: sample [i] is above [height] and
    not more than [threshold] below either neighbour. *)
Definition peak_candidate (x : list F) (o : ifx_peak_search_opts_f32_t F) (i : Z) : bool :=
  negb (x.[i] <=? height o)%f32
  && negb (x.[i] - threshold o <? x.[i - 1])%f32
  && negb (x.[i] - threshold o <? x.[i + 1])%f32.

(** The candidates among the [n] indices from [i] on, in rising order. *)
Definition peak_candidates (x : list F) (o : ifx_peak_search_opts_f32_t F)
           (i : Z) (n : nat) : list Z :=
  List.filter (peak_candidate x o) (map (fun k => i + Z.of_nat k) (seq 0 n)).

(** What the scan has checked of a peak it stores. *)
Definition peak_accepted (x : list F) (length : Z) (o : ifx_peak_search_opts_f32_t F)
           (i : Z) : Prop :=
  peak_candidate x o i = true /\
  (1 < width o ->
   width o <= get_width x length i (get_prominence x length i * f32_lit 5 10)%f32).

(** What the scan keeps true of the cells written before it looks at
    sample [i]: they are the cells up to [peak_count], each holds an
    accepted index below [i], and the indices rise with the cells. *)
Definition scan_sound (x : list F) (length : Z) (o : ifx_peak_search_opts_f32_t F)
           (i : Z) (s : peak_scan) : Prop :=
  -1 <= peak_count s /\
  (forall k v, peak_indices s !! k = Some v ->
     0 <= k <= peak_count s /\ 1 <= v < i /\ v <= length - 2 /\ peak_accepted x length o v) /\
  (forall k1 k2 v1 v2, k1 < k2 ->
     peak_indices s !! k1 = Some v1 -> peak_indices s !! k2 = Some v2 -> v1 < v2).

End PeakPredicates.

(** * Properties *)


(** The default options find every local maximum of the example. *)
Example peak_search_default_opts : ifx_peak_search_f32 (b32_samples [0;1;0;5;0;1;0]) 7 5 None
              = (3, {[0 := 1; 1 := 3; 2 := 5]}).
Proof. vm_compute. reflexivity. Qed.

(** ** Arrays and loops *)

Section ArrayFacts.
Context {A : Type}.
Implicit Types (x m : list A) (d a : A).

Lemma length_store x i a : length (store x i a) = length x.
Proof. apply length_insert. Qed.

Lemma load_store_eq d x i a :
  0 <= i < Z.of_nat (length x) -> load d (store x i a) i = a.
Proof.
  intros Hi. unfold load, store. rewrite nth_lookup, list_lookup_insert_eq; [reflexivity|lia].
Qed.

Lemma load_store_ne d x i j a :
  0 <= i -> 0 <= j -> i <> j -> load d (store x i a) j = load d x j.
Proof.
  intros Hi Hj Hne. unfold load, store.
  rewrite !nth_lookup, list_lookup_insert_ne; [reflexivity|lia].
Qed.

Lemma for_loop_0 {S} (body : Z -> S -> S) (s : S) : for_loop 0 body s = s.
Proof. reflexivity. Qed.

Lemma for_loop_nonpos {S} n (body : Z -> S -> S) (s : S) : n <= 0 -> for_loop n body s = s.
Proof. intros Hn. unfold for_loop. replace (Z.to_nat n) with O by lia. reflexivity. Qed.

Lemma for_loop_succ {S} n (body : Z -> S -> S) (s : S) :
  0 <= n -> for_loop (n + 1) body s = body n (for_loop n body s).
Proof.
  intros Hn. unfold for_loop.
  replace (Z.to_nat (n + 1)) with (Datatypes.S (Z.to_nat n)) by lia.
  rewrite seq_S, fold_left_app. cbn. rewrite Z2Nat.id by lia. reflexivity.
Qed.

(** Induction over the turns of a counted loop. *)
Lemma for_loop_ind {S} (P : Z -> S -> Prop) n (body : Z -> S -> S) (s : S) :
  P 0 s ->
  (forall i t, 0 <= i < n -> P i t -> P (i + 1) (body i t)) ->
  0 <= n -> P n (for_loop n body s).
Proof.
  intros H0 Hstep Hn. rewrite <- (Z2Nat.id n) by lia.
  assert (Hle : (Z.to_nat n <= Z.to_nat n)%nat) by lia. revert Hle.
  generalize (Z.to_nat n) at 1 3 4 as k.
  induction k as [|k IH]; intros Hk.
  - exact H0.
  - rewrite Nat2Z.inj_succ, <- Z.add_1_r, for_loop_succ by lia.
    apply Hstep; [lia|]. apply IH. lia.
Qed.

(** A loop that stores one cell per turn, [off + i] at turn [i], with a
    value that only depends on cells not yet stored: afterwards cell
    [off + i] holds that value computed on the initial array, the other
    cells are as before. *)
Lemma for_loop_store d (g : Z -> list A -> A) off n m0 :
  0 <= off -> 0 <= n -> off + n <= Z.of_nat (length m0) ->
  (forall i m, 0 <= i < n -> length m = length m0 ->
     (forall p, off + i <= p -> load d m p = load d m0 p) -> g i m = g i m0) ->
  let r := for_loop n (fun i m => store m (off + i) (g i m)) m0 in
  length r = length m0 /\
  forall p, 0 <= p ->
    load d r p = if (off <=? p) && (p <? off + n) then g (p - off) m0 else load d m0 p.
Proof.
  intros Hoff Hn Hlen Hg r. subst r.
  apply (for_loop_ind (fun k r =>
    length r = length m0 /\
    forall p, 0 <= p ->
      load d r p = if (off <=? p) && (p <? off + k) then g (p - off) m0 else load d m0 p)).
  - split; [reflexivity|]. intros p Hp.
    destruct (off <=? p) eqn:E1, (p <? off + 0) eqn:E2; try reflexivity. lia.
  - intros i t Hi [Hlt Ht]. split; [now rewrite length_store|].
    intros p Hp.
    assert (Hgi : g i t = g i m0).
    { apply (Hg i t Hi Hlt). intros q Hq. rewrite Ht by lia.
      destruct (off <=? q) eqn:E1, (q <? off + i) eqn:E2; try reflexivity. lia. }
    destruct (Z.eq_dec p (off + i)) as [->|Hne].
    + rewrite load_store_eq by lia. rewrite Hgi.
      replace (off + i - off) with i by lia.
      destruct (off <=? off + i) eqn:E1, (off + i <? off + (i + 1)) eqn:E2;
        try reflexivity; lia.
    + rewrite load_store_ne by lia. rewrite Ht by lia.
      destruct (off <=? p) eqn:E1, (p <? off + i) eqn:E2, (p <? off + (i + 1)) eqn:E3;
        try reflexivity; lia.
  - exact Hn.
Qed.

Lemma for_loop_ext {S} n (body body' : Z -> S -> S) (s : S) :
  (forall i t, 0 <= i < n -> body i t = body' i t) ->
  for_loop n body s = for_loop n body' s.
Proof.
  intros Hext. destruct (Z.le_gt_cases 0 n) as [Hn|Hn].
  - apply (for_loop_ind (fun k r => r = for_loop k body' s)); [reflexivity| |exact Hn].
    intros i t Hi ->. rewrite for_loop_succ by lia. now apply Hext.
  - rewrite !for_loop_nonpos by lia. reflexivity.
Qed.

(** The same for an array stored from its first cell on. *)
Lemma for_loop_store_0 d (g : Z -> list A -> A) n m0 :
  0 <= n -> n <= Z.of_nat (length m0) ->
  (forall i m, 0 <= i < n -> length m = length m0 ->
     (forall p, i <= p -> load d m p = load d m0 p) -> g i m = g i m0) ->
  let r := for_loop n (fun i m => store m i (g i m)) m0 in
  length r = length m0 /\
  forall p, 0 <= p -> load d r p = if p <? n then g p m0 else load d m0 p.
Proof.
  intros Hn Hlen Hg r. subst r.
  destruct (for_loop_store d g 0 n m0) as [Hl Hp]; try lia.
  { intros i m Hi Hm Hq. apply Hg; auto. }
  rewrite (for_loop_ext n _ (fun i m => store m (0 + i) (g i m))) by reflexivity.
  split; [exact Hl|]. intros p H0. rewrite Hp by lia.
  replace (0 <=? p) with true by (symmetry; apply Z.leb_le; lia).
  rewrite Z.sub_0_r. reflexivity.
Qed.

End ArrayFacts.

(** ** Peak search *)

Section PeakSearchFacts.
Context {F : Type} `{Float32 F} `{Float32Limits F}.

Lemma scan_inv_post max_peaks s : scan_inv max_peaks s -> scan_post max_peaks s.
Proof. unfold scan_inv, scan_post. intuition lia. Qed.

Lemma peak_search_step_inv x length max_peaks o i s :
  scan_inv max_peaks s ->
  match peak_search_step x length max_peaks o i s with
  | (s', Next) => scan_inv max_peaks s'
  | (s', Break) => scan_post max_peaks s' /\ peak_count s' + 1 = max_peaks
  end.
Proof.
  intros Hs. pose proof Hs as (Hlo & Hhi & Hdom). unfold peak_search_step.
  destruct (f32_leb _ (height o)); [exact Hs|].
  destruct (f32_ltb _ (load _ x (i - 1))); [exact Hs|].
  destruct (f32_ltb _ (load _ x (i + 1))); [exact Hs|].
  destruct ((0 <? peak_count s) && (i - distance o <? last_peak_index s)) eqn:Hnear.
  - apply andb_prop in Hnear as [Hpos _]. apply Z.ltb_lt in Hpos.
    destruct (f32_ltb _ _); [|exact Hs].
    destruct ((1 <? width o) && _); [exact Hs|].
    rewrite Z.add_0_r.
    assert (Hdom' : forall k, is_Some (<[peak_count s := i]> (peak_indices s) !! k)
                              <-> 0 <= k <= peak_count s).
    { intros k. rewrite lookup_insert_is_Some, Hdom. lia. }
    destruct (max_peaks <=? peak_count s + 1) eqn:E.
    + apply Z.leb_le in E. lia.
    + unfold scan_inv; cbn [peak_count peak_indices]. auto.
  - destruct ((1 <? width o) && _); [exact Hs|].
    assert (Hdom' : forall k, is_Some (<[peak_count s + 1 := i]> (peak_indices s) !! k)
                              <-> 0 <= k <= peak_count s + 1).
    { intros k. rewrite lookup_insert_is_Some, Hdom. lia. }
    destruct (max_peaks <=? peak_count s + 1 + 1) eqn:E.
    + apply Z.leb_le in E. unfold scan_post; cbn [peak_count peak_indices].
      split; [split; [lia|split; [lia|exact Hdom']]|lia].
    + apply Z.leb_gt in E. unfold scan_inv; cbn [peak_count peak_indices].
      split; [lia|split; [lia|exact Hdom']].
Qed.

Lemma peak_search_loop_post x length max_peaks o fuel : forall i s,
  scan_inv max_peaks s ->
  scan_post max_peaks (peak_search_loop x length max_peaks o fuel i s).
Proof.
  induction fuel as [|fuel IH]; intros i s Hs; cbn [peak_search_loop].
  - now apply scan_inv_post.
  - destruct (i <? length - 1); [|now apply scan_inv_post].
    pose proof (peak_search_step_inv x length max_peaks o i s Hs) as Hstep.
    destruct (peak_search_step x length max_peaks o i s) as [s' [|]].
    + now apply IH.
    + apply Hstep.
Qed.

(** With room for at least one peak the count stays within [0, max_peaks]
    and the cells written are exactly those below the count. *)
Lemma peak_search_count_bounds x length max_peaks opts :
  1 <= max_peaks ->
  let '(count, written) := ifx_peak_search_f32 x length max_peaks opts in
  0 <= count <= max_peaks /\
  forall k, is_Some (written !! k) <-> 0 <= k < count.
Proof.
  intros Hmax. unfold ifx_peak_search_f32.
  match goal with
  | |- context [peak_search_loop ?x ?l ?m ?o ?f ?i ?s] =>
      pose proof (peak_search_loop_post x l m o f i s) as Hpost;
      set (r := peak_search_loop x l m o f i s) in *
  end.
  destruct Hpost as (Hlo & Hhi & Hdom).
  { unfold scan_inv; cbn. split; [lia|]. split; [lia|].
    intros k. rewrite lookup_empty. split; [intros []; discriminate | lia]. }
  split; [lia|]. intros k. rewrite Hdom. lia.
Qed.

(** While a single peak is stored ([peak_count = 0]) a step does not look
    at [distance]: the candidate is judged as if no peak were near. *)
Lemma peak_search_step_second_peak x length max_peaks o d i s :
  peak_count s = 0 ->
  peak_search_step x length max_peaks o i s
  = peak_search_step x length max_peaks
      {| height := height o; threshold := threshold o;
         distance := d; width := width o |} i s.
Proof.
  intros Hc. unfold peak_search_step. cbn [height threshold distance width].
  rewrite Hc. reflexivity.
Qed.

(** From the third accepted peak on the distance rule is applied: a
    candidate that passed the height and threshold tests, with the last
    accepted peak less than [distance] samples back, takes the place of that
    peak when it is strictly larger (and wide enough), and is dropped
    otherwise. *)
Lemma peak_search_step_distance_rule x length max_peaks o i s :
  (load (f32_of_int 0) x i <=? height o)%f32 = false ->
  (load (f32_of_int 0) x i - threshold o <? load (f32_of_int 0) x (i - 1))%f32 = false ->
  (load (f32_of_int 0) x i - threshold o <? load (f32_of_int 0) x (i + 1))%f32 = false ->
  0 < peak_count s -> i - distance o < last_peak_index s ->
  peak_search_step x length max_peaks o i s
  = if (load (f32_of_int 0) x (last_peak_index s) <? load (f32_of_int 0) x i)%f32
       && negb ((1 <? width o)
                && (get_width x length i
                      (get_prominence x length i * f32_lit 5 10)%f32 <? width o))
    then ({| peak_count := peak_count s;
             last_peak_index := i;
             peak_indices := <[peak_count s := i]> (peak_indices s) |},
          if max_peaks <=? peak_count s + 1 then Break else Next)
    else (s, Next).
Proof.
  intros Hh Hl Hr Hc Hd. unfold peak_search_step. rewrite Hh, Hl, Hr.
  rewrite (proj2 (Z.ltb_lt 0 (peak_count s)) Hc).
  rewrite (proj2 (Z.ltb_lt (i - distance o) (last_peak_index s)) Hd). cbn [andb].
  clear Hh Hl Hr.
  destruct (f32_ltb (load _ x (last_peak_index s)) _); [|reflexivity]. cbn [andb].
  destruct ((1 <? width o) && _); [reflexivity|]. cbn [negb].
  rewrite Z.add_0_r. reflexivity.
Qed.

End PeakSearchFacts.

(** C1. For [x = [0,1,0,5,0,1,0]], default height, threshold and width and
    [distance = 4], the claim promises the single index 3.  The scan returns
    two peaks, at 1 and 3: the distance test is guarded by [peak_count > 0],
    and [peak_count] is 0 (not 1) once the first peak is stored, so the second
    accepted peak is never compared with the first. *)
Theorem peak_search_distance_skips_first_pair :
  ifx_peak_search_f32 (b32_samples [0; 1; 0; 5; 0; 1; 0]) 7 5
    (Some {| height := (- f32_INFINITY)%f32; threshold := f32_FLT_EPSILON;
             distance := 4; width := 1 |})
  = (2, {[0 := 1; 1 := 3]}).
Proof. vm_compute. reflexivity. Qed.

(** C2. With [max_peaks = 0] and [x = [0,1,0]] the scan stores index 1 in
    [peak_indices[0]] and returns 1: the bound is tested only after the
    store, so the count exceeds [max_peaks] and a cell outside a buffer of
    [max_peaks] elements is written. *)
Theorem peak_search_zero_max_peaks_stores_one :
  ifx_peak_search_f32 (b32_samples [0; 1; 0]) 3 0 None = (1, {[0 := 1]}).
Proof. vm_compute. reflexivity. Qed.

(** ** MTI filter *)

Section MTIFacts.
Context {F : Type} `{Float32 F}.

Local Notation "x .[ i ]" := (load (f32_of_int 0) x i) (at level 1, format "x .[ i ]").

Lemma arm_sub_f32_spec (a b dst : list F) n :
  0 <= n <= Z.of_nat (length dst) ->
  length (arm_sub_f32 a b dst n) = length dst /\
  forall i, 0 <= i < n -> (arm_sub_f32 a b dst n).[i] = (a.[i] - b.[i])%f32.
Proof.
  intros Hn. unfold arm_sub_f32.
  destruct (for_loop_store_0 (f32_of_int 0) (fun i _ => (a.[i] - b.[i])%f32) n dst)
    as [Hl Hp]; try lia; [reflexivity|].
  split; [exact Hl|]. intros i Hi. rewrite Hp by lia.
  replace (i <? n) with true by (symmetry; apply Z.ltb_lt; lia). reflexivity.
Qed.

(** One call, whatever the arithmetic: the output is the input minus the
    history, the history moves by [alpha] times the output. *)
Lemma ifx_mti_f32_call (inst : ifx_mti_inst_f32 F) (h input out : list F) :
  historical_data inst = Some h ->
  0 <= len inst ->
  Z.of_nat (length h) = len inst ->
  Z.of_nat (length out) = len inst ->
  (alpha inst >=? f32_of_int 0)%f32 = true ->
  (alpha inst <=? f32_of_int 1)%f32 = true ->
  exists h' out',
    ifx_mti_f32 inst (Some input) (Some out)
    = Done ({| len := len inst; alpha := alpha inst; historical_data := Some h' |}, out') /\
    length h' = length h /\ length out' = length out /\
    forall i, 0 <= i < len inst ->
      out'.[i] = (input.[i] - h.[i])%f32 /\
      h'.[i] = (h.[i] + alpha inst * out'.[i])%f32.
Proof.
  intros Hh Hlen Hlh Hlo Ha0 Ha1. unfold ifx_mti_f32. rewrite Hh, Ha0, Ha1. cbn [negb].
  destruct (arm_sub_f32_spec input h out (len inst)) as [Hol Hov]; [lia|].
  set (out' := arm_sub_f32 input h out (len inst)) in *.
  destruct (for_loop_store_0 (f32_of_int 0)
              (fun j m => (m.[j] + alpha inst * out'.[j])%f32) (len inst) h)
    as [Hl Hp]; try lia.
  { intros i m Hi Hm Hq. cbv beta. rewrite Hq by lia. reflexivity. }
  eexists _, out'. split; [reflexivity|]. split; [exact Hl|]. split; [exact Hol|].
  intros i Hi. split; [now apply Hov|]. rewrite Hp by lia.
  replace (i <? len inst) with true by (symmetry; apply Z.ltb_lt; lia). reflexivity.
Qed.

(** When the initialisation runs to its end it has stored both arguments
    and zeroed the first [len] cells of the buffer. *)
Lemma ifx_mti_init_f32_done inst alpha_arg len_arg buf inst' :
  0 <= len_arg <= Z.of_nat (length buf) ->
  ifx_mti_init_f32 inst alpha_arg len_arg (Some buf) = Done inst' ->
  len inst' = len_arg /\ alpha inst' = alpha_arg /\
  exists h, historical_data inst' = Some h /\ length h = length buf /\
    forall i, 0 <= i < len_arg -> h.[i] = f32_lit 0 1.
Proof.
  intros Hlen. unfold ifx_mti_init_f32.
  destruct inst as [i|]; [|discriminate].
  destruct (historical_data i); [|discriminate].
  destruct (negb _); [discriminate|]. destruct (negb _); [discriminate|].
  intros [= <-]. cbn [len alpha historical_data]. split; [reflexivity|]. split; [reflexivity|].
  eexists. split; [reflexivity|].
  destruct (for_loop_store_0 (f32_of_int 0) (fun _ _ => f32_lit 0 1) len_arg buf)
    as [Hl Hp]; try lia; [reflexivity|].
  split; [exact Hl|]. intros j Hj. rewrite Hp by lia.
  replace (j <? len_arg) with true by (symmetry; apply Z.ltb_lt; lia). reflexivity.
Qed.

(** Whether the initialisation stops at an assertion does not depend on
    the [alpha] it is given. *)
Lemma ifx_mti_init_f32_alpha_unchecked inst a1 a2 len_arg buf :
  ifx_mti_init_f32 inst a1 len_arg buf = AssertionFailed <->
  ifx_mti_init_f32 inst a2 len_arg buf = AssertionFailed.
Proof.
  unfold ifx_mti_init_f32.
  destruct inst as [i|]; [|tauto]. destruct buf; [|tauto].
  destruct (historical_data i); [|tauto].
  destruct (negb _); [tauto|]. destruct (negb _); [tauto|].
  split; discriminate.
Qed.

End MTIFacts.

(** C3. The assertions of [ifx_mti_init_f32] read [inst->alpha], the value
    the instance held before the call, and never the [alpha] argument: an
    argument of 2 is stored when the instance held 0.5, and an argument of
    0.5 is refused when the instance held 5. *)
Theorem mti_init_asserts_stale_alpha :
  ifx_mti_init_f32
    (Some {| len := 0; alpha := f32_lit 5 10; historical_data := Some [] |})
    (f32_of_int 2) 1 (Some [Binary32.of_int 7])
  = Done {| len := 1; alpha := Binary32.of_int 2;
            historical_data := Some [S754_zero false] |}
  /\
  ifx_mti_init_f32
    (Some {| len := 0; alpha := f32_of_int 5; historical_data := Some [] |})
    (f32_lit 5 10) 1 (Some [Binary32.of_int 7])
  = AssertionFailed.
Proof. split; vm_compute; reflexivity. Qed.

Section MTIExact.

Local Notation "x .[ i ]" := (load (f32_of_int 0) x i) (at level 1, format "x .[ i ]").

Lemma exact_geb_0 (a : R) : (0 <= a)%R -> (a >=? f32_of_int 0)%f32 = true.
Proof. intros Ha. cbn. destruct (Rle_dec 0 a); [reflexivity|contradiction]. Qed.

Lemma exact_leb_1 (a : R) : (a <= 1)%R -> (a <=? f32_of_int 1)%f32 = true.
Proof. intros Ha. cbn. destruct (Rle_dec a 1); [reflexivity|contradiction]. Qed.

Lemma load_repeat {A} (d c : A) n i : 0 <= i < Z.of_nat n -> load d (repeat c n) i = c.
Proof.
  intros Hi. unfold load. apply nth_repeat_lt. lia.
Qed.

(** Repeated calls on the constant input [c]: if the history holds
    [c (1 - (1 - alpha)^j)] in every bin, the output of the call after [k]
    more is [c (1 - alpha)^(j + k)]. *)
Lemma mti_calls_constant (a c : R) (n : nat) (out : list R) :
  (0 <= a <= 1)%R -> length out = n ->
  forall k j (h : list R),
    length h = n ->
    (forall i, 0 <= i < Z.of_nat n -> h.[i] = (c * (1 - (1 - a) ^ j))%R) ->
    exists h' out',
      mti_calls (S k) {| len := Z.of_nat n; alpha := a; historical_data := Some h |}
        (repeat c n) out
      = Done ({| len := Z.of_nat n; alpha := a; historical_data := Some h' |}, out') /\
      forall i, 0 <= i < Z.of_nat n -> out'.[i] = (c * (1 - a) ^ (j + k))%R.
Proof.
  intros Ha Hout. induction k as [|k IH]; intros j h Hh Hhv.
  - destruct (ifx_mti_f32_call
                {| len := Z.of_nat n; alpha := a; historical_data := Some h |}
                h (repeat c n) out) as (h' & out' & Hcall & _ & _ & Hv);
      cbn [len alpha historical_data]; try lia; try reflexivity.
    { apply exact_geb_0, Ha. } { apply exact_leb_1, Ha. }
    exists h', out'. split; [exact Hcall|]. intros i Hi.
    destruct (Hv i Hi) as [-> _]. rewrite load_repeat, Hhv by lia.
    rewrite Nat.add_0_r. cbn. ring.
  - destruct (ifx_mti_f32_call
                {| len := Z.of_nat n; alpha := a; historical_data := Some h |}
                h (repeat c n) out) as (h' & out' & Hcall & Hl' & _ & Hv);
      cbn [len alpha historical_data] in *; try lia; try reflexivity.
    { apply exact_geb_0, Ha. } { apply exact_leb_1, Ha. }
    destruct (IH (S j) h') as (h'' & out'' & Hcalls & Hv'); [lia| |].
    { intros i Hi. destruct (Hv i Hi) as [Ho ->]. rewrite Ho, load_repeat, Hhv by lia.
      cbn. ring. }
    exists h'', out''. split.
    + change (mti_calls (S (S k)) ?i ?x ?o)
        with (match ifx_mti_f32 i (Some x) (Some o) with
              | Done (inst', _) => mti_calls (S k) inst' x o
              | AssertionFailed => AssertionFailed
              end).
      rewrite Hcall. exact Hcalls.
    + intros i Hi. rewrite Hv' by lia. replace (j + S k)%nat with (S j + k)%nat by lia.
      reflexivity.
Qed.

End MTIExact.

(** In exact arithmetic: one call of [ifx_mti_f32] on an instance with
    history [h] yields [output[i] = input[i] - h[i]] and the new history
    [h[i] + alpha * output[i]], which is [(1 - alpha) * h[i] + alpha * input[i]];
    from a zeroed history the [k]-th call on the constant input [c] yields
    [c * (1 - alpha)^(k-1)] in every bin, and for [0 < alpha <= 1] these
    outputs tend to zero. *)
Lemma mti_exact_exponential_average (a c : R) (n : nat) (h input out : list R) :
  (0 <= a <= 1)%R -> length h = n -> length input = n -> length out = n ->
  let dflt := f32_of_int 0 in
  let zero := {| len := Z.of_nat n; alpha := a; historical_data := Some (repeat 0%R n) |} in
  (exists h' out',
     ifx_mti_f32 {| len := Z.of_nat n; alpha := a; historical_data := Some h |}
       (Some input) (Some out)
     = Done ({| len := Z.of_nat n; alpha := a; historical_data := Some h' |}, out') /\
     forall i, 0 <= i < Z.of_nat n ->
       load dflt out' i = (load dflt input i - load dflt h i)%R /\
       load dflt h' i = (load dflt h i + a * load dflt out' i)%R /\
       load dflt h' i = ((1 - a) * load dflt h i + a * load dflt input i)%R) /\
  (forall k, (1 <= k)%nat ->
     exists inst_k out_k,
       mti_calls k zero (repeat c n) out = Done (inst_k, out_k) /\
       forall i, 0 <= i < Z.of_nat n -> load dflt out_k i = (c * (1 - a) ^ (k - 1))%R) /\
  ((0 < a)%R ->
   forall eps, (0 < eps)%R ->
     exists K, forall k, (K <= k)%nat ->
       exists inst_k out_k,
         mti_calls k zero (repeat c n) out = Done (inst_k, out_k) /\
         forall i, 0 <= i < Z.of_nat n -> (Rabs (load dflt out_k i) < eps)%R).
Proof.
  intros Ha Hh Hin Hout dflt zero.
  assert (Hk : forall k, (1 <= k)%nat ->
     exists inst_k out_k,
       mti_calls k zero (repeat c n) out = Done (inst_k, out_k) /\
       forall i, 0 <= i < Z.of_nat n -> load dflt out_k i = (c * (1 - a) ^ (k - 1))%R).
  { intros [|k] Hk; [lia|].
    destruct (mti_calls_constant a c n out Ha Hout k 0 (repeat 0%R n))
      as (h' & out' & Hcalls & Hv).
    { apply repeat_length. }
    { intros i Hi. rewrite load_repeat by lia. cbn. ring. }
    eexists _, out'. split; [exact Hcalls|]. intros i Hi. rewrite Hv by lia.
    replace (S k - 1)%nat with k by lia. reflexivity. }
  split; [|split; [exact Hk|]].
  - destruct (ifx_mti_f32_call
                {| len := Z.of_nat n; alpha := a; historical_data := Some h |}
                h input out) as (h' & out' & Hcall & _ & _ & Hv);
      cbn [len alpha historical_data]; try lia; try reflexivity.
    { apply exact_geb_0, Ha. } { apply exact_leb_1, Ha. }
    exists h', out'. split; [exact Hcall|]. intros i Hi.
    destruct (Hv i Hi) as [Ho Hh']. subst dflt.
    split; [exact Ho|]. split; [exact Hh'|]. rewrite Hh', Ho. cbn. ring.
  - intros Hpos eps Heps.
    destruct (pow_lt_1_zero (1 - a)%R) with (y := (eps / (Rabs c + 1))%R) as [N HN].
    { apply Rabs_def1; lra. }
    { apply Rdiv_lt_0_compat; [lra|]. pose proof (Rabs_pos c). lra. }
    exists (S N). intros k HkN.
    destruct (Hk k) as (inst_k & out_k & Hcalls & Hv); [lia|].
    exists inst_k, out_k. split; [exact Hcalls|]. intros i Hi. rewrite Hv by lia.
    rewrite Rabs_mult. specialize (HN (k - 1)%nat ltac:(lia)).
    pose proof (Rabs_pos c) as Hc. pose proof (Rabs_pos ((1 - a) ^ (k - 1))) as Hq.
    apply Rle_lt_trans with ((Rabs c + 1) * Rabs ((1 - a) ^ (k - 1)))%R.
    + apply Rmult_le_compat_r; [exact Hq|lra].
    + apply Rlt_le_trans with ((Rabs c + 1) * (eps / (Rabs c + 1)))%R.
      * apply Rmult_lt_compat_l; [lra|exact HN].
      * apply Req_le. field. lra.
Qed.

(** Runs of calls: the first [j] calls, then the others; and a call that
    leaves the instance as it was repeats for ever. *)
Section MTIRuns.
Context {F : Type} `{Float32 F}.

Lemma mti_calls_step (k : nat) (inst : ifx_mti_inst_f32 F) (input out : list F) :
  mti_calls (S (S k)) inst input out
  = match ifx_mti_f32 inst (Some input) (Some out) with
    | Done (inst', _) => mti_calls (S k) inst' input out
    | AssertionFailed => AssertionFailed
    end.
Proof. reflexivity. Qed.

Lemma mti_calls_add (j : nat) : forall (inst inst' : ifx_mti_inst_f32 F) input out out' k,
  mti_calls j inst input out = Done (inst', out') ->
  mti_calls (j + S k) inst input out = mti_calls (S k) inst' input out.
Proof.
  induction j as [|j IH]; intros inst inst' input out out' k Hj.
  - cbn [mti_calls] in Hj. injection Hj as <- _. reflexivity.
  - destruct j as [|j].
    + cbn [mti_calls] in Hj. change (1 + S k)%nat with (S (S k)).
      rewrite mti_calls_step, Hj. reflexivity.
    + rewrite mti_calls_step in Hj.
      change (S (S j) + S k)%nat with (S (S (j + S k))). rewrite mti_calls_step.
      destruct (ifx_mti_f32 inst (Some input) (Some out)) as [[i1 o1]|]; [|discriminate].
      exact (IH i1 inst' input out out' k Hj).
Qed.

Lemma mti_calls_fixed (inst : ifx_mti_inst_f32 F) (input out out' : list F) :
  ifx_mti_f32 inst (Some input) (Some out) = Done (inst, out') ->
  forall k, mti_calls (S k) inst input out = Done (inst, out').
Proof.
  intros Hfix. induction k as [|k IH]; [exact Hfix|].
  rewrite mti_calls_step, Hfix. exact IH.
Qed.

End MTIRuns.

(** C5, as amended.  In every arithmetic, single precision included, a call
    of [ifx_mti_f32] on an instance with [alpha] within [0, 1] and a history
    [h] of [len] cells yields [output[i] = input[i] - h[i]] and the new
    history [h[i] + alpha * output[i]], each operation being that of the
    arithmetic.  In exact arithmetic the new history is
    [(1 - alpha) * h[i] + alpha * input[i]], from a zeroed history the
    [k]-th call on the constant input [c] yields [c * (1 - alpha)^(k-1)],
    and for [0 < alpha <= 1] these outputs tend to zero. *)
Theorem mti_f32_recurrence :
  (forall (F : Type) (arith : Float32 F) (inst : ifx_mti_inst_f32 F) (h input out : list F),
     historical_data inst = Some h ->
     0 <= len inst ->
     Z.of_nat (length h) = len inst ->
     Z.of_nat (length out) = len inst ->
     (alpha inst >=? f32_of_int 0)%f32 = true ->
     (alpha inst <=? f32_of_int 1)%f32 = true ->
     exists h' out',
       ifx_mti_f32 inst (Some input) (Some out)
       = Done ({| len := len inst; alpha := alpha inst; historical_data := Some h' |}, out') /\
       forall i, 0 <= i < len inst ->
         load (f32_of_int 0) out' i
         = (load (f32_of_int 0) input i - load (f32_of_int 0) h i)%f32 /\
         load (f32_of_int 0) h' i
         = (load (f32_of_int 0) h i + alpha inst * load (f32_of_int 0) out' i)%f32) /\
  (forall (a c : R) (n : nat) (h input out : list R),
     (0 <= a <= 1)%R -> length h = n -> length input = n -> length out = n ->
     let zero :=
       {| len := Z.of_nat n; alpha := a; historical_data := Some (repeat 0%R n) |} in
     (exists h' out',
        ifx_mti_f32 {| len := Z.of_nat n; alpha := a; historical_data := Some h |}
          (Some input) (Some out)
        = Done ({| len := Z.of_nat n; alpha := a; historical_data := Some h' |}, out') /\
        forall i, 0 <= i < Z.of_nat n ->
          load 0%R h' i = ((1 - a) * load 0%R h i + a * load 0%R input i)%R) /\
     (forall k, (1 <= k)%nat ->
        exists inst_k out_k,
          mti_calls k zero (repeat c n) out = Done (inst_k, out_k) /\
          forall i, 0 <= i < Z.of_nat n -> load 0%R out_k i = (c * (1 - a) ^ (k - 1))%R) /\
     ((0 < a)%R ->
      forall eps, (0 < eps)%R ->
        exists K, forall k, (K <= k)%nat ->
          exists inst_k out_k,
            mti_calls k zero (repeat c n) out = Done (inst_k, out_k) /\
            forall i, 0 <= i < Z.of_nat n -> (Rabs (load 0%R out_k i) < eps)%R)).
Proof.
  split.
  - intros F arith inst h input out Hh Hlen Hlh Hlo Ha0 Ha1.
    destruct (ifx_mti_f32_call inst h input out Hh Hlen Hlh Hlo Ha0 Ha1)
      as (h' & out' & E & _ & _ & Hv).
    exists h', out'. split; [exact E|exact Hv].
  - intros a c n h input out Ha Hh Hin Hout zero.
    destruct (mti_exact_exponential_average a c n h input out Ha Hh Hin Hout)
      as ((h' & out' & E & Hv) & Hk & Hlim).
    split; [|split; [exact Hk|exact Hlim]].
    exists h', out'. split; [exact E|]. intros i Hi. apply (Hv i Hi).
Qed.

(** C5, the claim as stated fails in single precision: with [alpha = 0.1f]
    and the constant input 1 on a zeroed history, the output of the third
    call is [13589545 * 2^-24], and from the 150th call on the history stays
    at [1 - 2^-22] and every output is [2^-22]: the outputs neither follow
    [(1 - alpha)^(k-1)] nor approach zero. *)
Lemma mti_binary32_output_stalls :
  let zero := {| len := 1; alpha := Binary32.lit 1 10;
                 historical_data := Some [S754_zero false] |} in
  (exists inst_3,
     mti_calls 3 zero [Binary32.of_int 1] [S754_zero false]
     = Done (inst_3, [S754_finite false 13589545 (-24)])) /\
  forall k, (150 <= k)%nat ->
    exists inst_k,
      mti_calls k zero [Binary32.of_int 1] [S754_zero false]
      = Done (inst_k, [S754_finite false 8388608 (-45)]).
Proof.
  intros zero. split; [eexists; vm_compute; reflexivity|].
  set (fixed := {| len := 1; alpha := Binary32.lit 1 10;
                   historical_data := Some [S754_finite false 16777212 (-24)] |}).
  assert (H150 : mti_calls 150 zero [Binary32.of_int 1] [S754_zero false]
                 = Done (fixed, [S754_finite false 8388608 (-45)]))
    by (vm_compute; reflexivity).
  assert (Hfix : ifx_mti_f32 fixed (Some [Binary32.of_int 1]) (Some [S754_zero false])
                 = Done (fixed, [S754_finite false 8388608 (-45)]))
    by (vm_compute; reflexivity).
  intros k Hk. exists fixed.
  replace k with (150 + (k - 150))%nat by lia.
  destruct (k - 150)%nat as [|j].
  - rewrite Nat.add_0_r. exact H150.
  - rewrite (mti_calls_add 150 zero fixed _ _ _ j H150).
    now apply mti_calls_fixed.
Qed.


(** ** Rotation and FFT shift *)

Section RotateFacts.
Context {F : Type} `{Float32 F}.

Local Notation "x .[ i ]" := (load (f32_of_int 0) x i) (at level 1, format "x .[ i ]").

Lemma wrap32_small z : 0 <= z < 2 ^ 32 -> wrap32 z = z.
Proof. intros Hz. unfold wrap32. apply Z.mod_small. exact Hz. Qed.

(** One turn moves the array one place to the left. *)
Lemma rotate_step_spec (mem : list F) v len :
  0 <= v -> 1 <= len < 2 ^ 32 -> v + len <= Z.of_nat (length mem) ->
  length (rotate_step v len mem) = length mem /\
  forall p, 0 <= p ->
    (rotate_step v len mem).[p]
    = if (v <=? p) && (p <? v + len) then mem.[v + (p - v + 1) mod len] else mem.[p].
Proof.
  intros Hv Hlen Hfit. unfold rotate_step. rewrite wrap32_small by lia.
  destruct (for_loop_store (f32_of_int 0) (fun j m => m.[v + wrap32 (j + 1)])
              v (len - 1) mem) as [Hl Hp]; try lia.
  { intros i m Hi Hm Hq. cbv beta. apply Hq. rewrite wrap32_small by lia. lia. }
  split; [now rewrite length_store, Hl|].
  intros p Hp0. destruct (Z.eq_dec p (v + (len - 1))) as [->|Hne].
  - rewrite load_store_eq by lia.
    replace (v + (len - 1) - v + 1) with (1 * len) by lia.
    rewrite Z.mod_mul by lia.
    destruct (v <=? v + (len - 1)) eqn:E1, (v + (len - 1) <? v + len) eqn:E2;
      try reflexivity; lia.
  - rewrite load_store_ne by lia. rewrite Hp by lia.
    destruct (v <=? p) eqn:E1, (p <? v + (len - 1)) eqn:E2, (p <? v + len) eqn:E3;
      cbn [andb]; try reflexivity; try lia.
    rewrite wrap32_small by lia. rewrite Z.mod_small by lia. reflexivity.
Qed.

(** [k] turns move it [k] places, around the end. *)
Lemma ifx_rotate_f32_spec (mem : list F) v len k :
  0 <= v -> 1 <= len < 2 ^ 32 -> v + len <= Z.of_nat (length mem) -> 0 <= k ->
  length (ifx_rotate_f32 mem v len k) = length mem /\
  forall p, 0 <= p ->
    (ifx_rotate_f32 mem v len k).[p]
    = if (v <=? p) && (p <? v + len) then mem.[v + (p - v + k) mod len] else mem.[p].
Proof.
  intros Hv Hlen Hfit Hk. unfold ifx_rotate_f32.
  cut (forall n, length (Nat.iter n (rotate_step v len) mem) = length mem /\
         forall p, 0 <= p ->
           (Nat.iter n (rotate_step v len) mem).[p]
           = if (v <=? p) && (p <? v + len)
             then mem.[v + (p - v + Z.of_nat n) mod len] else mem.[p]).
  { intros Hn. specialize (Hn (Z.to_nat k)). rewrite Z2Nat.id in Hn by lia. exact Hn. }
  clear k Hk. induction n as [|n [IHl IHp]].
  - split; [reflexivity|]. intros p Hp. cbn [Nat.iter].
    destruct ((v <=? p) && (p <? v + len)) eqn:E; [|reflexivity].
    apply andb_prop in E as [E1 E2]. rewrite Z.add_0_r, Z.mod_small by lia.
    f_equal. lia.
  - rewrite Nat.iter_succ.
    destruct (rotate_step_spec (Nat.iter n (rotate_step v len) mem) v len)
      as [Hl Hp]; try lia.
    split; [lia|]. intros p Hp0. rewrite Hp by lia.
    destruct ((v <=? p) && (p <? v + len)) eqn:E; [|now rewrite IHp, E by lia].
    apply andb_prop in E as [E1 E2].
    pose proof (Z.mod_pos_bound (p - v + 1) len ltac:(lia)) as Hm.
    rewrite IHp by lia.
    replace ((v <=? v + (p - v + 1) mod len) && (v + (p - v + 1) mod len <? v + len))
      with true by (symmetry; apply andb_true_intro; split; lia).
    f_equal. f_equal.
    replace (v + (p - v + 1) mod len - v) with ((p - v + 1) mod len) by lia.
    rewrite Nat2Z.inj_succ, Zplus_mod_idemp_l. f_equal. lia.
Qed.

End RotateFacts.

Section ShiftFacts.
Context {F : Type} `{Float32 F}.

Local Notation "x .[ i ]" := (load (f32_of_int 0) x i) (at level 1, format "x .[ i ]").

Lemma length_complex_row (mem : list F) v len :
  length (complex_row mem v len) = Z.to_nat len.
Proof. unfold complex_row. now rewrite length_map, length_seq. Qed.

Lemma lookup_complex_row (mem : list F) v len j :
  (j < Z.to_nat len)%nat ->
  complex_row mem v len !! j
  = Some (mem.[2 * (v + Z.of_nat j)], mem.[2 * (v + Z.of_nat j) + 1]).
Proof.
  intros Hj. unfold complex_row.
  change (map ?f ?l) with (f <$> l). rewrite list_lookup_fmap, lookup_seq_lt by exact Hj.
  reflexivity.
Qed.

Lemma mod_pair a c len :
  0 < len -> 0 <= c < 2 -> (2 * a + c) mod (2 * len) = 2 * (a mod len) + c.
Proof.
  intros Hlen Hc. pose proof (Z.mod_pos_bound a len Hlen) as Hm.
  symmetry. apply (Z.mod_unique_pos _ _ (a / len)); [lia|].
  pose proof (Z.div_mod a len ltac:(lia)). lia.
Qed.

Lemma ifx_shift_cfft_f32_shifted (mem : list F) v len dim :
  0 <= v -> 0 < len -> 2 * len < 2 ^ 32 -> 0 <= dim ->
  2 * (v + len * dim) <= Z.of_nat (length mem) ->
  shifted mem v len (if len mod 2 =? 1 then len + 1 else len) dim
    (ifx_shift_cfft_f32 mem v len dim).
Proof.
  intros Hv Hlen Hfit32 Hdim Hfit. unfold ifx_shift_cfft_f32.
  set (K := if len mod 2 =? 1 then len + 1 else len).
  assert (HK : 0 <= K) by (subst K; destruct (len mod 2 =? 1); lia).
  assert (HKw : (if len mod 2 =? 1 then wrap32 (len + 1) else len) = K).
  { subst K. destruct (len mod 2 =? 1); [apply wrap32_small; lia|reflexivity]. }
  rewrite HKw, (wrap32_small (len * 2)) by lia.
  apply (for_loop_ind (fun k t => snd t = v + k * len /\ shifted mem v len K k (fst t))).
  - cbn. split; [lia|]. split; [reflexivity|]. split; [intros; lia|reflexivity].
  - intros k [m ptr] Hk [Hptr (Hl & Hrows & Hrest)]. cbn [fst snd] in *. subst ptr.
    assert (k * len + len <= len * dim) by nia.
    destruct (ifx_rotate_f32_spec m (2 * (v + k * len)) (len * 2) K) as [Hl' Hp];
      try lia.
    split; [lia|]. split; [lia|]. split.
    + intros row j Hrow Hj.
      assert (Hrl : row * len + len <= k * len + len) by nia.
      rewrite Hp by nia.
      destruct (Z.eq_dec row k) as [->|Hne].
      * replace ((2 * (v + k * len) <=? 2 * (v + k * len) + j)
                 && (2 * (v + k * len) + j <? 2 * (v + k * len) + len * 2))
          with true by (symmetry; apply andb_true_intro; split; lia).
        replace (2 * (v + k * len) + j - 2 * (v + k * len) + K) with (j + K) by lia.
        replace (len * 2) with (2 * len) by lia.
        pose proof (Z.mod_pos_bound (j + K) (2 * len) ltac:(lia)).
        apply Hrest; lia.
      * assert (row * len + len <= k * len) by nia.
        replace ((2 * (v + k * len) <=? 2 * (v + row * len) + j)
                 && (2 * (v + row * len) + j <? 2 * (v + k * len) + len * 2))
          with false by (symmetry; apply andb_false_intro1; lia).
        apply Hrows; lia.
    + intros p Hp0 Hout. rewrite Hp by lia.
      replace ((2 * (v + k * len) <=? p) && (p <? 2 * (v + k * len) + len * 2))
        with false.
      * apply Hrest; lia.
      * symmetry. destruct Hout; [apply andb_false_intro1|apply andb_false_intro2]; lia.
  - exact Hdim.
Qed.

End ShiftFacts.

(** C10. For [len > 0] complex elements per row (twice [len] fitting an
    unsigned 32 bit count) and [dim] rows inside the buffer,
    [ifx_shift_cfft_f32] turns every row to the left, by [len / 2] complex
    positions when [len] is even and by [(len + 1) / 2] when it is odd; each
    row keeps its elements, and nothing outside the rows changes. *)
Theorem shift_cfft_rotates_rows {F : Type} `{Float32 F} (mem : list F) (v len dim : Z) :
  0 <= v -> 0 < len -> 2 * len < 2 ^ 32 -> 0 <= dim ->
  2 * (v + len * dim) <= Z.of_nat (length mem) ->
  let r := ifx_shift_cfft_f32 mem v len dim in
  let s := if len mod 2 =? 1 then (len + 1) / 2 else len / 2 in
  length r = length mem /\
  (forall row, 0 <= row < dim ->
     complex_row r (v + row * len) len
     = rotate (Z.to_nat s) (complex_row mem (v + row * len) len) /\
     Permutation (complex_row r (v + row * len) len)
                 (complex_row mem (v + row * len) len)) /\
  (forall p, 0 <= p -> p < 2 * v \/ 2 * (v + dim * len) <= p ->
     load (f32_of_int 0) r p = load (f32_of_int 0) mem p).
Proof.
  intros Hv Hlen Hfit32 Hdim Hfit r s.
  destruct (ifx_shift_cfft_f32_shifted mem v len dim) as (Hl & Hrows & Hrest); try lia.
  fold r in Hl, Hrows, Hrest.
  set (K := if len mod 2 =? 1 then len + 1 else len) in *.
  assert (HK : K = 2 * s).
  { subst K s. destruct (len mod 2 =? 1) eqn:E.
    - apply Z.eqb_eq in E. pose proof (Z.div_mod len 2 ltac:(lia)).
      pose proof (Z.div_mod (len + 1) 2 ltac:(lia)).
      assert ((len + 1) mod 2 = 0).
      { rewrite Z.add_mod, E by lia. reflexivity. }
      lia.
    - apply Z.eqb_neq in E. pose proof (Z.div_mod len 2 ltac:(lia)).
      pose proof (Z.mod_pos_bound len 2 ltac:(lia)). lia. }
  assert (HK0 : 0 <= K) by (clear HK; subst K; destruct (len mod 2 =? 1); lia).
  assert (Hs : 0 <= s) by lia.
  split; [exact Hl|]. split; [|exact Hrest].
  intros row Hrow.
  assert (Heq : complex_row r (v + row * len) len
                = rotate (Z.to_nat s) (complex_row mem (v + row * len) len)).
  { apply list_eq. intros j.
    destruct (Nat.lt_ge_cases j (Z.to_nat len)) as [Hj|Hj].
    - rewrite lookup_complex_row, lookup_rotate_r by (rewrite ?length_complex_row; lia).
      rewrite length_complex_row. unfold rotate_nat_add.
      pose proof (Z.mod_pos_bound (Z.of_nat (Z.to_nat s) + Z.of_nat j)
                    (Z.of_nat (Z.to_nat len)) ltac:(lia)) as Hm.
      rewrite lookup_complex_row by lia.
      rewrite !Z2Nat.id in * by lia.
      f_equal. f_equal.
      + replace (2 * (v + row * len + Z.of_nat j))
          with (2 * (v + row * len) + (2 * Z.of_nat j + 0)) by lia.
        rewrite Hrows by lia.
        replace (2 * Z.of_nat j + 0 + K) with (2 * (s + Z.of_nat j) + 0) by lia.
        rewrite mod_pair by lia. f_equal. lia.
      + replace (2 * (v + row * len + Z.of_nat j) + 1)
          with (2 * (v + row * len) + (2 * Z.of_nat j + 1)) by lia.
        rewrite Hrows by lia.
        replace (2 * Z.of_nat j + 1 + K) with (2 * (s + Z.of_nat j) + 1) by lia.
        rewrite mod_pair by lia. f_equal. lia.
    - rewrite !lookup_ge_None_2; [reflexivity| |];
        rewrite ?length_rotate, length_complex_row; lia. }
  split; [exact Heq|]. rewrite Heq. unfold rotate.
  rewrite Permutation_app_comm, take_drop. reflexivity.
Qed.

(** ** The cached transform plans *)

Section PlanFacts.
Context {P : Type} (len_of : P -> Z) (init : P -> Z -> arm_status * P).

Lemma plan_for_hit plan n :
  len_of plan = n -> plan_for len_of init plan n = (ARM_MATH_SUCCESS, plan, []).
Proof. intros Hn. unfold plan_for. rewrite (proj2 (Z.eqb_eq _ _) Hn). reflexivity. Qed.

Lemma plan_for_miss plan n :
  len_of plan <> n ->
  plan_for len_of init plan n = (fst (init plan n), snd (init plan n), [n]).
Proof.
  intros Hn. unfold plan_for. rewrite (proj2 (Z.eqb_neq _ _) Hn). cbn [negb].
  destruct (init plan n); reflexivity.
Qed.

End PlanFacts.

(** Calls whose lengths go back and forth between two values miss the cache
    every time, if each miss leaves the requested length cached and logs it. *)
Lemma alternating_calls_miss {S C E : Type} (step : S -> C -> S) (len : C -> Z)
      (cached : S -> Z) (log : S -> list E) (mk : Z -> E) (a b : Z) :
  a <> b ->
  (forall s c, (len c = a \/ len c = b) -> cached s <> len c ->
     cached (step s c) = len c /\ log (step s c) = log s ++ [mk (len c)]) ->
  forall k calls s,
    map len calls = alternating a b k ->
    cached s <> a ->
    log (fold_left step calls s) = log s ++ map (fun c => mk (len c)) calls.
Proof.
  intros Hab Hmiss k. revert a b Hab Hmiss.
  induction k as [|k IH]; intros a b Hab Hmiss calls s Hlen Hs.
  - destruct calls; [|discriminate]. cbn. now rewrite app_nil_r.
  - destruct calls as [|c calls]; [discriminate|]. cbn in Hlen. injection Hlen as Hc Hrest.
    cbn [fold_left map]. destruct (Hmiss s c) as [Hcached Hlog]; [auto|congruence|].
    rewrite (IH b a) with (s := step s c); auto.
    + rewrite Hlog, <- app_assoc. reflexivity.
    + intros s' c' Hc'. apply Hmiss. tauto.
    + congruence.
Qed.

Section CacheFacts.
Context {F : Type} `{Float32 F} `{ArmBasicMath F} `{ArmTransform F} `{ArmMatrix F}.

Lemma statics_eta (st : statics) :
  {| range_fft_rfft := range_fft_rfft st;
     range_cfft_cfft := range_cfft_cfft st;
     doppler_cfft_cfft := doppler_cfft_cfft st;
     plan_inits := plan_inits st ++ [] |} = st.
Proof. destruct st; cbn. now rewrite app_nil_r. Qed.

(** The status and the statics of a call only depend on the opening block. *)
Lemma range_fft_plan st frame range mr win n rows :
  let '(status, rfft, inits) :=
    plan_for fftLenRFFT arm_rfft_fast_init_f32 (range_fft_rfft st) n in
  let '(result, st', _, _) := ifx_range_fft_f32 st frame range mr win n rows in
  result = (if arm_status_eqb status ARM_MATH_SUCCESS
            then IFX_SENSOR_DSP_STATUS_OK else IFX_SENSOR_DSP_ARGUMENT_ERROR) /\
  st' = {| range_fft_rfft := rfft;
           range_cfft_cfft := range_cfft_cfft st;
           doppler_cfft_cfft := doppler_cfft_cfft st;
           plan_inits := plan_inits st ++ map Rfft_init inits |}.
Proof.
  unfold ifx_range_fft_f32.
  destruct (plan_for _ _ _ _) as [[status rfft] inits].
  destruct (arm_status_eqb status ARM_MATH_SUCCESS); cbn [negb].
  - destruct (for_loop _ _ _) as [[[? ?] ?] ?]. split; reflexivity.
  - split; reflexivity.
Qed.

Lemma range_cfft_plan st frame mr win n rows :
  let '(status, cfft, inits) :=
    plan_for fftLen arm_cfft_init_f32 (range_cfft_cfft st) n in
  let '(result, st', _) := ifx_range_cfft_f32 st frame mr win n rows in
  result = (if arm_status_eqb status ARM_MATH_SUCCESS
            then IFX_SENSOR_DSP_STATUS_OK else IFX_SENSOR_DSP_ARGUMENT_ERROR) /\
  st' = {| range_fft_rfft := range_fft_rfft st;
           range_cfft_cfft := cfft;
           doppler_cfft_cfft := doppler_cfft_cfft st;
           plan_inits := plan_inits st ++ map Cfft_init inits |}.
Proof.
  unfold ifx_range_cfft_f32.
  destruct (plan_for _ _ _ _) as [[status cfft] inits].
  destruct (arm_status_eqb status ARM_MATH_SUCCESS); cbn [negb].
  - destruct (for_loop _ _ _) as [? ?]. split; reflexivity.
  - split; reflexivity.
Qed.

Lemma doppler_cfft_plan st range doppler mr win rows n :
  let '(status, cfft, inits) :=
    plan_for fftLen arm_cfft_init_f32 (doppler_cfft_cfft st) n in
  let '(result, st', _) := ifx_doppler_cfft_f32 st range doppler mr win rows n in
  result = (if arm_status_eqb status ARM_MATH_SUCCESS
            then IFX_SENSOR_DSP_STATUS_OK else IFX_SENSOR_DSP_ARGUMENT_ERROR) /\
  st' = {| range_fft_rfft := range_fft_rfft st;
           range_cfft_cfft := range_cfft_cfft st;
           doppler_cfft_cfft := cfft;
           plan_inits := plan_inits st ++ map Cfft_init inits |}.
Proof.
  unfold ifx_doppler_cfft_f32.
  destruct (plan_for _ _ _ _) as [[status cfft] inits].
  destruct (arm_status_eqb status ARM_MATH_SUCCESS); cbn [negb].
  - destruct (for_loop _ _ _) as [? ?]. split; reflexivity.
  - split; reflexivity.
Qed.

End CacheFacts.

Section CacheAlternation.
Context {F : Type} `{Float32 F} `{ArmBasicMath F} `{ArmTransform F} `{ArmMatrix F}.

Lemma range_fft_calls_alternating (st : statics) calls a b k :
  a <> b -> map c_len calls = alternating a b k ->
  supports fftLenRFFT arm_rfft_fast_init_f32 a ->
  supports fftLenRFFT arm_rfft_fast_init_f32 b ->
  fftLenRFFT (range_fft_rfft st) <> a ->
  plan_inits (range_fft_calls st calls)
  = plan_inits st ++ map (fun c => Rfft_init (c_len c)) calls.
Proof.
  intros Hab Hlen Ha Hb Hst. unfold range_fft_calls.
  apply (alternating_calls_miss _ c_len (fun st => fftLenRFFT (range_fft_rfft st))
           plan_inits Rfft_init a b Hab) with (k := k); auto.
  intros s c Hc Hmiss.
  pose proof (range_fft_plan s (c_in c) (c_out c) (c_mean_removal c) (c_win c)
                (c_len c) (c_rows c)) as Hp.
  rewrite plan_for_miss in Hp by exact Hmiss.
  destruct (ifx_range_fft_f32 _ _ _ _ _ _ _) as [[[r st'] ?] ?]. destruct Hp as [_ ->].
  cbn. split; [|reflexivity]. destruct Hc as [->| ->]; [apply Ha|apply Hb].
Qed.

Lemma range_cfft_calls_alternating (st : statics) calls a b k :
  a <> b -> map c_len calls = alternating a b k ->
  supports fftLen arm_cfft_init_f32 a ->
  supports fftLen arm_cfft_init_f32 b ->
  fftLen (range_cfft_cfft st) <> a ->
  plan_inits (range_cfft_calls st calls)
  = plan_inits st ++ map (fun c => Cfft_init (c_len c)) calls.
Proof.
  intros Hab Hlen Ha Hb Hst. unfold range_cfft_calls.
  apply (alternating_calls_miss _ c_len (fun st => fftLen (range_cfft_cfft st))
           plan_inits Cfft_init a b Hab) with (k := k); auto.
  intros s c Hc Hmiss.
  pose proof (range_cfft_plan s (c_in c) (c_mean_removal c) (c_win c)
                (c_len c) (c_rows c)) as Hp.
  rewrite plan_for_miss in Hp by exact Hmiss.
  destruct (ifx_range_cfft_f32 _ _ _ _ _ _) as [[r st'] ?]. destruct Hp as [_ ->].
  cbn. split; [|reflexivity]. destruct Hc as [->| ->]; [apply Ha|apply Hb].
Qed.

Lemma doppler_cfft_calls_alternating (st : statics) calls a b k :
  a <> b -> map c_len calls = alternating a b k ->
  supports fftLen arm_cfft_init_f32 a ->
  supports fftLen arm_cfft_init_f32 b ->
  fftLen (doppler_cfft_cfft st) <> a ->
  plan_inits (doppler_cfft_calls st calls)
  = plan_inits st ++ map (fun c => Cfft_init (c_len c)) calls.
Proof.
  intros Hab Hlen Ha Hb Hst. unfold doppler_cfft_calls.
  apply (alternating_calls_miss _ c_len (fun st => fftLen (doppler_cfft_cfft st))
           plan_inits Cfft_init a b Hab) with (k := k); auto.
  intros s c Hc Hmiss.
  pose proof (doppler_cfft_plan s (c_in c) (c_out c) (c_mean_removal c) (c_win c)
                (c_rows c) (c_len c)) as Hp.
  rewrite plan_for_miss in Hp by exact Hmiss.
  destruct (ifx_doppler_cfft_f32 _ _ _ _ _ _ _) as [[r st'] ?]. destruct Hp as [_ ->].
  cbn. split; [|reflexivity]. destruct Hc as [->| ->]; [apply Ha|apply Hb].
Qed.

End CacheAlternation.

(** C4. Each entry point holds one plan in its static variable.  A call
    whose length is the cached one leaves the statics as they are and asks
    the backend for no plan; a call with another length replaces that plan
    by the one the backend builds and logs one initialisation.  When the
    backend supports two different lengths [a] and [b], a run of calls that
    alternates between them logs one initialisation per call. *)
Theorem plan_cache_single_slot {F : Type} `{Float32 F} `{ArmBasicMath F}
        `{ArmTransform F} `{ArmMatrix F}
        (st : statics) (c : fft_call) (calls : list fft_call) (a b : Z) (k : nat) :
  (let '(result, st', _, _) :=
     ifx_range_fft_f32 st (c_in c) (c_out c) (c_mean_removal c) (c_win c)
       (c_len c) (c_rows c) in
   (fftLenRFFT (range_fft_rfft st) = c_len c ->
    result = IFX_SENSOR_DSP_STATUS_OK /\ st' = st) /\
   (fftLenRFFT (range_fft_rfft st) <> c_len c ->
    st' = {| range_fft_rfft := snd (arm_rfft_fast_init_f32 (range_fft_rfft st) (c_len c));
             range_cfft_cfft := range_cfft_cfft st;
             doppler_cfft_cfft := doppler_cfft_cfft st;
             plan_inits := plan_inits st ++ [Rfft_init (c_len c)] |})) /\
  (let '(result, st', _) :=
     ifx_range_cfft_f32 st (c_in c) (c_mean_removal c) (c_win c) (c_len c) (c_rows c) in
   (fftLen (range_cfft_cfft st) = c_len c ->
    result = IFX_SENSOR_DSP_STATUS_OK /\ st' = st) /\
   (fftLen (range_cfft_cfft st) <> c_len c ->
    st' = {| range_fft_rfft := range_fft_rfft st;
             range_cfft_cfft := snd (arm_cfft_init_f32 (range_cfft_cfft st) (c_len c));
             doppler_cfft_cfft := doppler_cfft_cfft st;
             plan_inits := plan_inits st ++ [Cfft_init (c_len c)] |})) /\
  (let '(result, st', _) :=
     ifx_doppler_cfft_f32 st (c_in c) (c_out c) (c_mean_removal c) (c_win c)
       (c_rows c) (c_len c) in
   (fftLen (doppler_cfft_cfft st) = c_len c ->
    result = IFX_SENSOR_DSP_STATUS_OK /\ st' = st) /\
   (fftLen (doppler_cfft_cfft st) <> c_len c ->
    st' = {| range_fft_rfft := range_fft_rfft st;
             range_cfft_cfft := range_cfft_cfft st;
             doppler_cfft_cfft := snd (arm_cfft_init_f32 (doppler_cfft_cfft st) (c_len c));
             plan_inits := plan_inits st ++ [Cfft_init (c_len c)] |})) /\
  (a <> b -> map c_len calls = alternating a b k ->
   (supports fftLenRFFT arm_rfft_fast_init_f32 a ->
    supports fftLenRFFT arm_rfft_fast_init_f32 b ->
    fftLenRFFT (range_fft_rfft st) <> a ->
    plan_inits (range_fft_calls st calls)
    = plan_inits st ++ map (fun c => Rfft_init (c_len c)) calls) /\
   (supports fftLen arm_cfft_init_f32 a ->
    supports fftLen arm_cfft_init_f32 b ->
    (fftLen (range_cfft_cfft st) <> a ->
     plan_inits (range_cfft_calls st calls)
     = plan_inits st ++ map (fun c => Cfft_init (c_len c)) calls) /\
    (fftLen (doppler_cfft_cfft st) <> a ->
     plan_inits (doppler_cfft_calls st calls)
     = plan_inits st ++ map (fun c => Cfft_init (c_len c)) calls))).
Proof.
  split; [|split; [|split]].
  - pose proof (range_fft_plan st (c_in c) (c_out c) (c_mean_removal c) (c_win c)
                  (c_len c) (c_rows c)) as Hp.
    destruct (ifx_range_fft_f32 _ _ _ _ _ _ _) as [[[r st'] ?] ?]. split; intros Hn.
    + rewrite plan_for_hit in Hp by exact Hn. destruct Hp as [-> ->].
      split; [reflexivity|exact (statics_eta st)].
    + rewrite plan_for_miss in Hp by exact Hn. apply Hp.
  - pose proof (range_cfft_plan st (c_in c) (c_mean_removal c) (c_win c)
                  (c_len c) (c_rows c)) as Hp.
    destruct (ifx_range_cfft_f32 _ _ _ _ _ _) as [[r st'] ?]. split; intros Hn.
    + rewrite plan_for_hit in Hp by exact Hn. destruct Hp as [-> ->].
      split; [reflexivity|exact (statics_eta st)].
    + rewrite plan_for_miss in Hp by exact Hn. apply Hp.
  - pose proof (doppler_cfft_plan st (c_in c) (c_out c) (c_mean_removal c) (c_win c)
                  (c_rows c) (c_len c)) as Hp.
    destruct (ifx_doppler_cfft_f32 _ _ _ _ _ _ _) as [[r st'] ?]. split; intros Hn.
    + rewrite plan_for_hit in Hp by exact Hn. destruct Hp as [-> ->].
      split; [reflexivity|exact (statics_eta st)].
    + rewrite plan_for_miss in Hp by exact Hn. apply Hp.
  - intros Hab Hlen. split.
    + intros. apply (range_fft_calls_alternating st calls a b k); assumption.
    + intros Ha Hb. split; intros.
      * apply (range_cfft_calls_alternating st calls a b k); assumption.
      * apply (doppler_cfft_calls_alternating st calls a b k); assumption.
Qed.

(** ** Digital beamforming *)

(** C7. [ifx_angle_dbf_f32] stops at an assertion, before the backend is
    called, exactly when one of the three equalities between the shapes of
    steering, input and output matrix fails; when all three hold the result
    is the product the backend computes. *)
Theorem angle_dbf_rejects_shape_mismatch {F : Type} `{ArmMatrix F}
        (pInput pSteering pOutput : arm_matrix_instance_f32 F) :
  (ifx_angle_dbf_f32 pInput pSteering pOutput = AssertionFailed <->
   ~ (numCols pSteering = numRows pInput /\
      numCols pInput = numCols pOutput /\
      numRows pSteering = numRows pOutput)) /\
  (numCols pSteering = numRows pInput /\
   numCols pInput = numCols pOutput /\
   numRows pSteering = numRows pOutput ->
   ifx_angle_dbf_f32 pInput pSteering pOutput
   = Done (arm_mat_cmplx_mult_f32 pSteering pInput pOutput)).
Proof.
  unfold ifx_angle_dbf_f32.
  destruct (numCols pSteering =? numRows pInput) eqn:E1;
    [apply Z.eqb_eq in E1|apply Z.eqb_neq in E1]; cbn [negb];
    [|split; [split; [tauto|reflexivity]|tauto]].
  destruct (numCols pInput =? numCols pOutput) eqn:E2;
    [apply Z.eqb_eq in E2|apply Z.eqb_neq in E2]; cbn [negb];
    [|split; [split; [tauto|reflexivity]|tauto]].
  destruct (numRows pSteering =? numRows pOutput) eqn:E3;
    [apply Z.eqb_eq in E3|apply Z.eqb_neq in E3]; cbn [negb];
    [|split; [split; [tauto|reflexivity]|tauto]].
  split; [split; [discriminate|tauto]|reflexivity].
Qed.

(** ** Range FFT *)

Section BlitFacts.
Context {A : Type}.

Lemma length_blit (m : list A) off n data : length (blit m off n data) = length m.
Proof. apply length_inserts. Qed.

Lemma load_blit (d : A) (m : list A) off n data p :
  0 <= off -> 0 <= p ->
  load d (blit m off n data) p
  = if (off <=? p) && (p <? off + Z.min n (Z.of_nat (length data)))
       && (p <? Z.of_nat (length m))
    then load d data (p - off) else load d m p.
Proof.
  intros Hoff Hp. unfold load, blit. rewrite !nth_lookup.
  assert (Hlt : length (take (Z.to_nat n) data)
                = Z.to_nat (Z.min n (Z.of_nat (length data)))).
  { rewrite length_take. lia. }
  destruct (off <=? p) eqn:E1; cbn [andb].
  - apply Z.leb_le in E1.
    destruct (p <? off + Z.min n (Z.of_nat (length data))) eqn:E2; cbn [andb].
    + apply Z.ltb_lt in E2.
      destruct (p <? Z.of_nat (length m)) eqn:E3.
      * apply Z.ltb_lt in E3. rewrite list_lookup_inserts by lia.
        rewrite lookup_take_lt by lia. f_equal. f_equal. lia.
      * apply Z.ltb_ge in E3.
        rewrite !lookup_ge_None_2; [reflexivity|lia|rewrite length_inserts; lia].
    + apply Z.ltb_ge in E2. rewrite list_lookup_inserts_ge by lia. reflexivity.
  - apply Z.leb_gt in E1. rewrite list_lookup_inserts_lt by lia. reflexivity.
Qed.

End BlitFacts.

Section RangeFFTFacts.
Context {F : Type} `{Float32 F} `{ArmBasicMath F} `{ArmTransform F}.

Local Notation "x .[ i ]" := (load (f32_of_int 0) x i) (at level 1, format "x .[ i ]").

Lemma length_slice {A} (mem : list A) off n :
  0 <= off -> 0 <= n -> off + n <= Z.of_nat (length mem) ->
  Z.of_nat (length (slice mem off n)) = n.
Proof. intros Hoff Hn Hfit. unfold slice. rewrite length_take, length_drop. lia. Qed.

Lemma range_fft_chirp_rows rfft mr win n rows frame range :
  2 <= n -> 0 <= rows ->
  n * rows <= Z.of_nat (length frame) ->
  2 * (n / 2) * rows <= Z.of_nat (length range) ->
  (forall input, Z.of_nat (length input) = n ->
                 Z.of_nat (length (snd (arm_rfft_fast_f32 rfft input))) = n) ->
  let '(_, range_mem, _, _) :=
    for_loop rows (fun _ => range_fft_chirp rfft mr win n) (frame, range, 0, 0) in
  rows_written rfft n range rows range_mem.
Proof.
  intros Hn Hrows Hframe Hcap Hback.
  pose proof (Z.div_mod n 2 ltac:(lia)) as Hdm.
  pose proof (Z.mod_pos_bound n 2 ltac:(lia)) as Hmb.
  assert (Hh : 1 <= n / 2) by lia.
  cut (let t := for_loop rows (fun _ => range_fft_chirp rfft mr win n) (frame, range, 0, 0) in
       (snd (fst t) = rows * n /\ length (fst (fst (fst t))) = length frame /\
        snd t = rows * (n / 2)) /\
       rows_written rfft n range rows (snd (fst (fst t)))).
  { cbv zeta. destruct (for_loop _ _ _) as [[[? ?] ?] ?]. cbn. tauto. }
  cbv zeta.
  apply (for_loop_ind (fun k t =>
           (snd (fst t) = k * n /\ length (fst (fst (fst t))) = length frame /\
            snd t = k * (n / 2)) /\
           rows_written rfft n range k (snd (fst (fst t))))).
  - cbn. split; [repeat split; lia|]. split; [reflexivity|]. split; [|reflexivity].
    exists (fun _ => []). intros; lia.
  - intros k [[[fm rm] fptr] rptr] Hk [(Hfptr & Hfl & Hptr) (Hl & [cin Hcin] & Hrest)].
    cbn [fst snd] in *. subst rptr fptr. unfold range_fft_chirp.
    assert (Hkn : 0 <= k * n /\ k * n + n <= n * rows) by nia.
    match goal with
    | |- context [arm_rfft_fast_f32 rfft (slice ?M _ _)] =>
        assert (Hfl2 : length M = length frame)
    end.
    { destruct win; destruct mr; unfold ifx_mean_removal_f32;
        rewrite ?length_blit; exact Hfl. }
    match goal with
    | |- context [arm_rfft_fast_f32 rfft ?X] =>
        set (x := X);
        assert (Hlen : Z.of_nat (length (snd (arm_rfft_fast_f32 rfft x))) = n)
          by (apply Hback; subst x; apply length_slice; lia);
        destruct (arm_rfft_fast_f32 rfft x) as [src dst] eqn:Efft
    end.
    cbn [fst snd] in *.
    assert (Hkr : k * (n / 2) + n / 2 <= (n / 2) * rows) by nia.
    assert (Hk0 : 0 <= k * (n / 2)) by nia.
    set (rm1 := blit rm (2 * (k * (n / 2))) n dst).
    assert (Hrm1 : forall p, 0 <= p ->
              rm1.[p] = if (2 * (k * (n / 2)) <=? p) && (p <? 2 * (k * (n / 2)) + n)
                           && (p <? Z.of_nat (length rm))
                        then dst.[p - 2 * (k * (n / 2))] else rm.[p]).
    { intros p Hp. subst rm1. rewrite load_blit by lia.
      rewrite Hlen, Z.min_id. reflexivity. }
    assert (Hl1 : length rm1 = length range) by (subst rm1; now rewrite length_blit).
    split; [split; [lia|split; [now rewrite length_blit|lia]]|].
    split; [now rewrite length_store|]. split.
    + exists (fun j => if j =? k then x else cin j). intros j Hj.
      destruct (Z.eq_dec j k) as [->|Hne].
      * rewrite Z.eqb_refl, Efft. cbn [snd]. split.
        -- apply load_store_eq. lia.
        -- intros p Hp Hp1. rewrite load_store_ne by lia. rewrite Hrm1 by lia.
           replace ((2 * (k * (n / 2)) <=? 2 * (k * (n / 2)) + p)
                    && (2 * (k * (n / 2)) + p <? 2 * (k * (n / 2)) + n)
                    && (2 * (k * (n / 2)) + p <? Z.of_nat (length rm))) with true.
           ++ f_equal. lia.
           ++ symmetry. repeat (apply andb_true_intro; split); lia.
      * rewrite (proj2 (Z.eqb_neq j k) Hne).
        assert (Hjk : j * (n / 2) + n / 2 <= k * (n / 2)) by nia.
        assert (Hj0 : 0 <= j * (n / 2)) by nia.
        destruct (Hcin j ltac:(lia)) as [Hz Hrow]. split.
        -- rewrite load_store_ne by lia. rewrite Hrm1 by lia.
           replace (2 * (k * (n / 2)) <=? 2 * (j * (n / 2)) + 1) with false
             by (symmetry; apply Z.leb_gt; lia).
           exact Hz.
        -- intros p Hp Hp1. rewrite load_store_ne by lia. rewrite Hrm1 by lia.
           replace (2 * (k * (n / 2)) <=? 2 * (j * (n / 2)) + p) with false
             by (symmetry; apply Z.leb_gt; lia).
           now apply Hrow.
    + intros p Hp. rewrite load_store_ne by lia. rewrite Hrm1 by lia.
      replace (p <? 2 * (k * (n / 2)) + n) with false by (symmetry; apply Z.ltb_ge; lia).
      rewrite andb_false_r. apply Hrest. lia.
  - exact Hrows.
Qed.

End RangeFFTFacts.

(** C6. When [ifx_range_fft_f32] returns the success code for a frame of
    [rows] chirps of [n >= 2] samples, with a backend transform that turns
    [n] floats into [n] floats and an output of at least [rows * (n / 2)]
    complex cells: row [k] of the
    output starts at complex offset [k * (n / 2)] and holds [n / 2] complex
    bins of the backend's transform of that chirp, except that the imaginary
    part of bin 0 is 0.0f whatever the backend left there; the output above
    the rows is untouched. *)
Theorem range_fft_rows_and_dc {F : Type} `{Float32 F} `{ArmBasicMath F}
        `{ArmTransform F} `{ArmMatrix F}
        (st : statics) (frame range : list F) (mean_removal : bool)
        (win : option (list F)) (n rows : Z) :
  2 <= n -> 0 <= rows ->
  n * rows <= Z.of_nat (length frame) ->
  2 * (n / 2) * rows <= Z.of_nat (length range) ->
  (forall plan input, Z.of_nat (length input) = n ->
     Z.of_nat (length (snd (arm_rfft_fast_f32 plan input))) = n) ->
  let '(result, st', _, range') :=
    ifx_range_fft_f32 st frame range mean_removal win n rows in
  result = IFX_SENSOR_DSP_STATUS_OK ->
  length range' = length range /\
  (exists chirp_in : Z -> list F, forall k, 0 <= k < rows ->
     load (f32_of_int 0) range' (2 * (k * (n / 2)) + 1) = f32_lit 0 1 /\
     forall p, 0 <= p < 2 * (n / 2) -> p <> 1 ->
       load (f32_of_int 0) range' (2 * (k * (n / 2)) + p)
       = load (f32_of_int 0)
           (snd (arm_rfft_fast_f32 (range_fft_rfft st') (chirp_in k))) p) /\
  (forall p, 2 * (n / 2) * rows + n mod 2 <= p ->
     load (f32_of_int 0) range' p = load (f32_of_int 0) range p).
Proof.
  intros Hn Hrows Hframe Hcap Hback. unfold ifx_range_fft_f32.
  destruct (plan_for _ _ _ _) as [[status rfft] inits].
  destruct (arm_status_eqb status ARM_MATH_SUCCESS); cbn [negb]; [|discriminate].
  pose proof (range_fft_chirp_rows rfft mean_removal win n rows frame range
                Hn Hrows Hframe Hcap (Hback rfft)) as Hloop.
  destruct (for_loop _ _ _) as [[[fm rm] ?] ?]. intros _. exact Hloop.
Qed.

(** ** Windows *)

Section WindowFacts.

Local Notation "x .[ i ]" := (load (f32_of_int 0) x i) (at level 1, format "x .[ i ]").

(** A loop that stores [g n] in cell [n] leaves [g i] in cell [i]. *)
Lemma window_fill {F : Type} `{Float32 F} (g : Z -> F) (win : list F) len i :
  len <= Z.of_nat (length win) -> 0 <= i < len ->
  (for_loop len (fun n win => store win n (g n)) win).[i] = g i.
Proof.
  intros Hlen Hi.
  destruct (for_loop_store_0 (f32_of_int 0) (fun n _ => g n) len win) as [_ Hp];
    try lia; [reflexivity|].
  rewrite Hp by lia. replace (i <? len) with true by (symmetry; apply Z.ltb_lt; lia).
  reflexivity.
Qed.

Lemma cos_sym (k : nat) (x y : R) : (x + y = 2 * INR k * Rtrigo1.PI)%R -> cos x = cos y.
Proof.
  intros Hxy. replace x with (- y + 2 * INR k * Rtrigo1.PI)%R by lra.
  rewrite cos_period. apply cos_neg.
Qed.

(** The phase of sample [len - 1 - i] mirrors that of sample [i]. *)
Lemma window_phase_sym (k : nat) (len i : Z) :
  1 < len ->
  cos (f32_lit (2 * Z.of_nat k) 1 * f32_PI * f32_of_int (len - 1 - i)
       * (f32_lit 1 1 / (f32_of_int len - f32_lit 1 1)))%f32
  = cos (f32_lit (2 * Z.of_nat k) 1 * f32_PI * f32_of_int i
         * (f32_lit 1 1 / (f32_of_int len - f32_lit 1 1)))%f32.
Proof.
  intros Hlen. apply (cos_sym k). cbn [f32_lit f32_PI f32_of_int f32_mul f32_div f32_sub exact].
  rewrite !minus_IZR, mult_IZR, <- INR_IZR_INZ.
  assert (IZR len - 1 <> 0)%R.
  { apply Rgt_not_eq. apply IZR_lt in Hlen. lra. }
  field. lra.
Qed.

End WindowFacts.

(** In exact arithmetic, with the cosine of the reals as the backend:
    for every length [len > 1] and every index [i], each of the four
    generated windows (Hamming, Blackman-Harris, Hann, Blackman) has the
    same coefficient at [i] and at [len - 1 - i]. *)
Lemma window_symmetry_exact (win : list R) (len i : Z) :
  1 < len -> len <= Z.of_nat (length win) -> 0 <= i < len ->
  (exists w, ifx_window_hamming_f32 (Some win) len = Done w /\
     load (f32_of_int 0) w i = load (f32_of_int 0) w (len - 1 - i)) /\
  (exists w, ifx_window_blackmanharris_f32 (Some win) len = Done w /\
     load (f32_of_int 0) w i = load (f32_of_int 0) w (len - 1 - i)) /\
  (exists w, ifx_window_hann_f32 (Some win) len = Done w /\
     load (f32_of_int 0) w i = load (f32_of_int 0) w (len - 1 - i)) /\
  (exists w, ifx_window_blackman_f32 (Some win) len = Done w /\
     load (f32_of_int 0) w i = load (f32_of_int 0) w (len - 1 - i)).
Proof.
  intros Hlen Hwin Hi.
  unfold ifx_window_hamming_f32, ifx_window_blackmanharris_f32,
    ifx_window_hann_f32, ifx_window_blackman_f32.
  rewrite (proj2 (Z.ltb_lt 1 len) Hlen). cbn [negb].
  pose proof (window_phase_sym 1 len i Hlen) as H1.
  pose proof (window_phase_sym 2 len i Hlen) as H2.
  pose proof (window_phase_sym 3 len i Hlen) as H3.
  change (2 * Z.of_nat 1) with 2 in H1.
  change (2 * Z.of_nat 2) with 4 in H2.
  change (2 * Z.of_nat 3) with 6 in H3.
  repeat split; (eexists; split; [reflexivity|]);
    rewrite !window_fill by lia; cbn [arm_cos_f32 exact_trig];
    rewrite ?H1, ?H2, ?H3; reflexivity.
Qed.

(** C8, as amended.  In every arithmetic and with every cosine, single
    precision included, for [len > 1] and [i < len] each generator leaves in
    cell [i] the value of its formula at the phase
    [2 PI i (1 / (len - 1))] and its multiples, each operation being that of
    the arithmetic.  In exact arithmetic, with the cosine of the reals, the
    coefficients at [i] and at [len - 1 - i] are equal. *)
Theorem window_formula_and_exact_symmetry :
  (forall (F : Type) (arith : Float32 F) (trig : ArmTrig F) (win : list F) (len i : Z),
     1 < len -> len <= Z.of_nat (length win) -> 0 <= i < len ->
     let phase k :=
       (f32_lit k 1 * f32_PI * f32_of_int i
        * (f32_lit 1 1 / (f32_of_int len - f32_lit 1 1)))%f32 in
     (exists w, ifx_window_hamming_f32 (Some win) len = Done w /\
        load (f32_of_int 0) w i
        = (f32_lit 54 100 - f32_lit 46 100 * arm_cos_f32 (phase 2))%f32) /\
     (exists w, ifx_window_blackmanharris_f32 (Some win) len = Done w /\
        load (f32_of_int 0) w i
        = (BLACKMANHARRIS_CONST_A0
           - BLACKMANHARRIS_CONST_A1 * arm_cos_f32 (phase 2)
           + BLACKMANHARRIS_CONST_A2 * arm_cos_f32 (phase 4)
           - BLACKMANHARRIS_CONST_A3 * arm_cos_f32 (phase 6))%f32) /\
     (exists w, ifx_window_hann_f32 (Some win) len = Done w /\
        load (f32_of_int 0) w i
        = (f32_lit 5 10 * (f32_lit 1 1 - arm_cos_f32 (phase 2)))%f32) /\
     (exists w, ifx_window_blackman_f32 (Some win) len = Done w /\
        load (f32_of_int 0) w i
        = (f32_lit 42 100 - f32_lit 5 10 * arm_cos_f32 (phase 2)
           + f32_lit 8 100 * arm_cos_f32 (phase 4))%f32)) /\
  (forall (win : list R) (len i : Z),
     1 < len -> len <= Z.of_nat (length win) -> 0 <= i < len ->
     (exists w, ifx_window_hamming_f32 (Some win) len = Done w /\
        load 0%R w i = load 0%R w (len - 1 - i)) /\
     (exists w, ifx_window_blackmanharris_f32 (Some win) len = Done w /\
        load 0%R w i = load 0%R w (len - 1 - i)) /\
     (exists w, ifx_window_hann_f32 (Some win) len = Done w /\
        load 0%R w i = load 0%R w (len - 1 - i)) /\
     (exists w, ifx_window_blackman_f32 (Some win) len = Done w /\
        load 0%R w i = load 0%R w (len - 1 - i))).
Proof.
  split.
  - intros F arith trig win len i Hlen Hwin Hi phase. subst phase.
    unfold ifx_window_hamming_f32, ifx_window_blackmanharris_f32,
      ifx_window_hann_f32, ifx_window_blackman_f32.
    rewrite (proj2 (Z.ltb_lt 1 len) Hlen). cbn [negb].
    repeat split; (eexists; split; [reflexivity|]);
      rewrite window_fill by lia; reflexivity.
  - intros win len i Hlen Hwin Hi.
    exact (window_symmetry_exact win len i Hlen Hwin Hi).
Qed.

(** C8, the claim as stated fails in single precision: the phases at [i]
    and at [len - 1 - i] are rounded separately.  With a cosine that is
    correctly rounded at both, the Hamming window of length 4 holds
    [12918457 * 2^-24] in cell 1 and [12918456 * 2^-24] in cell 2. *)
Lemma window_hamming_binary32_asymmetric :
  exists w,
    @ifx_window_hamming_f32 spec_float binary32 series_trig
      (Some (repeat (S754_zero false) 4)) 4 = Done w /\
    load (f32_of_int 0) w 1 = S754_finite false 12918457 (-24) /\
    load (f32_of_int 0) w (4 - 1 - 1) = S754_finite false 12918456 (-24) /\
    load (f32_of_int 0) w 1 <> load (f32_of_int 0) w (4 - 1 - 1).
Proof.
  eexists. split; [vm_compute; reflexivity|].
  split; [reflexivity|]. split; [reflexivity|]. discriminate.
Qed.


(** ** Monopulse *)

Lemma or_status_0 (st : Z) (s : arm_status) :
  or_status st s = 0 <-> st = 0 /\ s = ARM_MATH_SUCCESS.
Proof.
  unfold or_status. rewrite Z.lor_eq_0_iff.
  split; intros [Hst Hs]; (split; [exact Hst|]).
  - destruct s; [reflexivity|vm_compute in Hs; discriminate..].
  - subst s. reflexivity.
Qed.

Section MonopulseFacts.
Context `{B : ArmFastMath R}.

Lemma ifx_arcsin_f32_zero (result : R) :
  arcsin_backend_ok -> ifx_arcsin_f32 0%R result = (ARM_MATH_SUCCESS, 0%R).
Proof.
  intros [Hsqrt Hatan]. unfold ifx_arcsin_f32.
  cbn [f32_leb f32_lit f32_neg f32_sub f32_mul exact] in *.
  destruct (Rle_dec (1 / 1) 0); [lra|].
  destruct (Rle_dec 0 (- (1 / 1))); [lra|].
  replace (1 / 1 - 0 * 0)%R with 1%R by lra.
  destruct (arm_sqrt_f32 1%R) as [st oy]. cbn [fst snd] in *. subst st.
  cbn [arm_status_eqb arm_status_value Z.eqb]. rewrite Hatan. reflexivity.
Qed.

(** One sample with equal inputs: both phases stay equal, the angle
    written is 0, and the status collects that of the two arctangents. *)
Lemma monopulse_step_equal rx1 rx2 TWO_PI ratio i s :
  arcsin_backend_ok ->
  load (f32_lit 0 1, f32_lit 0 1) rx1 i = load (f32_lit 0 1, f32_lit 0 1) rx2 i ->
  l_rx1_ang s = l_rx2_ang s ->
  let c := load (f32_lit 0 1, f32_lit 0 1) rx1 i in
  let si := fst (arm_atan2_f32 (snd c) (fst c)) in
  let s' := monopulse_step rx1 rx2 TWO_PI ratio i s in
  l_rx1_ang s' = l_rx2_ang s' /\
  l_status s' = or_status (or_status (or_status (l_status s) si) si) ARM_MATH_SUCCESS /\
  l_angle s' = store (l_angle s) i 0%R.
Proof.
  intros Hok Hrx Hang c si s'. subst s' si c. unfold monopulse_step.
  rewrite <- Hrx, <- Hang.
  destruct (arm_atan2_f32 _ _) as [s1 a1]. cbn [fst snd].
  cbn [f32_leb f32_ltb f32_neg f32_sub f32_add f32_mul f32_PI exact].
  replace (default (l_rx1_ang s) a1 - default (l_rx1_ang s) a1)%R with 0%R by ring.
  pose proof PI_RGT_0 as Hpi.
  destruct (Rle_dec 0 (- Rtrigo1.PI)); [lra|].
  destruct (Rlt_dec Rtrigo1.PI 0); [lra|].
  replace (0 * ratio)%R with 0%R by ring.
  rewrite ifx_arcsin_f32_zero by exact Hok. cbn [l_rx1_ang l_rx2_ang l_status l_angle].
  auto.
Qed.

(** The whole loop on equal inputs. *)
Lemma monopulse_loop_equal rx1 rx2 TWO_PI ratio size angle :
  arcsin_backend_ok ->
  0 <= size <= Z.of_nat (length angle) ->
  (forall i, 0 <= i < size ->
     load (f32_lit 0 1, f32_lit 0 1) rx1 i = load (f32_lit 0 1, f32_lit 0 1) rx2 i) ->
  let s := for_loop size (monopulse_step rx1 rx2 TWO_PI ratio)
             {| l_rx1_ang := f32_lit 0 1; l_rx2_ang := f32_lit 0 1;
                l_status := 0; l_angle := angle |} in
  (forall i, 0 <= i < size -> load (f32_of_int 0) (l_angle s) i = 0%R) /\
  (l_status s = 0 <->
   forall i, 0 <= i < size ->
     fst (arm_atan2_f32 (snd (load (f32_lit 0 1, f32_lit 0 1) rx1 i))
                        (fst (load (f32_lit 0 1, f32_lit 0 1) rx1 i)))
     = ARM_MATH_SUCCESS).
Proof.
  intros Hok Hsize Hrx s. subst s.
  cut (let s := for_loop size (monopulse_step rx1 rx2 TWO_PI ratio)
             {| l_rx1_ang := f32_lit 0 1; l_rx2_ang := f32_lit 0 1;
                l_status := 0; l_angle := angle |} in
       l_rx1_ang s = l_rx2_ang s /\ length (l_angle s) = length angle /\
       (forall i, 0 <= i < size -> load (f32_of_int 0) (l_angle s) i = 0%R) /\
       (l_status s = 0 <->
        forall i, 0 <= i < size ->
          fst (arm_atan2_f32 (snd (load (f32_lit 0 1, f32_lit 0 1) rx1 i))
                             (fst (load (f32_lit 0 1, f32_lit 0 1) rx1 i)))
          = ARM_MATH_SUCCESS)).
  { cbv zeta. tauto. }
  cbv zeta.
  apply (for_loop_ind (fun k s =>
    l_rx1_ang s = l_rx2_ang s /\ length (l_angle s) = length angle /\
    (forall i, 0 <= i < k -> load (f32_of_int 0) (l_angle s) i = 0%R) /\
    (l_status s = 0 <->
     forall i, 0 <= i < k ->
       fst (arm_atan2_f32 (snd (load (f32_lit 0 1, f32_lit 0 1) rx1 i))
                          (fst (load (f32_lit 0 1, f32_lit 0 1) rx1 i)))
       = ARM_MATH_SUCCESS))); [| |lia].
  - cbn [l_rx1_ang l_rx2_ang l_status l_angle].
    split; [reflexivity|]. split; [reflexivity|]. split; [intros; lia|].
    split; [intros; lia|reflexivity].
  - intros k s Hk (Hang & Hl & Hz & Hst).
    destruct (monopulse_step_equal rx1 rx2 TWO_PI ratio k s Hok (Hrx k Hk) Hang)
      as (Hang' & Hst' & Hangle').
    split; [exact Hang'|]. rewrite Hangle', Hst'.
    split; [now rewrite length_store|]. split.
    + intros i Hi. destruct (Z.eq_dec i k) as [->|Hne].
      * apply load_store_eq. lia.
      * rewrite load_store_ne by lia. apply Hz. lia.
    + rewrite !or_status_0, Hst. split.
      * intros [[[Hall Hk1] _] _] i Hi.
        destruct (Z.eq_dec i k) as [->|Hne]; [exact Hk1|apply Hall; lia].
      * intros Hall. repeat split; try (apply Hall; lia).
        intros i Hi. apply Hall. lia.
Qed.

End MonopulseFacts.

(** In exact arithmetic, for [size > 0], [wavelength > 0],
    [antenna_spacing > 0] and inputs with [rx1[i] = rx2[i]] for every
    sample, with a backend that finds the root of 1 and the arctangent of 0:
    [ifx_angle_monopulse_f32] writes 0 to every entry of the output, and it
    returns success exactly when the backend's arctangent reports success on
    every sample; otherwise it returns [ARM_MATH_ARGUMENT_ERROR]. *)
Lemma monopulse_equal_inputs_exact `{B : ArmFastMath R}
        (rx1 rx2 : list (R * R)) (size : Z) (wavelength antenna_spacing : R)
        (angle : list R) :
  0 < size <= Z.of_nat (length angle) ->
  (0 < wavelength)%R -> (0 < antenna_spacing)%R ->
  (forall i, 0 <= i < size -> load (0%R, 0%R) rx1 i = load (0%R, 0%R) rx2 i) ->
  arcsin_backend_ok ->
  exists status out,
    ifx_angle_monopulse_f32 (Some rx1) (Some rx2) size wavelength antenna_spacing
      (Some angle) = Done (status, out) /\
    (forall i, 0 <= i < size -> load 0%R out i = 0%R) /\
    (status = ARM_MATH_SUCCESS <->
     forall i, 0 <= i < size ->
       fst (arm_atan2_f32 (snd (load (0%R, 0%R) rx1 i)) (fst (load (0%R, 0%R) rx1 i)))
       = ARM_MATH_SUCCESS) /\
    (status = ARM_MATH_SUCCESS \/ status = ARM_MATH_ARGUMENT_ERROR).
Proof.
  intros Hsize Hw Hd Hrx Hok. unfold ifx_angle_monopulse_f32.
  rewrite (proj2 (Z.ltb_lt 0 size)) by lia. cbn [negb f32_ltb f32_of_int exact].
  destruct (Rlt_dec 0 wavelength); [|contradiction].
  destruct (Rlt_dec 0 antenna_spacing); [|contradiction]. cbn [negb].
  match goal with
  | |- context [for_loop size (monopulse_step rx1 rx2 ?T ?r) ?s0] =>
      destruct (monopulse_loop_equal rx1 rx2 T r size angle Hok) as [Hz Hst];
        [lia| |set (s := for_loop size (monopulse_step rx1 rx2 T r) s0) in *]
  end.
  { intros i Hi. replace (f32_lit 0 1) with 0%R by (cbn; lra). now apply Hrx. }
  eexists _, (l_angle s). split; [reflexivity|]. split; [exact Hz|].
  replace (f32_lit 0 1) with 0%R in Hst by (cbn; lra).
  destruct (l_status s =? 0) eqn:E.
  - apply Z.eqb_eq in E. split; [|left; reflexivity].
    split; [intros _; now apply Hst|reflexivity].
  - apply Z.eqb_neq in E. split; [|right; reflexivity].
    split; [discriminate|]. intros Hall. apply Hst in Hall. contradiction.
Qed.

(** The same in single precision, where [a - a] is 0 only for a finite [a]
    and [0 * r] only for a finite [r]. *)
Section MonopulseBinary32.
Context `{B : ArmFastMath spec_float}.

Lemma b32_sub_diag (a : spec_float) :
  Binary32.is_finite a = true -> (a - a)%f32 = S754_zero false.
Proof.
  destruct a as [[|]| | |s m e]; try discriminate; intros _; try reflexivity.
  cbn [f32_sub binary32 SFsub]. rewrite Z.sub_diag. reflexivity.
Qed.

Lemma b32_zero_mul (s : bool) (r : spec_float) :
  Binary32.is_finite r = true -> exists s', (S754_zero s * r)%f32 = S754_zero s'.
Proof. destruct r; try discriminate; intros _; eexists; reflexivity. Qed.

Lemma ifx_arcsin_f32_b32_zero (s : bool) (result : spec_float) :
  backend_ok_b32 ->
  exists s', ifx_arcsin_f32 (S754_zero s) result = (ARM_MATH_SUCCESS, S754_zero s').
Proof.
  intros (Hsqrt & Hatan & _). unfold ifx_arcsin_f32.
  replace (S754_zero s >=? f32_lit 1 1)%f32 with false by (destruct s; reflexivity).
  replace (S754_zero s <=? - f32_lit 1 1)%f32 with false by (destruct s; reflexivity).
  replace (f32_lit 1 1 - S754_zero s * S754_zero s)%f32 with (Binary32.of_int 1)
    by (destruct s; reflexivity).
  destruct (arm_sqrt_f32 (Binary32.of_int 1)) as [st oy]. cbn [fst snd] in *. subst st.
  cbn [arm_status_eqb arm_status_value Z.eqb].
  destruct (Hatan s) as [s' ->]. exists s'. reflexivity.
Qed.

Lemma monopulse_step_b32 rx1 rx2 ratio i s :
  backend_ok_b32 ->
  Binary32.is_finite ratio = true ->
  load (f32_lit 0 1, f32_lit 0 1) rx1 i = load (f32_lit 0 1, f32_lit 0 1) rx2 i ->
  l_rx1_ang s = l_rx2_ang s -> Binary32.is_finite (l_rx1_ang s) = true ->
  let s' := monopulse_step rx1 rx2 (f32_lit 2 1 * f32_PI)%f32 ratio i s in
  l_rx1_ang s' = l_rx2_ang s' /\ Binary32.is_finite (l_rx1_ang s') = true /\
  exists sz, l_angle s' = store (l_angle s) i (S754_zero sz).
Proof.
  intros Hok Hratio Hrx Hang Hfin s'. subst s'. unfold monopulse_step.
  rewrite <- Hrx, <- Hang.
  destruct (arm_atan2_f32 _ _) as [s1 a1] eqn:Eatan. cbn [fst snd].
  assert (Hfin' : Binary32.is_finite (default (l_rx1_ang s) a1) = true).
  { destruct a1 as [a|]; [|exact Hfin]. destruct Hok as (_ & _ & Hf).
    eapply Hf. rewrite Eatan. reflexivity. }
  rewrite b32_sub_diag by exact Hfin'.
  replace (S754_zero false <=? - f32_PI)%f32 with false by reflexivity.
  replace (S754_zero false >? f32_PI)%f32 with false by reflexivity.
  destruct (b32_zero_mul false ratio Hratio) as [sx ->].
  destruct (ifx_arcsin_f32_b32_zero sx (load (f32_lit 0 1) (l_angle s) i) Hok) as [sz ->].
  cbn [l_rx1_ang l_rx2_ang l_angle]. eauto.
Qed.

(** Equal, finite inputs in single precision: every angle written is a
    zero. *)
Lemma monopulse_equal_inputs_b32 (rx1 rx2 : list (spec_float * spec_float)) (size : Z)
      (wavelength antenna_spacing : spec_float) (angle : list spec_float) :
  backend_ok_b32 ->
  0 < size <= Z.of_nat (length angle) ->
  (wavelength >? f32_of_int 0)%f32 = true ->
  (antenna_spacing >? f32_of_int 0)%f32 = true ->
  Binary32.is_finite (wavelength / antenna_spacing / (f32_lit 2 1 * f32_PI))%f32 = true ->
  (forall i, 0 <= i < size ->
     load (f32_lit 0 1, f32_lit 0 1) rx1 i = load (f32_lit 0 1, f32_lit 0 1) rx2 i) ->
  exists status out,
    ifx_angle_monopulse_f32 (Some rx1) (Some rx2) size wavelength antenna_spacing
      (Some angle) = Done (status, out) /\
    forall i, 0 <= i < size -> exists sz, load (f32_of_int 0) out i = S754_zero sz.
Proof.
  intros Hok Hsize Hw Hd Hratio Hrx. unfold ifx_angle_monopulse_f32.
  rewrite (proj2 (Z.ltb_lt 0 size)) by lia. rewrite Hw, Hd. cbn [negb].
  eexists _, _. split; [reflexivity|].
  cut (let s := for_loop size
                  (monopulse_step rx1 rx2 (f32_lit 2 1 * f32_PI)%f32
                     (wavelength / antenna_spacing / (f32_lit 2 1 * f32_PI))%f32)
                  {| l_rx1_ang := f32_lit 0 1; l_rx2_ang := f32_lit 0 1;
                     l_status := 0; l_angle := angle |} in
       (l_rx1_ang s = l_rx2_ang s /\ Binary32.is_finite (l_rx1_ang s) = true /\
        length (l_angle s) = length angle) /\
       forall i, 0 <= i < size -> exists sz, load (f32_of_int 0) (l_angle s) i = S754_zero sz).
  { cbv zeta. tauto. }
  cbv zeta.
  apply (for_loop_ind (fun k s =>
    (l_rx1_ang s = l_rx2_ang s /\ Binary32.is_finite (l_rx1_ang s) = true /\
     length (l_angle s) = length angle) /\
    forall i, 0 <= i < k -> exists sz, load (f32_of_int 0) (l_angle s) i = S754_zero sz));
    [| |lia].
  - cbn [l_rx1_ang l_rx2_ang l_angle]. split; [auto|]. intros; lia.
  - intros k s Hk [(Hang & Hfin & Hl) Hz].
    destruct (monopulse_step_b32 rx1 rx2 _ k s Hok Hratio (Hrx k Hk) Hang Hfin)
      as (Hang' & Hfin' & sz & Hangle').
    rewrite Hangle'. split; [split; [exact Hang'|split; [exact Hfin'|]]|].
    + now rewrite length_store.
    + intros i Hi. destruct (Z.eq_dec i k) as [->|Hne].
      * exists sz. apply load_store_eq. lia.
      * rewrite load_store_ne by lia. apply Hz. lia.
Qed.

End MonopulseBinary32.

Example axis_backend_ok_b32 : @backend_ok_b32 axis_fast_math.
Proof.
  split; [reflexivity|]. split.
  - intros s. exists false. destruct s; reflexivity.
  - intros y x a. cbn [arm_atan2_f32 axis_fast_math].
    repeat match goal with |- context [if ?b then _ else _] => destruct b end;
      cbn [snd]; intros [= <-]; reflexivity.
Qed.

Section MonopulseBinary32Status.
Context `{B : ArmFastMath spec_float}.

(** One sample of equal inputs: the two phases stay equal and finite, the
    status word takes the status of the arctangent (twice) and that of the
    arcsine of a zero, which is success, and the angle written is a zero. *)
Lemma monopulse_step_b32_status rx1 rx2 ratio i s :
  backend_ok_b32 ->
  Binary32.is_finite ratio = true ->
  load (f32_lit 0 1, f32_lit 0 1) rx1 i = load (f32_lit 0 1, f32_lit 0 1) rx2 i ->
  l_rx1_ang s = l_rx2_ang s -> Binary32.is_finite (l_rx1_ang s) = true ->
  let c := load (f32_lit 0 1, f32_lit 0 1) rx1 i in
  let si := fst (arm_atan2_f32 (snd c) (fst c)) in
  let s' := monopulse_step rx1 rx2 (f32_lit 2 1 * f32_PI)%f32 ratio i s in
  l_rx1_ang s' = l_rx2_ang s' /\ Binary32.is_finite (l_rx1_ang s') = true /\
  l_status s' = or_status (or_status (or_status (l_status s) si) si) ARM_MATH_SUCCESS /\
  exists sz, l_angle s' = store (l_angle s) i (S754_zero sz).
Proof.
  intros Hok Hratio Hrx Hang Hfin c si s'. subst s' si c. unfold monopulse_step.
  rewrite <- Hrx, <- Hang.
  destruct (arm_atan2_f32 _ _) as [s1 a1] eqn:Eatan. cbn [fst snd].
  assert (Hfin' : Binary32.is_finite (default (l_rx1_ang s) a1) = true).
  { destruct a1 as [a|]; [|exact Hfin]. destruct Hok as (_ & _ & Hf).
    eapply Hf. rewrite Eatan. reflexivity. }
  rewrite b32_sub_diag by exact Hfin'.
  replace (S754_zero false <=? - f32_PI)%f32 with false by reflexivity.
  replace (S754_zero false >? f32_PI)%f32 with false by reflexivity.
  destruct (b32_zero_mul false ratio Hratio) as [sx ->].
  destruct (ifx_arcsin_f32_b32_zero sx (load (f32_lit 0 1) (l_angle s) i) Hok) as [sz ->].
  cbn [l_rx1_ang l_rx2_ang l_status l_angle]. eauto 6.
Qed.

Lemma monopulse_loop_b32_status rx1 rx2 ratio size angle :
  backend_ok_b32 ->
  Binary32.is_finite ratio = true ->
  0 <= size <= Z.of_nat (length angle) ->
  (forall i, 0 <= i < size ->
     load (f32_lit 0 1, f32_lit 0 1) rx1 i = load (f32_lit 0 1, f32_lit 0 1) rx2 i) ->
  let s := for_loop size (monopulse_step rx1 rx2 (f32_lit 2 1 * f32_PI)%f32 ratio)
             {| l_rx1_ang := f32_lit 0 1; l_rx2_ang := f32_lit 0 1;
                l_status := 0; l_angle := angle |} in
  (forall i, 0 <= i < size -> exists sz, load (f32_of_int 0) (l_angle s) i = S754_zero sz) /\
  (l_status s = 0 <->
   forall i, 0 <= i < size ->
     fst (arm_atan2_f32 (snd (load (f32_lit 0 1, f32_lit 0 1) rx1 i))
                        (fst (load (f32_lit 0 1, f32_lit 0 1) rx1 i)))
     = ARM_MATH_SUCCESS).
Proof.
  intros Hok Hratio Hsize Hrx s. subst s.
  cut (let s := for_loop size (monopulse_step rx1 rx2 (f32_lit 2 1 * f32_PI)%f32 ratio)
             {| l_rx1_ang := f32_lit 0 1; l_rx2_ang := f32_lit 0 1;
                l_status := 0; l_angle := angle |} in
       (l_rx1_ang s = l_rx2_ang s /\ Binary32.is_finite (l_rx1_ang s) = true /\
        length (l_angle s) = length angle) /\
       (forall i, 0 <= i < size ->
          exists sz, load (f32_of_int 0) (l_angle s) i = S754_zero sz) /\
       (l_status s = 0 <->
        forall i, 0 <= i < size ->
          fst (arm_atan2_f32 (snd (load (f32_lit 0 1, f32_lit 0 1) rx1 i))
                             (fst (load (f32_lit 0 1, f32_lit 0 1) rx1 i)))
          = ARM_MATH_SUCCESS)).
  { cbv zeta. tauto. }
  cbv zeta.
  apply (for_loop_ind (fun k s =>
    (l_rx1_ang s = l_rx2_ang s /\ Binary32.is_finite (l_rx1_ang s) = true /\
     length (l_angle s) = length angle) /\
    (forall i, 0 <= i < k -> exists sz, load (f32_of_int 0) (l_angle s) i = S754_zero sz) /\
    (l_status s = 0 <->
     forall i, 0 <= i < k ->
       fst (arm_atan2_f32 (snd (load (f32_lit 0 1, f32_lit 0 1) rx1 i))
                          (fst (load (f32_lit 0 1, f32_lit 0 1) rx1 i)))
       = ARM_MATH_SUCCESS))); [| |lia].
  - cbn [l_rx1_ang l_rx2_ang l_status l_angle]. split; [auto|].
    split; [intros; lia|]. split; [intros; lia|reflexivity].
  - intros k s Hk [(Hang & Hfin & Hl) [Hz Hst]].
    destruct (monopulse_step_b32_status rx1 rx2 ratio k s Hok Hratio (Hrx k Hk) Hang Hfin)
      as (Hang' & Hfin' & Hst' & sz & Hangle').
    rewrite Hangle', Hst'. split; [split; [exact Hang'|split; [exact Hfin'|]]|split].
    + now rewrite length_store.
    + intros i Hi. destruct (Z.eq_dec i k) as [->|Hne].
      * exists sz. apply load_store_eq. lia.
      * rewrite load_store_ne by lia. apply Hz. lia.
    + rewrite !or_status_0, Hst. split.
      * intros [[[Hall Hk1] _] _] i Hi.
        destruct (Z.eq_dec i k) as [->|Hne]; [exact Hk1|apply Hall; lia].
      * intros Hall. repeat split; try (apply Hall; lia).
        intros i Hi. apply Hall. lia.
Qed.

End MonopulseBinary32Status.


Lemma exact_arcsin_backend_ok : @arcsin_backend_ok exact_fast_math.
Proof.
  unfold arcsin_backend_ok. cbn [arm_sqrt_f32 arm_atan2_f32 exact_fast_math f32_lit exact].
  destruct (Rle_dec 0 1); [|lra]. cbn [fst snd default]. split; [reflexivity|].
  rewrite sqrt_1. unfold Datatypes.id. destruct (Rlt_dec 0 1); [|lra]. cbn [snd].
  replace (0 / 1)%R with 0%R by lra. now rewrite atan_0.
Qed.


(** ** The statements at concrete inputs *)

Lemma plan_cache_single_slot_witness :
  32 <> 64 /\
  plan_inits (range_fft_calls no_plans (map call_of_length [32; 64; 32; 64]))
  = [Rfft_init 32; Rfft_init 64; Rfft_init 32; Rfft_init 64].
Proof.
  split; [lia|].
  apply (plan_cache_single_slot no_plans (call_of_length 32)
           (map call_of_length [32; 64; 32; 64]) 32 64 4); [lia|reflexivity| | |cbn; lia];
    intros plan; split; reflexivity.
Defined.

Lemma mti_f32_recurrence_witness :
  (exists h' out',
     ifx_mti_f32 {| len := 2; alpha := Binary32.lit 1 10;
                    historical_data := Some (b32_samples [3; 5]) |}
       (Some (b32_samples [4; 8])) (Some (b32_samples [0; 0]))
     = Done ({| len := 2; alpha := Binary32.lit 1 10; historical_data := Some h' |}, out') /\
     load (f32_of_int 0) out' 1 = Binary32.of_int 3) /\
  ((0 <= 1 / 2 <= 1)%R /\
   forall k, (1 <= k)%nat ->
     exists inst_k out_k,
       mti_calls k {| len := 1; alpha := (1 / 2)%R; historical_data := Some [0%R] |}
         [1%R] [0%R] = Done (inst_k, out_k) /\
       load 0%R out_k 0 = (1 * (1 - 1 / 2) ^ (k - 1))%R).
Proof.
  split.
  - destruct (proj1 mti_f32_recurrence spec_float binary32
                {| len := 2; alpha := Binary32.lit 1 10;
                   historical_data := Some (b32_samples [3; 5]) |}
                (b32_samples [3; 5]) (b32_samples [4; 8]) (b32_samples [0; 0])
                eq_refl ltac:(cbn; lia) eq_refl eq_refl eq_refl eq_refl)
      as (h' & out' & E & Hv).
    exists h', out'. split; [exact E|].
    rewrite (proj1 (Hv 1 ltac:(cbn; lia))). vm_compute. reflexivity.
  - split; [lra|].
    destruct (proj2 mti_f32_recurrence (1 / 2)%R 1%R 1%nat [0%R] [1%R] [0%R])
      as (_ & Hk & _); [lra|reflexivity|reflexivity|reflexivity|].
    intros k Hk1. destruct (Hk k Hk1) as (inst_k & out_k & Hcalls & Hv).
    exists inst_k, out_k. split; [exact Hcalls|]. apply Hv. cbn. lia.
Defined.

Lemma range_fft_rows_and_dc_witness :
  (2 <= 32 /\ 32 * 2 <= Z.of_nat (length two_chirps)) /\
  let '(result, _, _, range') :=
    ifx_range_fft_f32 no_plans two_chirps (repeat (Binary32.of_int 9) 64) false None 32 2 in
  result = IFX_SENSOR_DSP_STATUS_OK /\
  load (S754_zero false) range' 1 = S754_zero false /\
  load (S754_zero false) range' 33 = S754_zero false.
Proof.
  split; [split; [lia|vm_compute; congruence]|].
  pose proof (range_fft_rows_and_dc no_plans two_chirps (repeat (Binary32.of_int 9) 64)
                false None 32 2) as Hthm.
  destruct (ifx_range_fft_f32 no_plans two_chirps (repeat (Binary32.of_int 9) 64)
              false None 32 2) as [[[result st'] frame'] range'] eqn:Ecall.
  assert (Hres : result = IFX_SENSOR_DSP_STATUS_OK).
  { apply (f_equal (fun t => fst (fst (fst t)))) in Ecall. vm_compute in Ecall.
    symmetry. exact Ecall. }
  destruct Hthm as (_ & [chirp_in Hrows] & _);
    [lia|lia|vm_compute; congruence|vm_compute; congruence| |exact Hres|].
  { intros plan input Hlen. exact Hlen. }
  split; [exact Hres|]. split.
  - exact (proj1 (Hrows 0 ltac:(lia))).
  - exact (proj1 (Hrows 1 ltac:(lia))).
Defined.

Lemma angle_dbf_rejects_shape_mismatch_witness :
  numCols matrix_2x3 <> numRows matrix_2x3 /\
  ifx_angle_dbf_f32 matrix_2x3 matrix_2x3 matrix_2x2 = AssertionFailed /\
  ifx_angle_dbf_f32 matrix_2x3 matrix_2x2 matrix_2x3
  = Done (arm_mat_cmplx_mult_f32 matrix_2x2 matrix_2x3 matrix_2x3).
Proof.
  split; [cbn; lia|]. split.
  - apply (proj1 (angle_dbf_rejects_shape_mismatch matrix_2x3 matrix_2x3 matrix_2x2)).
    cbn. lia.
  - apply (proj2 (angle_dbf_rejects_shape_mismatch matrix_2x3 matrix_2x2 matrix_2x3)).
    cbn. lia.
Defined.

Lemma window_formula_and_exact_symmetry_witness :
  (1 < 4 /\
   exists w,
     @ifx_window_hamming_f32 spec_float binary32 series_trig
       (Some (repeat (S754_zero false) 4)) 4 = Done w /\
     load (f32_of_int 0) w 1
     = (f32_lit 54 100
        - f32_lit 46 100
          * Series.cos (f32_lit 2 1 * f32_PI * f32_of_int 1
                        * (f32_lit 1 1 / (f32_of_int 4 - f32_lit 1 1))))%f32) /\
  exists w, ifx_window_hamming_f32 (Some [0%R; 0%R; 0%R; 0%R]) 4 = Done w /\
            load 0%R w 1 = load 0%R w (4 - 1 - 1).
Proof.
  split.
  - split; [lia|].
    exact (proj1 (proj1 window_formula_and_exact_symmetry spec_float binary32 series_trig
                    (repeat (S754_zero false) 4) 4 1 ltac:(lia) ltac:(cbn; lia) ltac:(lia))).
  - exact (proj1 (proj2 window_formula_and_exact_symmetry [0%R; 0%R; 0%R; 0%R] 4 1
                    ltac:(lia) ltac:(cbn; lia) ltac:(lia))).
Defined.


Lemma shift_cfft_rotates_rows_witness :
  (0 < 3 /\ 2 * (0 + 3 * 2) <= Z.of_nat (length two_rows)) /\
  complex_row (ifx_shift_cfft_f32 two_rows 0 3 2) 3 3
  = rotate 2 (complex_row two_rows 3 3).
Proof.
  split; [split; [lia|vm_compute; congruence]|].
  destruct (shift_cfft_rotates_rows two_rows 0 3 2) as (_ & Hrows & _);
    [lia|lia|lia|lia|vm_compute; congruence|].
  destruct (Hrows 1) as [Heq _]; [lia|]. exact Heq.
Defined.

(** The same runs, evaluated. *)
Example shift_cfft_odd :
  ifx_shift_cfft_f32 two_rows 0 3 2 = b32_samples [5; 6; 1; 2; 3; 4; 11; 12; 7; 8; 9; 10].
Proof. vm_compute. reflexivity. Qed.

Example shift_cfft_even :
  ifx_shift_cfft_f32 (b32_samples [1; 2; 3; 4; 5; 6; 7; 8]) 0 4 1
  = b32_samples [5; 6; 7; 8; 1; 2; 3; 4].
Proof. vm_compute. reflexivity. Qed.

Example peak_search_height_2 :
  ifx_peak_search_f32 (b32_samples [0; 1; 0; 5; 0; 1; 0]) 7 5
    (Some {| height := Binary32.of_int 2; threshold := f32_FLT_EPSILON;
             distance := 1; width := 1 |})
  = (1, {[0 := 3]}).
Proof. vm_compute. reflexivity. Qed.

Example mti_two_calls :
  mti_calls 2 {| len := 2; alpha := f32_lit 1 2;
                 historical_data := Some (b32_samples [0; 0]) |}
    (b32_samples [4; 8]) (b32_samples [0; 0])
  = Done ({| len := 2; alpha := f32_lit 1 2;
             historical_data := Some (b32_samples [3; 6]) |}, b32_samples [2; 4]).
Proof. vm_compute. reflexivity. Qed.

(** * Further properties of the sources *)

(** ** Peak search: what the scan stores *)

Section PeakSearchSound.
Context {F : Type} `{Float32 F} `{Float32Limits F}.

Local Notation "x .[ i ]" := (load (f32_of_int 0) x i) (at level 1, format "x .[ i ]").

(** A step either leaves the scan as it was, or stores the candidate [i]
    in the cell after the last one, or (only with a peak nearer than
    [distance] back and at least two peaks stored) over the last one. *)
Lemma peak_search_step_cases x length max_peaks o i s :
  peak_search_step x length max_peaks o i s = (s, Next) \/
  exists incr,
    (incr = 1 \/ (incr = 0 /\ 0 < peak_count s /\ i - distance o < last_peak_index s)) /\
    peak_accepted x length o i /\
    peak_search_step x length max_peaks o i s
    = ({| peak_count := peak_count s + incr;
          last_peak_index := i;
          peak_indices := <[peak_count s + incr := i]> (peak_indices s) |},
       if max_peaks <=? peak_count s + incr + 1 then Break else Next).
Proof.
  unfold peak_search_step, peak_accepted, peak_candidate.
  destruct (f32_leb _ (height o)); [now left|].
  destruct (f32_ltb _ (load _ x (i - 1))); [now left|].
  destruct (f32_ltb _ (load _ x (i + 1))); [now left|].
  destruct ((0 <? peak_count s) && (i - distance o <? last_peak_index s)) eqn:Hnear.
  - apply andb_prop in Hnear as [Hpos Hd]. apply Z.ltb_lt in Hpos, Hd.
    destruct (f32_ltb (load _ x (last_peak_index s)) _); [|now left].
    destruct ((1 <? width o) && _) eqn:Hw; [now left|].
    right. exists 0. split; [right; auto|]. split; [|reflexivity].
    split; [reflexivity|]. intros Hwd.
    apply andb_false_iff in Hw as [Hw|Hw]; [apply Z.ltb_ge in Hw; lia|].
    now apply Z.ltb_ge in Hw.
  - destruct ((1 <? width o) && _) eqn:Hw; [now left|].
    right. exists 1. split; [now left|]. split; [|reflexivity].
    split; [reflexivity|]. intros Hwd.
    apply andb_false_iff in Hw as [Hw|Hw]; [apply Z.ltb_ge in Hw; lia|].
    now apply Z.ltb_ge in Hw.
Qed.

Lemma scan_sound_weaken x length o i j s :
  i <= j -> scan_sound x length o i s -> scan_sound x length o j s.
Proof.
  intros Hij (Hlo & Hcells & Hinc). split; [exact Hlo|]. split; [|exact Hinc].
  intros k v Hk. destruct (Hcells k v Hk) as (? & ? & ? & Ha).
  split; [lia|split; [lia|split; [lia|exact Ha]]].
Qed.

Lemma peak_search_step_sound x length max_peaks o i s :
  1 <= i < length - 1 ->
  scan_sound x length o i s ->
  scan_sound x length o (i + 1) (fst (peak_search_step x length max_peaks o i s)).
Proof.
  intros Hi Hs.
  destruct (peak_search_step_cases x length max_peaks o i s)
    as [E|(incr & Hincr & Hacc & E)]; rewrite E; cbn [fst].
  - apply (scan_sound_weaken x length o i); [lia|exact Hs].
  - destruct Hs as (Hlo & Hcells & Hinc).
    assert (Hpc : 0 <= peak_count s + incr <= peak_count s + 1 /\ peak_count s <= peak_count s + incr).
    { destruct Hincr as [->|(-> & ? & ?)]; lia. }
    unfold scan_sound; cbn [peak_count peak_indices].
    split; [lia|]. split.
    + intros k v Hk. destruct (decide (k = peak_count s + incr)) as [->|Hne].
      * rewrite lookup_insert_eq in Hk. injection Hk as <-.
        split; [lia|split; [lia|split; [lia|exact Hacc]]].
      * rewrite lookup_insert_ne in Hk by congruence.
        destruct (Hcells k v Hk) as (? & ? & ? & Ha).
        split; [lia|split; [lia|split; [lia|exact Ha]]].
    + intros k1 k2 v1 v2 Hlt H1 H2.
      destruct (decide (k2 = peak_count s + incr)) as [->|Hne2].
      * rewrite lookup_insert_eq in H2. injection H2 as <-.
        rewrite lookup_insert_ne in H1 by lia.
        destruct (Hcells k1 v1 H1) as (? & ? & ? & ?). lia.
      * rewrite lookup_insert_ne in H2 by congruence.
        destruct (Hcells k2 v2 H2) as (? & ? & ? & ?).
        destruct (decide (k1 = peak_count s + incr)) as [->|Hne1]; [lia|].
        rewrite lookup_insert_ne in H1 by congruence.
        now apply (Hinc k1 k2).
Qed.

Lemma peak_search_loop_sound x length max_peaks o fuel : forall i s,
  1 <= i ->
  scan_sound x length o i s ->
  scan_sound x length o length (peak_search_loop x length max_peaks o fuel i s).
Proof.
  induction fuel as [|fuel IH]; intros i s Hi Hs; cbn [peak_search_loop].
  - destruct Hs as (Hlo & Hcells & Hinc). split; [exact Hlo|]. split; [|exact Hinc].
    intros k v Hk. destruct (Hcells k v Hk) as (? & ? & ? & Ha).
    split; [lia|split; [lia|split; [lia|exact Ha]]].
  - destruct (i <? length - 1) eqn:E.
    + apply Z.ltb_lt in E.
      pose proof (peak_search_step_sound x length max_peaks o i s (conj Hi E) Hs) as Hstep.
      destruct (peak_search_step x length max_peaks o i s) as [s' [|]]; cbn [fst] in Hstep.
      * apply IH; [lia|exact Hstep].
      * destruct Hstep as (Hlo & Hcells & Hinc). split; [exact Hlo|]. split; [|exact Hinc].
        intros k v Hk. destruct (Hcells k v Hk) as (? & ? & ? & Ha).
        split; [lia|split; [lia|split; [lia|exact Ha]]].
    + destruct Hs as (Hlo & Hcells & Hinc). split; [exact Hlo|]. split; [|exact Hinc].
      intros k v Hk. destruct (Hcells k v Hk) as (? & ? & ? & Ha).
      split; [lia|split; [lia|split; [lia|exact Ha]]].
Qed.

Lemma peak_search_sound x length max_peaks opts :
  scan_sound x length (match opts with None => default_opts | Some o => o end) length
    (peak_search_loop x length max_peaks
       (match opts with None => default_opts | Some o => o end)
       (Z.to_nat (length - 2)) 1
       {| peak_count := -1; last_peak_index := 0; peak_indices := ∅ |}).
Proof.
  apply peak_search_loop_sound; [lia|].
  unfold scan_sound; cbn [peak_count peak_indices]. split; [lia|].
  split.
  - intros k v Hk. rewrite lookup_empty in Hk. discriminate.
  - intros k1 k2 v1 v2 _ Hk. rewrite lookup_empty in Hk. discriminate.
Qed.

End PeakSearchSound.

(** X1. Whatever the options and [max_peaks], every index that
    [ifx_peak_search_f32] writes is an interior index of the input
    ([1 <= i <= length - 2]) in a cell below the returned count, and the
    indices rise strictly with the cell they are written to. *)
Theorem peak_search_indices_interior_increasing {F : Type} `{Float32 F} `{Float32Limits F}
        (x : list F) (length max_peaks : Z) (opts : option (ifx_peak_search_opts_f32_t F)) :
  let count := fst (ifx_peak_search_f32 x length max_peaks opts) in
  let written := snd (ifx_peak_search_f32 x length max_peaks opts) in
  (forall k i, written !! k = Some i -> 0 <= k < count /\ 1 <= i <= length - 2) /\
  (forall k1 k2 i1 i2, k1 < k2 ->
     written !! k1 = Some i1 -> written !! k2 = Some i2 -> i1 < i2).
Proof.
  unfold ifx_peak_search_f32. cbn [fst snd].
  destruct (peak_search_sound x length max_peaks opts) as (Hlo & Hcells & Hinc).
  split; [|exact Hinc].
  intros k i Hk. destruct (Hcells k i Hk) as (? & ? & ? & ?). lia.
Qed.

Lemma peak_search_indices_interior_increasing_witness :
  snd (ifx_peak_search_f32 (b32_samples [0; 1; 0; 5; 0; 1; 0]) 7 5 None) !! 1 = Some 3 /\
  (0 <= 1 < fst (ifx_peak_search_f32 (b32_samples [0; 1; 0; 5; 0; 1; 0]) 7 5 None) /\
   1 <= 3 <= 7 - 2).
Proof.
  split; [vm_compute; reflexivity|].
  apply (proj1 (peak_search_indices_interior_increasing
                  (b32_samples [0; 1; 0; 5; 0; 1; 0]) 7 5 None) 1 3).
  vm_compute. reflexivity.
Defined.

(** X2. Every index [i] that [ifx_peak_search_f32] writes passed the tests
    of the scan on the options in force: [x[i]] is not at or below
    [height], [x[i] - threshold] is below neither neighbour, and when
    [width > 1] the width measured at half the prominence is at least
    [width]. *)
Theorem peak_search_reports_accepted_peaks {F : Type} `{Float32 F} `{Float32Limits F}
        (x : list F) (length max_peaks : Z) (opts : option (ifx_peak_search_opts_f32_t F)) :
  let o := match opts with None => default_opts | Some o => o end in
  forall k i, snd (ifx_peak_search_f32 x length max_peaks opts) !! k = Some i ->
    (load (f32_of_int 0) x i <=? height o)%f32 = false /\
    (load (f32_of_int 0) x i - threshold o <? load (f32_of_int 0) x (i - 1))%f32 = false /\
    (load (f32_of_int 0) x i - threshold o <? load (f32_of_int 0) x (i + 1))%f32 = false /\
    (1 < width o ->
     width o <= get_width x length i (get_prominence x length i * f32_lit 5 10)%f32).
Proof.
  intros o k i Hk. unfold ifx_peak_search_f32 in Hk. cbn [snd] in Hk.
  destruct (peak_search_sound x length max_peaks opts) as (_ & Hcells & _).
  destruct (Hcells k i Hk) as (_ & _ & _ & Hc & Hw).
  unfold peak_candidate in Hc.
  apply andb_prop in Hc as [Hc H3]. apply andb_prop in Hc as [H1 H2].
  apply negb_true_iff in H1, H2, H3. auto.
Qed.

Lemma peak_search_reports_accepted_peaks_witness :
  snd (ifx_peak_search_f32 (b32_samples [0; 1; 0; 5; 0; 1; 0]) 7 5 None) !! 1 = Some 3 /\
  (load (f32_of_int 0) (b32_samples [0; 1; 0; 5; 0; 1; 0]) 3
   - threshold default_opts <? load (f32_of_int 0) (b32_samples [0; 1; 0; 5; 0; 1; 0]) (3 - 1))%f32
  = false.
Proof.
  split; [vm_compute; reflexivity|].
  apply (peak_search_reports_accepted_peaks
           (b32_samples [0; 1; 0; 5; 0; 1; 0]) 7 5 None 1 3).
  vm_compute. reflexivity.
Defined.

(** ** Peak search without distance and width constraints *)

Section PeakSearchSimple.
Context {F : Type} `{Float32 F} `{Float32Limits F}.

Local Notation "x .[ i ]" := (load (f32_of_int 0) x i) (at level 1, format "x .[ i ]").

Lemma peak_search_step_simple x length max_peaks o i s :
  distance o <= 1 -> width o <= 1 -> last_peak_index s < i ->
  peak_search_step x length max_peaks o i s
  = if peak_candidate x o i
    then ({| peak_count := peak_count s + 1;
             last_peak_index := i;
             peak_indices := <[peak_count s + 1 := i]> (peak_indices s) |},
          if max_peaks <=? peak_count s + 1 + 1 then Break else Next)
    else (s, Next).
Proof.
  intros Hd Hw Hlast. unfold peak_search_step, peak_candidate.
  destruct (f32_leb _ (height o)); [reflexivity|].
  destruct (f32_ltb _ (load _ x (i - 1))); [reflexivity|].
  destruct (f32_ltb _ (load _ x (i + 1))); [reflexivity|].
  rewrite (proj2 (Z.ltb_ge (i - distance o) (last_peak_index s))) by lia.
  rewrite andb_false_r.
  rewrite (proj2 (Z.ltb_ge 1 (width o))) by lia.
  reflexivity.
Qed.

Lemma peak_candidates_succ x o i n :
  peak_candidates x o i (S n)
  = (if peak_candidate x o i then [i] else []) ++ peak_candidates x o (i + 1) n.
Proof.
  unfold peak_candidates. cbn [seq map List.filter]. rewrite Z.add_0_r.
  rewrite <- seq_shift, map_map.
  replace (map (fun k => i + Z.of_nat (S k)) (seq 0 n))
    with (map (fun k => i + 1 + Z.of_nat k) (seq 0 n))
    by (apply map_ext; intros; lia).
  destruct (peak_candidate x o i); reflexivity.
Qed.

(** The cells of the scan hold the list [l]. *)
Lemma peak_search_loop_simple x length max_peaks o fuel : forall i s l,
  distance o <= 1 -> width o <= 1 ->
  ((0 < fuel)%nat -> i + Z.of_nat fuel <= length - 1) ->
  last_peak_index s < i ->
  Z.of_nat (Datatypes.length l) < max_peaks ->
  peak_count s = Z.of_nat (Datatypes.length l) - 1 ->
  (forall k, peak_indices s !! k = if 0 <=? k then l !! Z.to_nat k else None) ->
  let s' := peak_search_loop x length max_peaks o fuel i s in
  let found := take (Z.to_nat max_peaks) (l ++ peak_candidates x o i fuel) in
  peak_count s' = Z.of_nat (Datatypes.length found) - 1 /\
  forall k, peak_indices s' !! k = if 0 <=? k then found !! Z.to_nat k else None.
Proof.
  induction fuel as [|fuel IH]; intros i s l Hd Hw Hfuel Hlast Hroom Hpc Hcells;
    cbn [peak_search_loop].
  - cbn zeta. unfold peak_candidates; cbn [seq map List.filter]. rewrite app_nil_r.
    rewrite take_ge by lia. auto.
  - rewrite (proj2 (Z.ltb_lt i (length - 1))) by lia.
    rewrite peak_search_step_simple by assumption.
    rewrite peak_candidates_succ.
    destruct (peak_candidate x o i).
    + assert (Hcells' : forall k,
                <[peak_count s + 1 := i]> (peak_indices s) !! k
                = if 0 <=? k then (l ++ [i]) !! Z.to_nat k else None).
      { intros k. destruct (decide (k = peak_count s + 1)) as [->|Hne].
        - rewrite lookup_insert_eq. rewrite (proj2 (Z.leb_le 0 _)) by lia.
          replace (Z.to_nat (peak_count s + 1)) with (Datatypes.length l + 0)%nat by lia.
          rewrite lookup_app_r by lia.
          replace (Datatypes.length l + 0 - Datatypes.length l)%nat with 0%nat by lia.
          reflexivity.
        - rewrite lookup_insert_ne by congruence. rewrite Hcells.
          destruct (0 <=? k) eqn:Ek; [|reflexivity]. apply Z.leb_le in Ek.
          destruct (decide (Z.to_nat k < Datatypes.length l)%nat) as [Hlt|Hge].
          + now rewrite lookup_app_l.
          + rewrite (lookup_ge_None_2 l) by lia.
            symmetry. apply lookup_ge_None_2. rewrite length_app. cbn. lia. }
      destruct (max_peaks <=? peak_count s + 1 + 1) eqn:E.
      * apply Z.leb_le in E. cbn zeta.
        replace (take (Z.to_nat max_peaks) (l ++ [i] ++ peak_candidates x o (i + 1) fuel))
          with (l ++ [i]).
        { cbn [peak_count peak_indices]. split; [rewrite length_app; cbn; lia|exact Hcells']. }
        rewrite app_assoc. rewrite take_app_le by (rewrite length_app; cbn; lia).
        rewrite take_ge by (rewrite length_app; cbn; lia). reflexivity.
      * apply Z.leb_gt in E. cbn zeta. rewrite app_assoc.
        apply IH; cbn [peak_count peak_indices last_peak_index]; try assumption; try lia.
        -- rewrite length_app; cbn; lia.
        -- rewrite length_app; cbn; lia.
    + cbn [app]. apply IH; try assumption; lia.
Qed.

End PeakSearchSimple.

(** X3. Without distance and width constraints ([distance] 0 or 1 and
    [width <= 1], as in the default options), with room for a peak
    ([max_peaks >= 1]) and a [length] above the least 32 bit integer (so that
    neither [i - distance] nor [length - 1] leaves the range of [int32_t]),
    [ifx_peak_search_f32] returns the first [max_peaks] interior samples
    that pass the height and threshold tests, in rising order: the count is
    their number and cell [k] holds the [k]-th of them; no other cell is
    written. *)
Theorem peak_search_unconstrained_first_candidates {F : Type} `{Float32 F} `{Float32Limits F}
        (x : list F) (length max_peaks : Z) (opts : option (ifx_peak_search_opts_f32_t F)) :
  let o := match opts with None => default_opts | Some o => o end in
  let found :=
    take (Z.to_nat max_peaks) (peak_candidates x o 1 (Z.to_nat (length - 2))) in
  0 <= distance o <= 1 -> width o <= 1 -> 1 <= max_peaks -> - 2 ^ 31 < length ->
  fst (ifx_peak_search_f32 x length max_peaks opts) = Z.of_nat (Datatypes.length found) /\
  forall k, snd (ifx_peak_search_f32 x length max_peaks opts) !! k
            = if 0 <=? k then found !! Z.to_nat k else None.
Proof.
  intros o found Hd Hw Hmax _. unfold ifx_peak_search_f32. cbn [fst snd]. fold o.
  pose proof (peak_search_loop_simple x length max_peaks o (Z.to_nat (length - 2)) 1
                {| peak_count := -1; last_peak_index := 0; peak_indices := ∅ |} []
                (proj2 Hd) Hw)
    as Hloop.
  cbn [peak_count peak_indices last_peak_index Datatypes.length app] in Hloop.
  destruct Hloop as [Hpc Hcells]; try lia.
  - intros k. rewrite lookup_empty. destruct (0 <=? k); [rewrite lookup_nil|]; reflexivity.
  - fold found in Hpc, Hcells. split; [lia|exact Hcells].
Qed.

Lemma peak_search_unconstrained_first_candidates_witness :
  (0 <= distance (@default_opts spec_float _ _) <= 1
   /\ width (@default_opts spec_float _ _) <= 1 /\ 1 <= 2 /\ - 2 ^ 31 < 7) /\
  fst (ifx_peak_search_f32 (b32_samples [0; 1; 0; 5; 0; 1; 0]) 7 2 None)
  = Z.of_nat (Datatypes.length
                (take (Z.to_nat 2)
                   (peak_candidates (b32_samples [0; 1; 0; 5; 0; 1; 0]) default_opts 1
                      (Z.to_nat (7 - 2))))).
Proof.
  split; [cbn; lia|].
  apply (peak_search_unconstrained_first_candidates
           (b32_samples [0; 1; 0; 5; 0; 1; 0]) 7 2 None); cbn; lia.
Defined.

(** ** Peak search: the width measure *)

Section WidthFacts.
Context {F : Type} `{Float32 F} `{Float32Limits F}.

Local Notation "x .[ i ]" := (load (f32_of_int 0) x i) (at level 1, format "x .[ i ]").

Lemma width_rhs_none x length wm fuel : forall i,
  (forall j, i <= j < length -> (x.[j] <? wm)%f32 = false) ->
  width_rhs x length wm fuel i = 0.
Proof.
  induction fuel as [|fuel IH]; intros i Hno; cbn [width_rhs]; [reflexivity|].
  destruct (i <? length) eqn:E; [|reflexivity]. apply Z.ltb_lt in E.
  rewrite Hno by lia. apply IH. intros j Hj. apply Hno. lia.
Qed.

Lemma width_rhs_first x length wm r fuel : forall i,
  i <= r < length -> r < i + Z.of_nat fuel ->
  (forall j, i <= j < r -> (x.[j] <? wm)%f32 = false) ->
  (x.[r] <? wm)%f32 = true ->
  width_rhs x length wm fuel i = r.
Proof.
  induction fuel as [|fuel IH]; intros i Hr Hfuel Hno Hyes; cbn [width_rhs]; [lia|].
  rewrite (proj2 (Z.ltb_lt i length)) by lia.
  destruct (decide (i = r)) as [->|Hne]; [now rewrite Hyes|].
  rewrite Hno by lia. apply IH; try lia; [|exact Hyes].
  intros j Hj. apply Hno. lia.
Qed.

Lemma width_lhs_le x wm n : forall w, width_lhs x wm n w <= w.
Proof.
  induction n as [|n IH]; intros w; cbn [width_lhs]; [lia|].
  destruct (f32_ltb _ _); [lia|apply IH].
Qed.

Lemma width_lhs_none x wm n : forall w,
  (forall j, 0 <= j < Z.of_nat n -> (x.[j] <? wm)%f32 = false) ->
  width_lhs x wm n w = w.
Proof.
  induction n as [|n IH]; intros w Hno; cbn [width_lhs]; [reflexivity|].
  rewrite Hno by lia. apply IH. intros j Hj. apply Hno. lia.
Qed.

Lemma width_lhs_first x wm l n : forall w,
  0 <= l < Z.of_nat n ->
  (forall j, l < j < Z.of_nat n -> (x.[j] <? wm)%f32 = false) ->
  (x.[l] <? wm)%f32 = true ->
  width_lhs x wm n w = w - l.
Proof.
  induction n as [|n IH]; intros w Hl Hno Hyes; cbn [width_lhs]; [lia|].
  destruct (decide (l = Z.of_nat n)) as [->|Hne]; [now rewrite Hyes|].
  rewrite Hno by lia. apply IH; try lia; [|exact Hyes].
  intros j Hj. apply Hno. lia.
Qed.

End WidthFacts.

(** X4. When no sample right of a candidate [i] lies below the level
    [x[i] - prominence / 2], [get_width] finds no right crossing and returns
    a value that is at most 0; under a width constraint ([width > 1]) the
    scan then drops the candidate, whatever lies to its left. *)
Theorem peak_without_right_crossing_dropped {F : Type} `{Float32 F} `{Float32Limits F}
        (x : list F) (length max_peaks : Z) (o : ifx_peak_search_opts_f32_t F)
        (i : Z) (s : peak_scan) :
  let half := (get_prominence x length i * f32_lit 5 10)%f32 in
  (forall j, i < j < length ->
     (load (f32_of_int 0) x j <? load (f32_of_int 0) x i - half)%f32 = false) ->
  get_width x length i half <= 0 /\
  (1 < width o -> peak_search_step x length max_peaks o i s = (s, Next)).
Proof.
  intros half Hno.
  assert (Hw : get_width x length i half <= 0).
  { unfold get_width. rewrite width_rhs_none by (intros j Hj; apply Hno; lia).
    apply width_lhs_le. }
  split; [exact Hw|]. intros Hwidth.
  destruct (peak_search_step_cases x length max_peaks o i s)
    as [E|(incr & _ & [_ Hacc] & _)]; [exact E|].
  specialize (Hacc Hwidth). fold half in Hacc. lia.
Qed.

Lemma peak_without_right_crossing_dropped_witness :
  (forall j, 3 < j < 7 ->
     (load (f32_of_int 0) (b32_samples [0; 1; 0; 5; 5; 5; 5]) j
      <? load (f32_of_int 0) (b32_samples [0; 1; 0; 5; 5; 5; 5]) 3
         - get_prominence (b32_samples [0; 1; 0; 5; 5; 5; 5]) 7 3 * f32_lit 5 10)%f32 = false) /\
  get_width (b32_samples [0; 1; 0; 5; 5; 5; 5]) 7 3
    (get_prominence (b32_samples [0; 1; 0; 5; 5; 5; 5]) 7 3 * f32_lit 5 10)%f32 <= 0.
Proof.
  assert (Hno : forall j, 3 < j < 7 ->
     (load (f32_of_int 0) (b32_samples [0; 1; 0; 5; 5; 5; 5]) j
      <? load (f32_of_int 0) (b32_samples [0; 1; 0; 5; 5; 5; 5]) 3
         - get_prominence (b32_samples [0; 1; 0; 5; 5; 5; 5]) 7 3 * f32_lit 5 10)%f32 = false).
  { intros j Hj.
    assert (Hc : j = 4 \/ j = 5 \/ j = 6) by lia.
    destruct Hc as [->|[->| ->]]; vm_compute; reflexivity. }
  split; [exact Hno|].
  apply (peak_without_right_crossing_dropped (b32_samples [0; 1; 0; 5; 5; 5; 5]) 7 5
           {| height := Binary32.of_int 0; threshold := Binary32.of_int 0;
              distance := 1; width := 2 |}
           3 {| peak_count := -1; last_peak_index := 0; peak_indices := ∅ |}).
  exact Hno.
Defined.

(** X5. When [r] is the first index right of the peak whose sample lies
    below the level [x[peak_index] - peak_prominence], [get_width] returns
    [r - l] if [l] is the nearest index left of the peak below that level,
    and [r] itself if no sample left of the peak is below it. *)
Theorem get_width_between_crossings {F : Type} `{Float32 F} `{Float32Limits F}
        (x : list F) (length peak_index r : Z) (peak_prominence : F) :
  let level := (load (f32_of_int 0) x peak_index - peak_prominence)%f32 in
  0 <= peak_index < r -> r < length ->
  (forall j, peak_index < j < r -> (load (f32_of_int 0) x j <? level)%f32 = false) ->
  (load (f32_of_int 0) x r <? level)%f32 = true ->
  (forall l, 0 <= l < peak_index ->
     (forall j, l < j < peak_index -> (load (f32_of_int 0) x j <? level)%f32 = false) ->
     (load (f32_of_int 0) x l <? level)%f32 = true ->
     get_width x length peak_index peak_prominence = r - l) /\
  ((forall j, 0 <= j < peak_index -> (load (f32_of_int 0) x j <? level)%f32 = false) ->
   get_width x length peak_index peak_prominence = r).
Proof.
  intros level Hp Hr Hno Hyes.
  assert (Hrhs : width_rhs x length level (Z.to_nat (length - (peak_index + 1)))
                   (peak_index + 1) = r).
  { apply width_rhs_first; try lia; [|exact Hyes]. intros j Hj. apply Hno. lia. }
  split.
  - intros l Hl Hlno Hlyes. unfold get_width. fold level. rewrite Hrhs.
    apply width_lhs_first; try lia; [|exact Hlyes].
    intros j Hj. apply Hlno. lia.
  - intros Hlno. unfold get_width. fold level. rewrite Hrhs.
    apply width_lhs_none. intros j Hj. apply Hlno. lia.
Qed.

Lemma get_width_between_crossings_witness :
  get_width (b32_samples [0; 1; 0; 5; 4; 0; 0]) 7 3 (Binary32.of_int 2) = 5 - 2.
Proof.
  assert (Hright : forall j, 3 < j < 5 ->
            (load (f32_of_int 0) (b32_samples [0; 1; 0; 5; 4; 0; 0]) j
             <? load (f32_of_int 0) (b32_samples [0; 1; 0; 5; 4; 0; 0]) 3
                - Binary32.of_int 2)%f32 = false).
  { intros j Hj. assert (j = 4) as -> by lia. vm_compute. reflexivity. }
  assert (Hleft : forall j, 2 < j < 3 ->
            (load (f32_of_int 0) (b32_samples [0; 1; 0; 5; 4; 0; 0]) j
             <? load (f32_of_int 0) (b32_samples [0; 1; 0; 5; 4; 0; 0]) 3
                - Binary32.of_int 2)%f32 = false).
  { intros j Hj. lia. }
  apply (proj1 (get_width_between_crossings (b32_samples [0; 1; 0; 5; 4; 0; 0]) 7 3 5
                  (Binary32.of_int 2) ltac:(lia) ltac:(lia) Hright eq_refl)
               2 ltac:(lia) Hleft eq_refl).
Defined.

(** ** Peak search: the prominence in exact arithmetic *)

Section ProminenceExact.

Local Notation "x .[ i ]" := (load (f32_of_int 0) x i) (at level 1, format "x .[ i ]").

Lemma prominence_lhs_le (x : list R) (peak_val : R) n : forall m,
  (prominence_lhs x peak_val n m <= m)%R.
Proof.
  induction n as [|n IH]; intros m; cbn [prominence_lhs]; [lra|].
  cbn [f32_ltb exact].
  destruct (Rlt_dec peak_val _); [lra|].
  destruct (Rlt_dec _ m) as [Hlt|Hge]; [|apply IH].
  eapply Rle_trans; [apply IH|lra].
Qed.

Lemma prominence_rhs_le (x : list R) length (peak_val : R) fuel : forall i m,
  (prominence_rhs x length peak_val fuel i m <= m)%R.
Proof.
  induction fuel as [|fuel IH]; intros i m; cbn [prominence_rhs]; [lra|].
  destruct (i <? length); [|lra].
  cbn [f32_ltb exact].
  destruct (Rlt_dec peak_val _); [lra|].
  destruct (Rlt_dec _ m) as [Hlt|Hge]; [|apply IH].
  eapply Rle_trans; [apply IH|lra].
Qed.

End ProminenceExact.

(** X6. In exact arithmetic the prominence that [get_prominence] returns is
    never negative, at any index and for any input: both base values start
    at the peak value and only go down. *)
Theorem get_prominence_nonnegative (x : list R) (length peak_index : Z) :
  (0 <= get_prominence x length peak_index)%R.
Proof.
  unfold get_prominence. cbn zeta.
  set (pv := load (f32_of_int 0) x peak_index).
  pose proof (prominence_lhs_le x pv (Z.to_nat peak_index) pv) as Hl.
  pose proof (prominence_rhs_le x length pv (Z.to_nat (length - (peak_index + 1)))
                (peak_index + 1) pv) as Hr.
  cbn [f32_ltb f32_sub exact].
  destruct (Rlt_dec _ _); lra.
Qed.

(** ** Moving target indication: cells and frame *)

Section MTICells.
Context {F : Type} `{Float32 F}.

Local Notation "x .[ i ]" := (load (f32_of_int 0) x i) (at level 1, format "x .[ i ]").

(** A call on buffers that hold at least [len] cells, cell by cell. *)
Lemma ifx_mti_f32_cells (inst : ifx_mti_inst_f32 F) (h input out : list F) :
  historical_data inst = Some h ->
  0 <= len inst <= Z.of_nat (length h) ->
  len inst <= Z.of_nat (length out) ->
  (alpha inst >=? f32_of_int 0)%f32 = true ->
  (alpha inst <=? f32_of_int 1)%f32 = true ->
  exists h' out',
    ifx_mti_f32 inst (Some input) (Some out)
    = Done ({| len := len inst; alpha := alpha inst; historical_data := Some h' |}, out') /\
    length h' = length h /\ length out' = length out /\
    (forall i, 0 <= i ->
       out'.[i] = if i <? len inst then (input.[i] - h.[i])%f32 else out.[i]) /\
    (forall i, 0 <= i ->
       h'.[i] = if i <? len inst then (h.[i] + alpha inst * out'.[i])%f32 else h.[i]).
Proof.
  intros Hh Hlh Hlo Ha0 Ha1. unfold ifx_mti_f32. rewrite Hh, Ha0, Ha1. cbn [negb].
  destruct (for_loop_store_0 (f32_of_int 0)
              (fun j (_ : list F) => (input.[j] - h.[j])%f32) (len inst) out)
    as [Hol Hov]; try lia; [reflexivity|].
  fold (arm_sub_f32 input h out (len inst)) in Hol, Hov.
  set (out' := arm_sub_f32 input h out (len inst)) in *.
  destruct (for_loop_store_0 (f32_of_int 0)
              (fun j m => (m.[j] + alpha inst * out'.[j])%f32) (len inst) h)
    as [Hl Hp]; try lia.
  { intros i m Hi Hm Hq. cbv beta. rewrite Hq by lia. reflexivity. }
  eexists _, out'. split; [reflexivity|]. split; [exact Hl|]. split; [exact Hol|].
  split; [exact Hov|exact Hp].
Qed.

End MTICells.

(** X7. On an instance whose history and output buffers hold at least
    [len] cells, [ifx_mti_f32] stops at an assertion exactly when [alpha] is
    not within [0, 1]; otherwise it leaves [len] and [alpha] of the instance
    as they were, keeps the sizes of both buffers, and changes no cell of
    the history or of the output at an index of [len] or above. *)
Theorem mti_f32_frame {F : Type} `{Float32 F}
        (inst : ifx_mti_inst_f32 F) (h input out : list F) :
  historical_data inst = Some h ->
  0 <= len inst <= Z.of_nat (length h) ->
  len inst <= Z.of_nat (length out) ->
  match ifx_mti_f32 inst (Some input) (Some out) with
  | AssertionFailed =>
      (alpha inst >=? f32_of_int 0)%f32 = false \/ (alpha inst <=? f32_of_int 1)%f32 = false
  | Done (inst', out') =>
      (alpha inst >=? f32_of_int 0)%f32 = true /\ (alpha inst <=? f32_of_int 1)%f32 = true /\
      len inst' = len inst /\ alpha inst' = alpha inst /\
      length out' = length out /\
      (forall p, len inst <= p -> load (f32_of_int 0) out' p = load (f32_of_int 0) out p) /\
      exists h', historical_data inst' = Some h' /\ length h' = length h /\
        forall p, len inst <= p -> load (f32_of_int 0) h' p = load (f32_of_int 0) h p
  end.
Proof.
  intros Hh Hlh Hlo.
  destruct (f32_leb (f32_of_int 0) (alpha inst)) eqn:Ha0.
  - destruct (f32_leb (alpha inst) (f32_of_int 1)) eqn:Ha1.
    + destruct (ifx_mti_f32_cells inst h input out Hh Hlh Hlo Ha0 Ha1)
        as (h' & out' & -> & Hl & Hol & Hov & Hp).
      cbn [len alpha historical_data].
      split; [reflexivity|]. split; [reflexivity|]. split; [reflexivity|].
      split; [reflexivity|]. split; [exact Hol|]. split.
      * intros p Hp0. rewrite Hov by lia.
        now rewrite (proj2 (Z.ltb_ge p (len inst))) by lia.
      * exists h'. split; [reflexivity|]. split; [exact Hl|].
        intros p Hp0. rewrite Hp by lia.
        now rewrite (proj2 (Z.ltb_ge p (len inst))) by lia.
    + unfold ifx_mti_f32. rewrite Hh, Ha0, Ha1. cbn [negb]. now right.
  - unfold ifx_mti_f32. rewrite Hh, Ha0. cbn [negb]. now left.
Qed.

Lemma mti_f32_frame_witness :
  exists inst' out',
    ifx_mti_f32 {| len := 2; alpha := Binary32.lit 5 10;
                   historical_data := Some (b32_samples [1; 2; 3]) |}
      (Some (b32_samples [4; 5; 6])) (Some (b32_samples [7; 8; 9]))
    = Done (inst', out') /\
    length out' = 3%nat /\ load (f32_of_int 0) out' 2 = Binary32.of_int 9.
Proof.
  pose proof (mti_f32_frame {| len := 2; alpha := Binary32.lit 5 10;
                               historical_data := Some (b32_samples [1; 2; 3]) |}
                (b32_samples [1; 2; 3]) (b32_samples [4; 5; 6]) (b32_samples [7; 8; 9])
                eq_refl ltac:(cbn; lia) ltac:(cbn; lia)) as Hthm.
  destruct (ifx_mti_f32 _ _ _) as [[inst' out']|] eqn:E.
  - exists inst', out'. split; [reflexivity|].
    destruct Hthm as (_ & _ & _ & _ & Hol & Hov & _). split; [exact Hol|].
    apply (Hov 2). cbn. lia.
  - exfalso. destruct Hthm as [Hthm|Hthm]; vm_compute in Hthm; discriminate.
Defined.

(** ** Moving target indication in single precision *)

Lemma b32_sub_zero (a : spec_float) : (a - S754_zero false)%f32 = a.
Proof. destruct a as [[|]| | |s m e]; reflexivity. Qed.

(** X8. In single precision: once [ifx_mti_init_f32] has completed, the
    first call of [ifx_mti_f32] with an [alpha] within [0, 1] returns the
    input unchanged, bit for bit, in the first [len] cells of the output:
    the zeroed history is subtracted exactly. *)
Theorem mti_first_call_returns_input
        (inst0 : option (ifx_mti_inst_f32 spec_float)) (a : spec_float) (n : Z)
        (buf input out : list spec_float) (inst : ifx_mti_inst_f32 spec_float) :
  0 <= n <= Z.of_nat (length buf) -> n <= Z.of_nat (length out) ->
  ifx_mti_init_f32 inst0 a n (Some buf) = Done inst ->
  (a >=? f32_of_int 0)%f32 = true -> (a <=? f32_of_int 1)%f32 = true ->
  exists inst' out',
    ifx_mti_f32 inst (Some input) (Some out) = Done (inst', out') /\
    length out' = length out /\
    forall i, 0 <= i < n -> load (f32_of_int 0) out' i = load (f32_of_int 0) input i.
Proof.
  intros Hn Hout Hinit Ha0 Ha1.
  destruct (ifx_mti_init_f32_done inst0 a n buf inst Hn Hinit)
    as (Hlen & Halpha & h & Hh & Hhl & Hz).
  destruct (ifx_mti_f32_cells inst h input out Hh) as (h' & out' & E & _ & Hol & Hov & _);
    rewrite ?Hlen, ?Halpha, ?Hhl; try assumption; try lia.
  eexists _, out'. split; [exact E|]. split; [exact Hol|].
  intros i Hi. rewrite Hov by lia. rewrite Hlen.
  rewrite (proj2 (Z.ltb_lt i n)) by lia. rewrite Hz by lia.
  apply b32_sub_zero.
Qed.

Lemma mti_first_call_returns_input_witness :
  exists inst inst' out',
    ifx_mti_init_f32
      (Some {| len := 0; alpha := Binary32.of_int 0; historical_data := Some [] |})
      (Binary32.lit 1 10) 3 (Some (b32_samples [9; 9; 9])) = Done inst /\
    ifx_mti_f32 inst (Some (b32_samples [4; 5; 6])) (Some (b32_samples [0; 0; 0]))
    = Done (inst', out') /\
    load (f32_of_int 0) out' 1 = Binary32.of_int 5.
Proof.
  eexists. 
  destruct (mti_first_call_returns_input
              (Some {| len := 0; alpha := Binary32.of_int 0; historical_data := Some [] |})
              (Binary32.lit 1 10) 3 (b32_samples [9; 9; 9]) (b32_samples [4; 5; 6])
              (b32_samples [0; 0; 0]) _
              ltac:(cbn; lia) ltac:(cbn; lia) eq_refl eq_refl eq_refl)
    as (inst' & out' & E & _ & Hov).
  exists inst', out'. split; [reflexivity|]. split; [exact E|].
  apply (Hov 1). lia.
Defined.

(** ** Rotation as an operation on lists *)

Section ListFacts.
Context {A : Type}.

Lemma lookup_load (d : A) (l : list A) (j : nat) :
  (j < length l)%nat -> l !! j = Some (load d l (Z.of_nat j)).
Proof.
  intros Hj. unfold load. rewrite Nat2Z.id.
  destruct (lookup_lt_is_Some_2 l j Hj) as [a Ha]. rewrite Ha.
  f_equal. symmetry. rewrite nth_lookup, Ha. reflexivity.
Qed.

(** Two arrays of one size that agree cell by cell are equal. *)
Lemma list_eq_load (d : A) (a b : list A) :
  length a = length b ->
  (forall p, 0 <= p < Z.of_nat (length a) -> load d a p = load d b p) ->
  a = b.
Proof.
  intros Hl Hp. apply list_eq. intros j.
  destruct (Nat.lt_ge_cases j (length a)) as [Hj|Hj].
  - rewrite (lookup_load d a j), (lookup_load d b j) by lia. f_equal. apply Hp. lia.
  - rewrite !lookup_ge_None_2 by lia. reflexivity.
Qed.

Lemma lookup_slice (d : A) (mem : list A) off n (j : nat) :
  0 <= off -> 0 <= n -> off + n <= Z.of_nat (length mem) -> (j < Z.to_nat n)%nat ->
  slice mem off n !! j = Some (load d mem (off + Z.of_nat j)).
Proof.
  intros Hoff Hn Hfit Hj. unfold slice.
  rewrite lookup_take_lt by lia. rewrite lookup_drop.
  rewrite (lookup_load d) by lia. f_equal. f_equal. lia.
Qed.

Lemma length_slice_nat (mem : list A) off n :
  0 <= off -> 0 <= n -> off + n <= Z.of_nat (length mem) ->
  length (slice mem off n) = Z.to_nat n.
Proof. intros. unfold slice. rewrite length_take, length_drop. lia. Qed.

End ListFacts.

(** X9. [ifx_rotate_f32] on the [len >= 1] floats at offset [v] of a memory
    that holds them: the result is the memory with that window rotated [k]
    places to the left as a list, and with everything before and after the
    window as it was; the result is a permutation of the memory. *)
Theorem rotate_f32_rotates_window {F : Type} `{Float32 F} (mem : list F) (v len k : Z) :
  0 <= v -> 1 <= len < 2 ^ 32 -> v + len <= Z.of_nat (length mem) -> 0 <= k ->
  ifx_rotate_f32 mem v len k
  = take (Z.to_nat v) mem ++ rotate (Z.to_nat k) (slice mem v len)
      ++ drop (Z.to_nat (v + len)) mem /\
  Permutation (ifx_rotate_f32 mem v len k) mem.
Proof.
  intros Hv Hlen Hfit Hk.
  destruct (ifx_rotate_f32_spec mem v len k Hv Hlen Hfit Hk) as [Hl Hp].
  assert (Heq : ifx_rotate_f32 mem v len k
                = take (Z.to_nat v) mem ++ rotate (Z.to_nat k) (slice mem v len)
                    ++ drop (Z.to_nat (v + len)) mem).
  { apply list_eq. intros j.
    destruct (Nat.lt_ge_cases j (length mem)) as [Hj|Hj].
    - rewrite (lookup_load (f32_of_int 0)) by lia. rewrite Hp by lia.
      destruct (Nat.lt_ge_cases j (Z.to_nat v)) as [Hjv|Hjv].
      + replace ((v <=? Z.of_nat j) && (Z.of_nat j <? v + len))
          with false by (symmetry; apply andb_false_intro1, Z.leb_gt; lia).
        rewrite lookup_app_l by (rewrite length_take; lia).
        rewrite lookup_take_lt by lia. now rewrite (lookup_load (f32_of_int 0)) by lia.
      + rewrite lookup_app_r by (rewrite length_take; lia).
        rewrite length_take, Nat.min_l by lia.
        destruct (Nat.lt_ge_cases j (Z.to_nat (v + len))) as [Hjw|Hjw].
        * replace ((v <=? Z.of_nat j) && (Z.of_nat j <? v + len))
            with true
            by (symmetry; apply andb_true_intro; split; [apply Z.leb_le|apply Z.ltb_lt]; lia).
          rewrite lookup_app_l by (rewrite length_rotate, length_slice_nat; lia).
          rewrite lookup_rotate_r by (rewrite length_slice_nat; lia).
          rewrite length_slice_nat by lia. unfold rotate_nat_add.
          pose proof (Z.mod_pos_bound (Z.of_nat (Z.to_nat k) + Z.of_nat (j - Z.to_nat v))
                        (Z.of_nat (Z.to_nat len)) ltac:(lia)) as Hm.
          rewrite (lookup_slice (f32_of_int 0)) by lia.
          rewrite Z2Nat.id by lia. f_equal. f_equal. f_equal.
          rewrite !Z2Nat.id by lia. f_equal. lia.
        * replace ((v <=? Z.of_nat j) && (Z.of_nat j <? v + len))
            with false by (symmetry; apply andb_false_intro2, Z.ltb_ge; lia).
          rewrite lookup_app_r by (rewrite length_rotate, length_slice_nat; lia).
          rewrite length_rotate, length_slice_nat by lia.
          rewrite lookup_drop. rewrite (lookup_load (f32_of_int 0)) by lia.
          f_equal. f_equal. lia.
    - rewrite lookup_ge_None_2 by lia. symmetry. apply lookup_ge_None_2.
      rewrite !length_app, length_take, length_rotate, length_drop, length_slice_nat by lia.
      lia. }
  split; [exact Heq|]. rewrite Heq.
  rewrite <- (take_drop (Z.to_nat v) mem) at 4.
  apply Permutation_app_head.
  assert (Hd : drop (Z.to_nat v) mem
               = slice mem v len ++ drop (Z.to_nat (v + len)) mem).
  { unfold slice. replace (Z.to_nat (v + len)) with (Z.to_nat v + Z.to_nat len)%nat by lia.
    rewrite <- drop_drop. symmetry. apply take_drop. }
  rewrite Hd. apply Permutation_app_tail. unfold rotate.
  rewrite Permutation_app_comm, take_drop. reflexivity.
Qed.

Lemma rotate_f32_rotates_window_witness :
  ifx_rotate_f32 (b32_samples [9; 1; 2; 3; 8]) 1 3 1 = b32_samples [9; 2; 3; 1; 8].
Proof.
  rewrite (proj1 (rotate_f32_rotates_window (b32_samples [9; 1; 2; 3; 8]) 1 3 1
                    ltac:(lia) ltac:(lia) ltac:(cbn; lia) ltac:(lia))).
  reflexivity.
Defined.

(** X10. The result of [ifx_rotate_f32] depends on [k] only modulo [len]:
    [j] further full turns change nothing, and a rotation by a multiple of
    [len] returns the memory as it was. *)
Theorem rotate_f32_full_turns {F : Type} `{Float32 F} (mem : list F) (v len k j : Z) :
  0 <= v -> 1 <= len < 2 ^ 32 -> v + len <= Z.of_nat (length mem) -> 0 <= k -> 0 <= j ->
  ifx_rotate_f32 mem v len (k + j * len) = ifx_rotate_f32 mem v len k /\
  ifx_rotate_f32 mem v len (j * len) = mem.
Proof.
  intros Hv Hlen Hfit Hk Hj.
  assert (Hturn : forall k', 0 <= k' ->
            ifx_rotate_f32 mem v len (k' + j * len) = ifx_rotate_f32 mem v len k').
  { intros k' Hk'.
    destruct (ifx_rotate_f32_spec mem v len k' Hv Hlen Hfit Hk') as [Hl Hp].
    destruct (ifx_rotate_f32_spec mem v len (k' + j * len) Hv Hlen Hfit ltac:(nia))
      as [Hl' Hp'].
    apply (list_eq_load (f32_of_int 0)); [congruence|].
    intros p Hp0. rewrite Hp, Hp' by lia.
    destruct ((v <=? p) && (p <? v + len)); [|reflexivity].
    replace (p - v + (k' + j * len)) with (p - v + k' + j * len) by lia.
    now rewrite Z.mod_add by lia. }
  split; [now apply Hturn|].
  rewrite <- (Z.add_0_l (j * len)). rewrite Hturn by lia. reflexivity.
Qed.

Lemma rotate_f32_full_turns_witness :
  ifx_rotate_f32 (b32_samples [9; 1; 2; 3; 8]) 1 3 (2 * 3) = b32_samples [9; 1; 2; 3; 8].
Proof.
  apply (proj2 (rotate_f32_full_turns (b32_samples [9; 1; 2; 3; 8]) 1 3 0 2
                  ltac:(lia) ltac:(lia) ltac:(cbn; lia) ltac:(lia) ltac:(lia))).
Defined.

(** ** The shift applied twice *)

Section ShiftTwice.
Context {F : Type} `{Float32 F}.

Local Notation "x .[ i ]" := (load (f32_of_int 0) x i) (at level 1, format "x .[ i ]").

Lemma shifted_compose (mem m1 m2 : list F) v len K1 K2 dim :
  0 < len -> 0 <= K1 -> 0 <= K2 ->
  shifted mem v len K1 dim m1 -> shifted m1 v len K2 dim m2 ->
  shifted mem v len (K1 + K2) dim m2.
Proof.
  intros Hlen HK1 HK2 (Hl1 & Hrows1 & Hrest1) (Hl2 & Hrows2 & Hrest2).
  split; [congruence|]. split.
  - intros row j Hrow Hj. rewrite Hrows2 by lia.
    pose proof (Z.mod_pos_bound (j + K2) (2 * len) ltac:(lia)).
    rewrite Hrows1 by lia. f_equal. f_equal.
    rewrite Z.add_mod_idemp_l by lia. f_equal. lia.
  - intros p Hp Hout. rewrite Hrest2, Hrest1 by assumption. reflexivity.
Qed.

(** Rows turned by a whole number [s] of complex elements. *)
Lemma shifted_complex_row (mem m : list F) v len s dim row :
  0 < len -> 0 <= s -> 0 <= row < dim ->
  shifted mem v len (2 * s) dim m ->
  complex_row m (v + row * len) len
  = rotate (Z.to_nat s) (complex_row mem (v + row * len) len).
Proof.
  intros Hlen Hs Hrow (Hl & Hrows & Hrest).
  apply list_eq. intros j.
  destruct (Nat.lt_ge_cases j (Z.to_nat len)) as [Hj|Hj].
  - rewrite lookup_complex_row, lookup_rotate_r by (rewrite ?length_complex_row; lia).
    rewrite length_complex_row. unfold rotate_nat_add.
    pose proof (Z.mod_pos_bound (Z.of_nat (Z.to_nat s) + Z.of_nat j)
                  (Z.of_nat (Z.to_nat len)) ltac:(lia)) as Hm.
    rewrite lookup_complex_row by lia.
    rewrite !Z2Nat.id in * by lia.
    f_equal. f_equal.
    + replace (2 * (v + row * len + Z.of_nat j))
        with (2 * (v + row * len) + (2 * Z.of_nat j + 0)) by lia.
      rewrite Hrows by lia.
      replace (2 * Z.of_nat j + 0 + 2 * s) with (2 * (s + Z.of_nat j) + 0) by lia.
      rewrite mod_pair by lia. f_equal. lia.
    + replace (2 * (v + row * len + Z.of_nat j) + 1)
        with (2 * (v + row * len) + (2 * Z.of_nat j + 1)) by lia.
      rewrite Hrows by lia.
      replace (2 * Z.of_nat j + 1 + 2 * s) with (2 * (s + Z.of_nat j) + 1) by lia.
      rewrite mod_pair by lia. f_equal. lia.
  - rewrite !lookup_ge_None_2; [reflexivity| |];
      rewrite ?length_rotate, length_complex_row; lia.
Qed.

(** Rows turned by a full turn are the rows as they were. *)
Lemma shifted_full_turn (mem m : list F) v len dim :
  0 <= v -> 0 < len -> 0 <= dim ->
  shifted mem v len (2 * len) dim m -> m = mem.
Proof.
  intros Hv Hlen Hdim (Hl & Hrows & Hrest).
  apply (list_eq_load (f32_of_int 0)); [exact Hl|].
  intros p Hp.
  destruct (Z_lt_ge_dec p (2 * v)) as [Hlo|Hlo]; [apply Hrest; lia|].
  destruct (Z_lt_ge_dec p (2 * (v + dim * len))) as [Hhi|Hhi]; [|apply Hrest; lia].
  pose proof (Z.div_mod (p - 2 * v) (2 * len) ltac:(lia)) as Hdm.
  pose proof (Z.mod_pos_bound (p - 2 * v) (2 * len) ltac:(lia)) as Hm.
  set (row := (p - 2 * v) / (2 * len)) in *.
  set (j := (p - 2 * v) mod (2 * len)) in *.
  assert (Hrow : 0 <= row < dim).
  { split; [apply Z.div_pos; lia|].
    apply Z.div_lt_upper_bound; [lia|]. nia. }
  replace p with (2 * (v + row * len) + j) by lia.
  rewrite Hrows by lia. f_equal. f_equal.
  replace (j + 2 * len) with (j + 1 * (2 * len)) by lia.
  rewrite Z.mod_add by lia. apply Z.mod_small. lia.
Qed.

End ShiftTwice.

(** X11. [ifx_shift_cfft_f32] applied twice: for an even [len] the second
    call undoes the first and the memory is as it was; for an odd [len] it
    does not, every row is left turned by one complex element (and nothing
    outside the rows changes). *)
Theorem shift_cfft_twice {F : Type} `{Float32 F} (mem : list F) (v len dim : Z) :
  0 <= v -> 0 < len -> 2 * len < 2 ^ 32 -> 0 <= dim ->
  2 * (v + len * dim) <= Z.of_nat (length mem) ->
  let twice := ifx_shift_cfft_f32 (ifx_shift_cfft_f32 mem v len dim) v len dim in
  (len mod 2 = 0 -> twice = mem) /\
  (len mod 2 = 1 ->
   length twice = length mem /\
   (forall row, 0 <= row < dim ->
      complex_row twice (v + row * len) len
      = rotate 1 (complex_row mem (v + row * len) len)) /\
   (forall p, 0 <= p -> p < 2 * v \/ 2 * (v + dim * len) <= p ->
      load (f32_of_int 0) twice p = load (f32_of_int 0) mem p)).
Proof.
  intros Hv Hlen Hfit32 Hdim Hfit twice.
  pose proof (ifx_shift_cfft_f32_shifted mem v len dim Hv Hlen Hfit32 Hdim Hfit) as H1.
  set (once := ifx_shift_cfft_f32 mem v len dim) in *.
  assert (Hl1 : length once = length mem) by apply H1.
  pose proof (ifx_shift_cfft_f32_shifted once v len dim Hv Hlen Hfit32 Hdim
                ltac:(rewrite Hl1; exact Hfit)) as H2.
  fold twice in H2.
  set (K := if len mod 2 =? 1 then len + 1 else len) in *.
  assert (HK0 : 0 <= K) by (subst K; destruct (len mod 2 =? 1); lia).
  pose proof (shifted_compose mem once twice v len K K dim Hlen HK0 HK0 H1 H2) as H12.
  split.
  - intros Heven.
    assert (HK : K + K = 2 * len).
    { subst K. rewrite Heven. cbn. lia. }
    rewrite HK in H12. now apply (shifted_full_turn mem twice v len dim).
  - intros Hodd.
    assert (HK : K = len + 1).
    { subst K. rewrite Hodd. reflexivity. }
    assert (H12' : shifted mem v len (2 * 1) dim twice).
    { destruct H12 as (Hl & Hrows & Hrest). split; [exact Hl|]. split; [|exact Hrest].
      intros row j Hrow Hj. rewrite Hrows by assumption. f_equal. f_equal.
      replace (j + (K + K)) with (j + 2 * 1 + 1 * (2 * len)) by lia.
      now rewrite Z.mod_add by lia. }
    split; [apply H12'|]. split; [|apply H12'].
    intros row Hrow.
    apply (shifted_complex_row mem twice v len 1 dim row); try lia. exact H12'.
Qed.

Lemma shift_cfft_twice_witness :
  ifx_shift_cfft_f32 (ifx_shift_cfft_f32 (b32_samples [1; 2; 3; 4; 5; 6; 7; 8]) 0 2 2) 0 2 2
  = b32_samples [1; 2; 3; 4; 5; 6; 7; 8] /\
  complex_row
    (ifx_shift_cfft_f32 (ifx_shift_cfft_f32 (b32_samples [1; 2; 3; 4; 5; 6]) 0 3 1) 0 3 1) 0 3
  = rotate 1 (complex_row (b32_samples [1; 2; 3; 4; 5; 6]) 0 3).
Proof.
  split.
  - apply (proj1 (shift_cfft_twice (b32_samples [1; 2; 3; 4; 5; 6; 7; 8]) 0 2 2
                    ltac:(lia) ltac:(lia) ltac:(lia) ltac:(lia) ltac:(cbn; lia))).
    reflexivity.
  - destruct (proj2 (shift_cfft_twice (b32_samples [1; 2; 3; 4; 5; 6]) 0 3 1
                       ltac:(lia) ltac:(lia) ltac:(lia) ltac:(lia) ltac:(cbn; lia))
                    eq_refl) as (_ & Hrows & _).
    apply (Hrows 0). lia.
Defined.

(** ** Mean removal *)

Section MeanRemovalFacts.
Context {F : Type} `{Float32 F}.

Local Notation "x .[ i ]" := (load (f32_of_int 0) x i) (at level 1, format "x .[ i ]").

(** The second loop of [ifx_cmplx_mean_removal_f32] for any pair [sum]:
    inside the memory every cell of the row loses its part of [sum]. *)
Lemma cmplx_subtract_cells (mem : list F) (v len : Z) (sum : F * F) :
  0 <= v -> 0 <= len -> 2 * (v + len) <= Z.of_nat (length mem) ->
  let r := for_loop len
             (fun j m =>
                let m := store m (2 * (v + j)) (m.[2 * (v + j)] - fst sum)%f32 in
                store m (2 * (v + j) + 1) (m.[2 * (v + j) + 1] - snd sum)%f32)
             mem in
  length r = length mem /\
  forall j, 0 <= j < len ->
    r.[2 * (v + j)] = (mem.[2 * (v + j)] - fst sum)%f32 /\
    r.[2 * (v + j) + 1] = (mem.[2 * (v + j) + 1] - snd sum)%f32.
Proof.
  intros Hv Hlen Hfit r. subst r.
  apply (for_loop_ind
           (fun k m =>
              (length m = length mem /\
               forall p, 2 * (v + k) <= p -> m.[p] = mem.[p]) /\
              (length m = length mem /\
               forall j, 0 <= j < k ->
                 m.[2 * (v + j)] = (mem.[2 * (v + j)] - fst sum)%f32 /\
                 m.[2 * (v + j) + 1] = (mem.[2 * (v + j) + 1] - snd sum)%f32))).
  - split; (split; [reflexivity|]); [reflexivity|intros; lia].
  - intros k m Hk [[Hl Hhigh] [_ Hlow]].
    assert (Hl1 : length (store m (2 * (v + k)) (m.[2 * (v + k)] - fst sum)%f32) = length mem)
      by (rewrite length_store; exact Hl).
    split; (split; [rewrite !length_store; exact Hl|]).
    + intros p Hp. rewrite !load_store_ne by lia. apply Hhigh. lia.
    + intros j Hj. destruct (Z.eq_dec j k) as [->|Hne].
      * split.
        -- rewrite load_store_ne by lia. rewrite load_store_eq by lia.
           rewrite Hhigh by lia. reflexivity.
        -- rewrite load_store_eq by lia. rewrite load_store_ne by lia.
           rewrite Hhigh by lia. reflexivity.
      * rewrite !load_store_ne by lia. apply Hlow. lia.
  - exact Hlen.
Qed.

(** ... and outside the row nothing changes, inside the memory or not. *)
Lemma cmplx_subtract_frame (mem : list F) (v len : Z) (sum : F * F) :
  0 <= v ->
  let r := for_loop len
             (fun j m =>
                let m := store m (2 * (v + j)) (m.[2 * (v + j)] - fst sum)%f32 in
                store m (2 * (v + j) + 1) (m.[2 * (v + j) + 1] - snd sum)%f32)
             mem in
  length r = length mem /\
  forall p, 0 <= p -> p < 2 * v \/ 2 * (v + len) <= p -> r.[p] = mem.[p].
Proof.
  intros Hv r. subst r.
  destruct (Z_le_gt_dec len 0) as [Hle|Hgt].
  { rewrite for_loop_nonpos by lia. auto. }
  apply (for_loop_ind
           (fun k m =>
              length m = length mem /\
              forall p, 0 <= p -> p < 2 * v \/ 2 * (v + len) <= p -> m.[p] = mem.[p])).
  - auto.
  - intros k m Hk [Hl Hout]. split; [rewrite !length_store; exact Hl|].
    intros p Hp Hp'. rewrite !load_store_ne by lia. now apply Hout.
  - lia.
Qed.

End MeanRemovalFacts.

(** X12. Neither mean-removal function writes outside its row: with any
    backend, [ifx_mean_removal_f32] keeps the size of the memory and every
    float outside the [len] floats at [v]; [ifx_cmplx_mean_removal_f32]
    keeps the size and every float outside the [len] complex elements at
    complex offset [v]. *)
Theorem mean_removal_frame {F : Type} `{Float32 F} `{ArmBasicMath F}
        (mem : list F) (v len : Z) :
  0 <= v ->
  (length (ifx_mean_removal_f32 mem v len) = length mem /\
   forall p, 0 <= p -> p < v \/ v + len <= p ->
     load (f32_of_int 0) (ifx_mean_removal_f32 mem v len) p = load (f32_of_int 0) mem p) /\
  (length (ifx_cmplx_mean_removal_f32 mem v len) = length mem /\
   forall p, 0 <= p -> p < 2 * v \/ 2 * (v + len) <= p ->
     load (f32_of_int 0) (ifx_cmplx_mean_removal_f32 mem v len) p
     = load (f32_of_int 0) mem p).
Proof.
  intros Hv. split.
  - unfold ifx_mean_removal_f32. split; [apply length_blit|].
    intros p Hp Hout. rewrite load_blit by lia.
    replace ((v <=? p) && _ && _) with false; [reflexivity|].
    symmetry. destruct Hout.
    + rewrite (proj2 (Z.leb_gt v p)) by lia. reflexivity.
    + rewrite (proj2 (Z.ltb_ge p _)), andb_false_r by lia. reflexivity.
  - unfold ifx_cmplx_mean_removal_f32. apply cmplx_subtract_frame. exact Hv.
Qed.

Lemma mean_removal_frame_witness :
  load (f32_of_int 0) (ifx_cmplx_mean_removal_f32 (b32_samples [1; 2; 3; 4; 5; 6]) 1 1) 5
  = Binary32.of_int 6.
Proof.
  apply (proj2 (proj2 (mean_removal_frame (F := spec_float)
                         (b32_samples [1; 2; 3; 4; 5; 6]) 1 1 ltac:(lia))) 5); lia.
Defined.

(** ** Complex mean removal in exact arithmetic *)

Section MeanRemovalExact.

Local Notation "x .[ i ]" := (load (f32_of_int 0) x i) (at level 1, format "x .[ i ]").

Lemma fold_left_pair_sum {A} (f g : A -> R) (l : list A) : forall a b,
  fold_left (fun (s : R * R) i => let '(re, im) := s in ((re + f i)%R, (im + g i)%R)) l (a, b)
  = ((a + fold_right Rplus 0%R (map f l))%R, (b + fold_right Rplus 0%R (map g l))%R).
Proof.
  induction l as [|x l IH]; intros a b; cbn [fold_left map fold_right].
  - f_equal; lra.
  - rewrite IH. f_equal; lra.
Qed.

(** The sums of the first loop are the sums of the parts of the row. *)
Lemma cmplx_sum_row (mem : list R) (v len : Z) :
  for_loop len
    (fun j '(re, im) => ((re + mem.[2 * (v + j)])%f32, (im + mem.[2 * (v + j) + 1])%f32))
    (f32_lit 0 1, f32_lit 0 1)
  = (fold_right Rplus 0%R (map fst (complex_row mem v len)),
     fold_right Rplus 0%R (map snd (complex_row mem v len))).
Proof.
  unfold for_loop, complex_row. rewrite !map_map. cbn [fst snd].
  cbn [f32_add f32_lit exact].
  rewrite (fold_left_pair_sum (fun j => mem.[2 * (v + Z.of_nat j)])
             (fun j => mem.[2 * (v + Z.of_nat j) + 1])).
  f_equal; lra.
Qed.

Lemma sum_map_minus {A} (f : A -> R) (c : R) (l : list A) :
  fold_right Rplus 0%R (map (fun a => (f a - c)%R) l)
  = (fold_right Rplus 0%R (map f l) - INR (length l) * c)%R.
Proof.
  induction l as [|x l IH]; [cbn; lra|].
  cbn [map fold_right length]. rewrite IH, S_INR. lra.
Qed.

(** The row after the call, element by element. *)
Lemma cmplx_mean_removal_row (mem : list R) (v len : Z) :
  0 <= v -> 0 <= len -> 2 * (v + len) <= Z.of_nat (length mem) ->
  let re := (fold_right Rplus 0%R (map fst (complex_row mem v len)) / IZR len)%R in
  let im := (fold_right Rplus 0%R (map snd (complex_row mem v len)) / IZR len)%R in
  complex_row (ifx_cmplx_mean_removal_f32 mem v len) v len
  = map (fun c => (fst c - re, snd c - im)%R) (complex_row mem v len).
Proof.
  intros Hv Hlen Hfit re im. unfold ifx_cmplx_mean_removal_f32.
  rewrite cmplx_sum_row. cbn [fst snd f32_sub f32_div exact].
  change (@f32_of_int R exact len) with (IZR len). fold re im.
  destruct (cmplx_subtract_cells mem v len (re, im) Hv Hlen Hfit) as [_ Hcells].
  cbn [fst snd f32_sub exact] in Hcells.
  unfold complex_row. rewrite map_map. apply map_ext_in.
  intros j Hj. apply in_seq in Hj. cbn [fst snd].
  destruct (Hcells (Z.of_nat j) ltac:(lia)) as [-> ->]. reflexivity.
Qed.

(** The parts of the row after the call sum to zero. *)
Lemma cmplx_mean_removal_sums (mem : list R) (v len : Z) :
  0 <= v -> 0 < len -> 2 * (v + len) <= Z.of_nat (length mem) ->
  let row := complex_row (ifx_cmplx_mean_removal_f32 mem v len) v len in
  fold_right Rplus 0%R (map fst row) = 0%R /\ fold_right Rplus 0%R (map snd row) = 0%R.
Proof.
  intros Hv Hlen Hfit row. subst row.
  rewrite cmplx_mean_removal_row by lia. rewrite !map_map. cbn [fst snd].
  rewrite (sum_map_minus fst), (sum_map_minus snd).
  rewrite length_complex_row, INR_IZR_INZ, Z2Nat.id by lia.
  assert (IZR len <> 0)%R by (apply not_0_IZR; lia).
  split; field; assumption.
Qed.

End MeanRemovalExact.

(** X13. In exact arithmetic, for a row of [len > 0] complex elements
    inside the memory: after [ifx_cmplx_mean_removal_f32] the real parts of
    the row sum to zero, and so do the imaginary parts. *)
Theorem cmplx_mean_removal_zero_mean (mem : list R) (v len : Z) :
  0 <= v -> 0 < len -> 2 * (v + len) <= Z.of_nat (length mem) ->
  let row := complex_row (ifx_cmplx_mean_removal_f32 mem v len) v len in
  fold_right Rplus 0%R (map fst row) = 0%R /\ fold_right Rplus 0%R (map snd row) = 0%R.
Proof. exact (cmplx_mean_removal_sums mem v len). Qed.

Lemma cmplx_mean_removal_zero_mean_witness :
  fold_right Rplus 0%R
    (map fst (complex_row (ifx_cmplx_mean_removal_f32 [1; 5; 3; 7]%R 0 2) 0 2)) = 0%R.
Proof.
  apply (cmplx_mean_removal_zero_mean [1; 5; 3; 7]%R 0 2); cbn; lia.
Defined.

(** X14. In exact arithmetic [ifx_cmplx_mean_removal_f32] is idempotent on
    a row of [len > 0] complex elements inside the memory: a second call
    changes nothing. *)
Theorem cmplx_mean_removal_idempotent (mem : list R) (v len : Z) :
  0 <= v -> 0 < len -> 2 * (v + len) <= Z.of_nat (length mem) ->
  ifx_cmplx_mean_removal_f32 (ifx_cmplx_mean_removal_f32 mem v len) v len
  = ifx_cmplx_mean_removal_f32 mem v len.
Proof.
  intros Hv Hlen Hfit.
  destruct (cmplx_mean_removal_sums mem v len Hv Hlen Hfit) as [Hre Him].
  set (once := ifx_cmplx_mean_removal_f32 mem v len) in *.
  assert (Hl : length once = length mem).
  { apply (cmplx_subtract_frame mem v len). exact Hv. }
  unfold ifx_cmplx_mean_removal_f32 at 1. rewrite cmplx_sum_row, Hre, Him.
  cbn [fst snd f32_sub f32_div exact].
  change (@f32_of_int R exact len) with (IZR len).
  destruct (cmplx_subtract_cells once v len (0 / IZR len, 0 / IZR len)%R Hv ltac:(lia)
              ltac:(rewrite Hl; exact Hfit)) as [Hl2 Hcells].
  destruct (cmplx_subtract_frame once v len (0 / IZR len, 0 / IZR len)%R Hv) as [_ Hout].
  apply (list_eq_load (f32_of_int 0)); [exact Hl2|].
  intros p Hp.
  destruct (Z_lt_ge_dec p (2 * v)) as [Hlo|Hlo]; [apply Hout; lia|].
  destruct (Z_lt_ge_dec p (2 * (v + len))) as [Hhi|Hhi]; [|apply Hout; lia].
  pose proof (Z.div_mod (p - 2 * v) 2 ltac:(lia)) as Hdm.
  pose proof (Z.mod_pos_bound (p - 2 * v) 2 ltac:(lia)) as Hm.
  destruct (Hcells ((p - 2 * v) / 2) ltac:(lia)) as [He Ho].
  cbn [fst snd f32_sub exact] in He, Ho.
  assert (Hc : (p - 2 * v) mod 2 = 0 \/ (p - 2 * v) mod 2 = 1) by lia.
  destruct Hc as [Hc|Hc].
  - replace p with (2 * (v + (p - 2 * v) / 2)) by lia. rewrite He. lra.
  - replace p with (2 * (v + (p - 2 * v) / 2) + 1) by lia. rewrite Ho. lra.
Qed.

Lemma cmplx_mean_removal_idempotent_witness :
  ifx_cmplx_mean_removal_f32 (ifx_cmplx_mean_removal_f32 [1; 5; 3; 7]%R 0 2) 0 2
  = ifx_cmplx_mean_removal_f32 [1; 5; 3; 7]%R 0 2.
Proof.
  apply (cmplx_mean_removal_idempotent [1; 5; 3; 7]%R 0 2); cbn; lia.
Defined.

(** ** The transforms: error path and frame *)

Lemma arm_status_eqb_eq (a b : arm_status) : arm_status_eqb a b = true <-> a = b.
Proof.
  unfold arm_status_eqb. rewrite Z.eqb_eq.
  split; [|now intros ->]. destruct a, b; cbn; intros E; try reflexivity; discriminate.
Qed.

Lemma load_blit_outside {A} (d : A) (m : list A) off n data p :
  0 <= off -> 0 <= p -> p < off \/ off + n <= p ->
  load d (blit m off n data) p = load d m p.
Proof.
  intros Hoff Hp Hout. rewrite load_blit by lia.
  replace ((off <=? p) && _ && _) with false; [reflexivity|].
  symmetry. destruct Hout.
  - rewrite (proj2 (Z.leb_gt off p)) by lia. reflexivity.
  - rewrite (proj2 (Z.ltb_ge p _)), andb_false_r by lia. reflexivity.
Qed.

Section TransformFacts.
Context {F : Type} `{Float32 F} `{ArmBasicMath F} `{ArmTransform F} `{ArmMatrix F}.

Local Notation "x .[ i ]" := (load (f32_of_int 0) x i) (at level 1, format "x .[ i ]").

Lemma cfft_row_frame cfft mr win n (m : list F) v :
  0 <= v -> 0 <= n ->
  snd (cfft_row cfft mr win n (m, v)) = v + n /\
  length (fst (cfft_row cfft mr win n (m, v))) = length m /\
  forall p, 0 <= p -> p < 2 * v \/ 2 * (v + n) <= p ->
    (fst (cfft_row cfft mr win n (m, v))).[p] = m.[p].
Proof.
  intros Hv Hn. unfold cfft_row. cbn [fst snd].
  split; [reflexivity|].
  set (m1 := if mr then ifx_cmplx_mean_removal_f32 m v n else m).
  assert (Hm1 : length m1 = length m /\
               forall p, 0 <= p -> p < 2 * v \/ 2 * (v + n) <= p -> m1.[p] = m.[p]).
  { subst m1. destruct mr; [|auto].
    unfold ifx_cmplx_mean_removal_f32. now apply cmplx_subtract_frame. }
  set (m2 := match win with
             | Some w => blit m1 (2 * v) (2 * n)
                           (arm_cmplx_mult_real_f32 (slice m1 (2 * v) (2 * n)) w)
             | None => m1
             end).
  assert (Hm2 : length m2 = length m /\
               forall p, 0 <= p -> p < 2 * v \/ 2 * (v + n) <= p -> m2.[p] = m.[p]).
  { subst m2. destruct win as [w|]; [|exact Hm1].
    split; [rewrite length_blit; apply Hm1|].
    intros p Hp Hout. rewrite load_blit_outside by lia. now apply Hm1. }
  split; [rewrite length_blit; apply Hm2|].
  intros p Hp Hout. rewrite load_blit_outside by lia. now apply Hm2.
Qed.

Lemma cfft_rows_frame cfft mr win n rows (m0 : list F) :
  0 <= n -> 0 <= rows ->
  let r := for_loop rows (fun _ : Z => cfft_row cfft mr win n) (m0, 0) in
  length (fst r) = length m0 /\
  forall p, 2 * (n * rows) <= p -> (fst r).[p] = m0.[p].
Proof.
  intros Hn Hrows r. subst r.
  apply (for_loop_ind
           (fun k t => snd t = k * n /\ length (fst t) = length m0 /\
                       forall p, 2 * (n * k) <= p -> (fst t).[p] = m0.[p])).
  - cbn. auto.
  - intros k [m v] Hk (Hptr & Hl & Hhigh). cbn [fst snd] in *. subst v.
    destruct (cfft_row_frame cfft mr win n m (k * n)) as (Hv' & Hl' & Hout); try nia.
    split; [rewrite Hv'; lia|]. split; [congruence|].
    intros p Hp. rewrite Hout by nia. apply Hhigh. nia.
  - exact Hrows.
Qed.

Lemma range_fft_chirp_frame rfft mr win n (fm rm : list F) fp rp :
  0 <= fp -> 0 <= n ->
  let t := range_fft_chirp rfft mr win n (fm, rm, fp, rp) in
  snd (fst t) = fp + n /\
  length (fst (fst (fst t))) = length fm /\
  forall p, 0 <= p -> p < fp \/ fp + n <= p -> (fst (fst (fst t))).[p] = fm.[p].
Proof.
  intros Hfp Hn t. subst t. unfold range_fft_chirp.
  set (m1 := if mr then ifx_mean_removal_f32 fm fp n else fm).
  assert (Hm1 : length m1 = length fm /\
               forall p, 0 <= p -> p < fp \/ fp + n <= p -> m1.[p] = fm.[p]).
  { subst m1. destruct mr; [|auto]. unfold ifx_mean_removal_f32.
    split; [apply length_blit|]. intros p Hp Hout. now apply load_blit_outside. }
  set (m2 := match win with
             | Some w => blit m1 fp n (arm_mult_f32 (slice m1 fp n) w)
             | None => m1
             end).
  assert (Hm2 : length m2 = length fm /\
               forall p, 0 <= p -> p < fp \/ fp + n <= p -> m2.[p] = fm.[p]).
  { subst m2. destruct win as [w|]; [|exact Hm1].
    split; [rewrite length_blit; apply Hm1|].
    intros p Hp Hout. rewrite load_blit_outside by lia. now apply Hm1. }
  destruct (arm_rfft_fast_f32 rfft (slice m2 fp n)) as [src dst]. cbn [fst snd].
  split; [reflexivity|]. split; [rewrite length_blit; apply Hm2|].
  intros p Hp Hout. rewrite load_blit_outside by lia. now apply Hm2.
Qed.

Lemma range_fft_chirps_frame rfft mr win n rows (frame range : list F) :
  0 <= n -> 0 <= rows ->
  let r := for_loop rows (fun _ : Z => range_fft_chirp rfft mr win n) (frame, range, 0, 0) in
  length (fst (fst (fst r))) = length frame /\
  forall p, n * rows <= p -> (fst (fst (fst r))).[p] = frame.[p].
Proof.
  intros Hn Hrows r. subst r.
  apply (for_loop_ind
           (fun k t => snd (fst t) = k * n /\ length (fst (fst (fst t))) = length frame /\
                       forall p, n * k <= p -> (fst (fst (fst t))).[p] = frame.[p])).
  - cbn. auto.
  - intros k [[[fm rm] fp] rp] Hk (Hptr & Hl & Hhigh). cbn [fst snd] in *. subst fp.
    destruct (range_fft_chirp_frame rfft mr win n fm rm (k * n) rp) as (Hv' & Hl' & Hout);
      try nia.
    split; [rewrite Hv'; lia|]. split; [congruence|].
    intros p Hp. rewrite Hout by nia. apply Hhigh. nia.
  - exact Hrows.
Qed.

End TransformFacts.

(** X15. Each of the three transform entry points returns the success code
    exactly when the request for its plan succeeded (a cached plan or a
    successful initialisation), and [IFX_SENSOR_DSP_ARGUMENT_ERROR]
    otherwise; on the error path every buffer is returned as it was passed.
    No other status of the backend shows in the result: that of the matrix
    transposition in [ifx_doppler_cfft_f32] is dropped. *)
Theorem transform_error_path {F : Type} `{Float32 F} `{ArmBasicMath F}
        `{ArmTransform F} `{ArmMatrix F}
        (st : statics) (a b : list F) (mr : bool) (win : option (list F)) (n rows : Z) :
  (let r := ifx_range_fft_f32 st a b mr win n rows in
   let status := fst (fst (plan_for fftLenRFFT arm_rfft_fast_init_f32 (range_fft_rfft st) n)) in
   (fst (fst (fst r)) = IFX_SENSOR_DSP_STATUS_OK <-> status = ARM_MATH_SUCCESS) /\
   (fst (fst (fst r)) <> IFX_SENSOR_DSP_STATUS_OK ->
    fst (fst (fst r)) = IFX_SENSOR_DSP_ARGUMENT_ERROR /\ snd (fst r) = a /\ snd r = b)) /\
  (let r := ifx_range_cfft_f32 st a mr win n rows in
   let status := fst (fst (plan_for fftLen arm_cfft_init_f32 (range_cfft_cfft st) n)) in
   (fst (fst r) = IFX_SENSOR_DSP_STATUS_OK <-> status = ARM_MATH_SUCCESS) /\
   (fst (fst r) <> IFX_SENSOR_DSP_STATUS_OK ->
    fst (fst r) = IFX_SENSOR_DSP_ARGUMENT_ERROR /\ snd r = a)) /\
  (let r := ifx_doppler_cfft_f32 st a b mr win rows n in
   let status := fst (fst (plan_for fftLen arm_cfft_init_f32 (doppler_cfft_cfft st) n)) in
   (fst (fst r) = IFX_SENSOR_DSP_STATUS_OK <-> status = ARM_MATH_SUCCESS) /\
   (fst (fst r) <> IFX_SENSOR_DSP_STATUS_OK ->
    fst (fst r) = IFX_SENSOR_DSP_ARGUMENT_ERROR /\ snd r = b)).
Proof.
  split; [|split]; cbn zeta.
  - unfold ifx_range_fft_f32.
    destruct (plan_for _ _ _ n) as [[status rfft] inits]. cbn [fst].
    destruct (arm_status_eqb status ARM_MATH_SUCCESS) eqn:E; cbn [negb].
    + destruct (for_loop _ _ _) as [[[fm rm] ?] ?]. cbn [fst snd].
      apply arm_status_eqb_eq in E. split; [tauto|]. intros Hne. now contradiction Hne.
    + cbn [fst snd]. split; [|auto]. split; [discriminate|].
      intros Hs. apply arm_status_eqb_eq in Hs. congruence.
  - unfold ifx_range_cfft_f32.
    destruct (plan_for _ _ _ n) as [[status cfft] inits]. cbn [fst].
    destruct (arm_status_eqb status ARM_MATH_SUCCESS) eqn:E; cbn [negb].
    + destruct (for_loop _ _ _) as [fm ?]. cbn [fst snd].
      apply arm_status_eqb_eq in E. split; [tauto|]. intros Hne. now contradiction Hne.
    + cbn [fst snd]. split; [|auto]. split; [discriminate|].
      intros Hs. apply arm_status_eqb_eq in Hs. congruence.
  - unfold ifx_doppler_cfft_f32.
    destruct (plan_for _ _ _ n) as [[status cfft] inits]. cbn [fst].
    destruct (arm_status_eqb status ARM_MATH_SUCCESS) eqn:E; cbn [negb].
    + destruct (for_loop _ _ _) as [fm ?]. cbn [fst snd].
      apply arm_status_eqb_eq in E. split; [tauto|]. intros Hne. now contradiction Hne.
    + cbn [fst snd]. split; [|auto]. split; [discriminate|].
      intros Hs. apply arm_status_eqb_eq in Hs. congruence.
Qed.

Lemma transform_error_path_witness :
  fst (fst (ifx_range_cfft_f32 no_plans (b32_samples [1; 2; 3; 4]) false None 3 1))
  = IFX_SENSOR_DSP_ARGUMENT_ERROR /\
  snd (ifx_range_cfft_f32 no_plans (b32_samples [1; 2; 3; 4]) false None 3 1)
  = b32_samples [1; 2; 3; 4].
Proof.
  apply (proj2 (proj1 (proj2 (transform_error_path no_plans (b32_samples [1; 2; 3; 4])
                                [] false None 3 1)))).
  vm_compute. congruence.
Defined.

(** X16. With any backend, for [n >= 0] and [rows >= 0]: the in-place
    transforms keep the size of the buffer they work on and write nothing
    at or above the end of the rows.  For [ifx_range_fft_f32] that is the
    input [frame] above [n * rows] floats, for [ifx_range_cfft_f32] the
    frame above [n * rows] complex elements, and for [ifx_doppler_cfft_f32]
    the output of the backend's transposition above [n * rows] complex
    elements. *)
Theorem transform_in_place_frame {F : Type} `{Float32 F} `{ArmBasicMath F}
        `{ArmTransform F} `{ArmMatrix F}
        (st : statics) (a b : list F) (mr : bool) (win : option (list F)) (n rows : Z) :
  0 <= n -> 0 <= rows ->
  (let a' := snd (fst (ifx_range_fft_f32 st a b mr win n rows)) in
   length a' = length a /\
   forall p, n * rows <= p -> load (f32_of_int 0) a' p = load (f32_of_int 0) a p) /\
  (let a' := snd (ifx_range_cfft_f32 st a mr win n rows) in
   length a' = length a /\
   forall p, 2 * (n * rows) <= p -> load (f32_of_int 0) a' p = load (f32_of_int 0) a p) /\
  (let r := ifx_doppler_cfft_f32 st a b mr win rows n in
   let transposed :=
     pData (snd (arm_mat_cmplx_trans_f32
                   {| numRows := n; numCols := rows; pData := a |}
                   {| numRows := rows; numCols := n; pData := b |})) in
   fst (fst r) = IFX_SENSOR_DSP_STATUS_OK ->
   length (snd r) = length transposed /\
   forall p, 2 * (n * rows) <= p ->
     load (f32_of_int 0) (snd r) p = load (f32_of_int 0) transposed p).
Proof.
  intros Hn Hrows. split; [|split]; cbn zeta.
  - unfold ifx_range_fft_f32.
    destruct (plan_for _ _ _ n) as [[status rfft] inits].
    destruct (negb _); [cbn [fst snd]; auto|].
    pose proof (range_fft_chirps_frame rfft mr win n rows a b Hn Hrows) as Hf.
    cbn zeta in Hf. destruct (for_loop _ _ _) as [[[fm rm] ?] ?]. exact Hf.
  - unfold ifx_range_cfft_f32.
    destruct (plan_for _ _ _ n) as [[status cfft] inits].
    destruct (negb _); [cbn [fst snd]; auto|].
    pose proof (cfft_rows_frame cfft mr win n rows a Hn Hrows) as Hf.
    cbn zeta in Hf. destruct (for_loop _ _ _) as [fm ?]. exact Hf.
  - unfold ifx_doppler_cfft_f32.
    destruct (plan_for _ _ _ n) as [[status cfft] inits].
    destruct (negb _); [discriminate|].
    match goal with
    | |- context [for_loop rows _ (?t, 0)] =>
        pose proof (cfft_rows_frame cfft mr win n rows t Hn Hrows) as Hf
    end.
    cbn zeta in Hf. destruct (for_loop _ _ _) as [fm ?]. intros _. exact Hf.
Qed.

Lemma transform_in_place_frame_witness :
  load (f32_of_int 0)
    (snd (ifx_range_cfft_f32 no_plans (b32_samples (map Z.of_nat (seq 1 34)))
            false None 16 1)) 33
  = Binary32.of_int 34.
Proof.
  rewrite (proj2 (proj1 (proj2 (transform_in_place_frame no_plans
                                  (b32_samples (map Z.of_nat (seq 1 34))) [] false None 16 1
                                  ltac:(lia) ltac:(lia)))) 33) by lia.
  reflexivity.
Defined.

(** ** The arcsine on the exact backend *)

(** X17. In exact arithmetic, with the square root and the two-argument
    arctangent of the reals as the backend: [ifx_arcsin_f32] always reports
    success; for [-1 < x < 1] its result is the arcsine of [x], an angle
    strictly between [-pi/2] and [pi/2] whose sine is [x]; from 1 on and
    from -1 down it is the constant 1.570796370506 with the sign of [x].
    The old contents of the result cell never show. *)
Theorem arcsin_exact_is_asin (x result : R) :
  fst (ifx_arcsin_f32 x result) = ARM_MATH_SUCCESS /\
  ((-1 < x < 1)%R ->
   snd (ifx_arcsin_f32 x result) = asin x /\
   sin (snd (ifx_arcsin_f32 x result)) = x /\
   (- (Rtrigo1.PI / 2) < snd (ifx_arcsin_f32 x result) < Rtrigo1.PI / 2)%R) /\
  ((1 <= x)%R -> snd (ifx_arcsin_f32 x result) = PI_2_F32) /\
  ((x <= -1)%R -> snd (ifx_arcsin_f32 x result) = (- PI_2_F32)%R).
Proof.
  unfold ifx_arcsin_f32.
  cbn [f32_leb f32_lit f32_neg f32_sub f32_mul exact].
  destruct (Rle_dec (1 / 1) x) as [Hhi|Hhi].
  { cbn [fst snd]. split; [reflexivity|]. split; [intros; lra|]. split; [reflexivity|].
    intros; lra. }
  destruct (Rle_dec x (- (1 / 1))) as [Hlo|Hlo].
  { cbn [fst snd]. split; [reflexivity|]. split; [intros; lra|]. split; [intros; lra|].
    reflexivity. }
  assert (Hx : (-1 < x < 1)%R) by lra.
  assert (Hrad : (0 < 1 / 1 - x * x)%R) by nra.
  cbn [arm_sqrt_f32 exact_fast_math].
  destruct (Rle_dec 0 (1 / 1 - x * x)) as [_|Hneg]; [|lra].
  cbn [arm_status_eqb arm_status_value Z.eqb fst snd default].
  unfold Datatypes.id.
  pose proof (sqrt_lt_R0 _ Hrad) as Hy.
  cbn [arm_atan2_f32 exact_fast_math].
  destruct (Rlt_dec 0 (sqrt (1 / 1 - x * x))) as [_|Hn]; [|lra].
  cbn [fst snd default]. unfold Datatypes.id.
  assert (Hasin : atan (x / sqrt (1 / 1 - x * x)) = asin x).
  { rewrite asin_atan by exact Hx. unfold Rsqr. do 3 f_equal. lra. }
  rewrite Hasin.
  split; [reflexivity|]. split; [|split; intros; lra].
  intros _. split; [reflexivity|]. split; [apply sin_asin; lra|].
  apply asin_bound_lt. exact Hx.
Qed.

Lemma arcsin_exact_is_asin_witness :
  (-1 < 1 / 2 < 1)%R /\ sin (snd (ifx_arcsin_f32 (1 / 2)%R 0%R)) = (1 / 2)%R.
Proof.
  assert (Hx : (-1 < 1 / 2 < 1)%R) by lra.
  split; [exact Hx|].
  apply (proj1 (proj2 (arcsin_exact_is_asin (1 / 2)%R 0%R)) Hx).
Defined.

(** ** The monopulse angle: frame and status *)

Section MonopulseFrame.
Context {F : Type} `{Float32 F} `{ArmFastMath F}.

Local Notation "x .[ i ]" := (load (f32_of_int 0) x i) (at level 1, format "x .[ i ]").

(** One sample: a single cell of [angle] is written, and the three
    statuses of the backend are or-ed into the status word. *)
Lemma monopulse_step_effect rx1 rx2 TWO_PI ratio i s :
  let c1 := load (f32_lit 0 1, f32_lit 0 1) rx1 i in
  let c2 := load (f32_lit 0 1, f32_lit 0 1) rx2 i in
  exists a s3,
    l_angle (monopulse_step rx1 rx2 TWO_PI ratio i s) = store (l_angle s) i a /\
    l_status (monopulse_step rx1 rx2 TWO_PI ratio i s)
    = or_status (or_status (or_status (l_status s)
                              (fst (arm_atan2_f32 (snd c1) (fst c1))))
                   (fst (arm_atan2_f32 (snd c2) (fst c2)))) s3.
Proof.
  intros c1 c2. subst c1 c2. unfold monopulse_step.
  destruct (arm_atan2_f32 (snd (load _ rx1 i)) _) as [s1 a1].
  destruct (arm_atan2_f32 (snd (load _ rx2 i)) _) as [s2 a2].
  destruct (ifx_arcsin_f32 _ _) as [s3 a]. cbn [l_angle l_status fst].
  exists a, s3. split; reflexivity.
Qed.

Lemma monopulse_loop_effect rx1 rx2 TWO_PI ratio size s0 :
  0 <= size ->
  let s := for_loop size (monopulse_step rx1 rx2 TWO_PI ratio) s0 in
  length (l_angle s) = length (l_angle s0) /\
  (forall p, size <= p -> (l_angle s).[p] = (l_angle s0).[p]) /\
  (l_status s = 0 ->
   l_status s0 = 0 /\
   forall i, 0 <= i < size ->
     fst (arm_atan2_f32 (snd (load (f32_lit 0 1, f32_lit 0 1) rx1 i))
            (fst (load (f32_lit 0 1, f32_lit 0 1) rx1 i))) = ARM_MATH_SUCCESS /\
     fst (arm_atan2_f32 (snd (load (f32_lit 0 1, f32_lit 0 1) rx2 i))
            (fst (load (f32_lit 0 1, f32_lit 0 1) rx2 i))) = ARM_MATH_SUCCESS).
Proof.
  intros Hsize s. subst s.
  apply (for_loop_ind (fun k s =>
    length (l_angle s) = length (l_angle s0) /\
    (forall p, k <= p -> (l_angle s).[p] = (l_angle s0).[p]) /\
    (l_status s = 0 ->
     l_status s0 = 0 /\
     forall i, 0 <= i < k ->
       fst (arm_atan2_f32 (snd (load (f32_lit 0 1, f32_lit 0 1) rx1 i))
              (fst (load (f32_lit 0 1, f32_lit 0 1) rx1 i))) = ARM_MATH_SUCCESS /\
       fst (arm_atan2_f32 (snd (load (f32_lit 0 1, f32_lit 0 1) rx2 i))
              (fst (load (f32_lit 0 1, f32_lit 0 1) rx2 i))) = ARM_MATH_SUCCESS)));
    [| |exact Hsize].
  - split; [reflexivity|]. split; [reflexivity|]. intros Hs. split; [exact Hs|intros; lia].
  - intros k s Hk (Hl & Hhigh & Hst).
    destruct (monopulse_step_effect rx1 rx2 TWO_PI ratio k s) as (a & s3 & Ha & Hs).
    rewrite Ha, Hs. split; [now rewrite length_store|]. split.
    + intros p Hp. rewrite load_store_ne by lia. apply Hhigh. lia.
    + intros Hz. apply or_status_0 in Hz as [Hz _].
      apply or_status_0 in Hz as [Hz Hb2]. apply or_status_0 in Hz as [Hz Hb1].
      destruct (Hst Hz) as [Hz0 Hall]. split; [exact Hz0|].
      intros i Hi. destruct (Z.eq_dec i k) as [->|Hne]; [split; assumption|].
      apply Hall. lia.
Qed.

End MonopulseFrame.

(** X18. With non-NULL pointers [ifx_angle_monopulse_f32] stops at an
    assertion exactly when [size <= 0] or the wavelength or the antenna
    spacing fails the test [> 0]; when it completes, with any backend, the
    output array keeps its size and no cell at index [size] or above is
    changed. *)
Theorem monopulse_assertions_and_frame {F : Type} `{Float32 F} `{ArmFastMath F}
        (rx1 rx2 : list (F * F)) (size : Z) (wavelength antenna_spacing : F)
        (angle : list F) :
  (ifx_angle_monopulse_f32 (Some rx1) (Some rx2) size wavelength antenna_spacing (Some angle)
   = AssertionFailed <->
   size <= 0 \/ (wavelength >? f32_of_int 0)%f32 = false
   \/ (antenna_spacing >? f32_of_int 0)%f32 = false) /\
  (forall st out,
     ifx_angle_monopulse_f32 (Some rx1) (Some rx2) size wavelength antenna_spacing
       (Some angle) = Done (st, out) ->
     length out = length angle /\
     forall p, size <= p -> load (f32_of_int 0) out p = load (f32_of_int 0) angle p).
Proof.
  unfold ifx_angle_monopulse_f32.
  destruct (0 <? size) eqn:Es; cbn [negb].
  - apply Z.ltb_lt in Es.
    destruct (f32_ltb (f32_of_int 0) wavelength) eqn:Ew; cbn [negb].
    + destruct (f32_ltb (f32_of_int 0) antenna_spacing) eqn:Ea; cbn [negb].
      * split.
        -- split; [discriminate|]. intros [?|[?|?]]; [lia|discriminate..].
        -- intros st out [= <- <-].
           match goal with
           | |- context [for_loop size (monopulse_step rx1 rx2 ?T ?r) ?s0] =>
               destruct (monopulse_loop_effect rx1 rx2 T r size s0 ltac:(lia))
                 as (Hl & Hhigh & _)
           end.
           cbn [l_angle] in Hl, Hhigh. split; [exact Hl|exact Hhigh].
      * split; [|discriminate]. split; auto.
    + split; [|discriminate]. split; auto.
  - apply Z.ltb_ge in Es. split; [|discriminate]. split; auto.
Qed.

Lemma monopulse_assertions_and_frame_witness :
  exists st out,
    ifx_angle_monopulse_f32 (F := spec_float)
      (Some [(Binary32.of_int 1, Binary32.of_int 0)])
      (Some [(Binary32.of_int 1, Binary32.of_int 0)]) 1
      (Binary32.of_int 5) (Binary32.of_int 2)
      (Some (b32_samples [7; 8])) = Done (st, out) /\
    load (f32_of_int 0) out 1 = Binary32.of_int 8.
Proof.
  destruct (ifx_angle_monopulse_f32 (F := spec_float)
      (Some [(Binary32.of_int 1, Binary32.of_int 0)])
      (Some [(Binary32.of_int 1, Binary32.of_int 0)]) 1
      (Binary32.of_int 5) (Binary32.of_int 2)
      (Some (b32_samples [7; 8]))) as [[st out]|] eqn:E; [|vm_compute in E; discriminate].
  exists st, out. split; [reflexivity|].
  rewrite (proj2 (proj2 (monopulse_assertions_and_frame (F := spec_float)
                           [(Binary32.of_int 1, Binary32.of_int 0)]
                           [(Binary32.of_int 1, Binary32.of_int 0)] 1
                           (Binary32.of_int 5) (Binary32.of_int 2)
                           (b32_samples [7; 8])) st out E) 1) by lia.
  reflexivity.
Defined.

(** X19. The status of [ifx_angle_monopulse_f32] is either
    [ARM_MATH_SUCCESS] or [ARM_MATH_ARGUMENT_ERROR], whatever the backend
    reported; and an error is never lost: if for some sample below [size]
    the backend's arctangent of either channel reports anything but
    success, the call returns [ARM_MATH_ARGUMENT_ERROR]. *)
Theorem monopulse_status_sticky {F : Type} `{Float32 F} `{ArmFastMath F}
        (rx1 rx2 : list (F * F)) (size : Z) (wavelength antenna_spacing : F)
        (angle : list F) (st : arm_status) (out : list F) :
  ifx_angle_monopulse_f32 (Some rx1) (Some rx2) size wavelength antenna_spacing (Some angle)
  = Done (st, out) ->
  (st = ARM_MATH_SUCCESS \/ st = ARM_MATH_ARGUMENT_ERROR) /\
  forall i, 0 <= i < size ->
    fst (arm_atan2_f32 (snd (load (f32_lit 0 1, f32_lit 0 1) rx1 i))
           (fst (load (f32_lit 0 1, f32_lit 0 1) rx1 i))) <> ARM_MATH_SUCCESS \/
    fst (arm_atan2_f32 (snd (load (f32_lit 0 1, f32_lit 0 1) rx2 i))
           (fst (load (f32_lit 0 1, f32_lit 0 1) rx2 i))) <> ARM_MATH_SUCCESS ->
    st = ARM_MATH_ARGUMENT_ERROR.
Proof.
  unfold ifx_angle_monopulse_f32.
  destruct (0 <? size) eqn:Es; cbn [negb]; [|discriminate]. apply Z.ltb_lt in Es.
  destruct (f32_ltb (f32_of_int 0) wavelength); cbn [negb]; [|discriminate].
  destruct (f32_ltb (f32_of_int 0) antenna_spacing); cbn [negb]; [|discriminate].
  intros [= <- <-].
  match goal with
  | |- context [for_loop size (monopulse_step rx1 rx2 ?T ?r) ?s0] =>
      destruct (monopulse_loop_effect rx1 rx2 T r size s0 ltac:(lia)) as (_ & _ & Hst);
      set (s := for_loop size (monopulse_step rx1 rx2 T r) s0) in *
  end.
  destruct (l_status s =? 0) eqn:E.
  - split; [now left|]. intros i Hi Hbad. apply Z.eqb_eq in E.
    destruct (Hst E) as [_ Hall]. destruct (Hall i Hi) as [Hb1 Hb2].
    destruct Hbad as [Hbad|Hbad]; contradiction.
  - split; [now right|]. reflexivity.
Qed.

Lemma monopulse_status_sticky_witness :
  fst (arm_atan2_f32 (F := spec_float) (Binary32.of_int 0) (Binary32.of_int 0))
  <> ARM_MATH_SUCCESS /\
  exists out,
    ifx_angle_monopulse_f32 (F := spec_float)
      (Some [(Binary32.of_int 1, Binary32.of_int 0); (Binary32.of_int 0, Binary32.of_int 0)])
      (Some [(Binary32.of_int 1, Binary32.of_int 0); (Binary32.of_int 1, Binary32.of_int 0)])
      2 (Binary32.of_int 5) (Binary32.of_int 2) (Some (b32_samples [7; 8]))
    = Done (ARM_MATH_ARGUMENT_ERROR, out).
Proof.
  assert (Hbad : fst (arm_atan2_f32 (F := spec_float) (Binary32.of_int 0) (Binary32.of_int 0))
                 <> ARM_MATH_SUCCESS) by (vm_compute; discriminate).
  split; [exact Hbad|].
  destruct (ifx_angle_monopulse_f32 (F := spec_float)
      (Some [(Binary32.of_int 1, Binary32.of_int 0); (Binary32.of_int 0, Binary32.of_int 0)])
      (Some [(Binary32.of_int 1, Binary32.of_int 0); (Binary32.of_int 1, Binary32.of_int 0)])
      2 (Binary32.of_int 5) (Binary32.of_int 2) (Some (b32_samples [7; 8])))
    as [[st out]|] eqn:E; [|vm_compute in E; discriminate].
  exists out. f_equal. f_equal.
  apply (proj2 (monopulse_status_sticky _ _ _ _ _ _ st out E) 1); [lia|].
  left. exact Hbad.
Defined.

(** ** The window generators *)

Section WindowFrame.
Context {F : Type} `{Float32 F} `{ArmTrig F}.

Local Notation "x .[ i ]" := (load (f32_of_int 0) x i) (at level 1, format "x .[ i ]").

(** A loop that stores [g n] in cell [n], on all cells at once. *)
Lemma window_fill_cells (g : Z -> F) (win : list F) len :
  0 <= len <= Z.of_nat (length win) ->
  let w := for_loop len (fun n win => store win n (g n)) win in
  length w = length win /\
  forall p, 0 <= p -> w.[p] = if p <? len then g p else win.[p].
Proof.
  intros Hlen. apply (for_loop_store_0 (f32_of_int 0) (fun n _ => g n)); try lia.
  reflexivity.
Qed.

End WindowFrame.

(** X20. [ifx_window_hamming_f32] and [ifx_window_blackmanharris_f32] stop
    at an assertion exactly when the pointer is NULL or [len <= 1]; on an
    array of at least [len] cells they keep its size and leave every cell
    at index [len] or above as it was, with any backend. *)
Theorem window_assertions_and_frame {F : Type} `{Float32 F} `{ArmTrig F}
        (win : option (list F)) (len : Z) :
  (ifx_window_hamming_f32 win len = AssertionFailed <-> win = None \/ len <= 1) /\
  (ifx_window_blackmanharris_f32 win len = AssertionFailed <-> win = None \/ len <= 1) /\
  (forall buf w, win = Some buf -> len <= Z.of_nat (length buf) ->
     ifx_window_hamming_f32 win len = Done w \/
     ifx_window_blackmanharris_f32 win len = Done w ->
     length w = length buf /\
     forall p, len <= p -> load (f32_of_int 0) w p = load (f32_of_int 0) buf p).
Proof.
  unfold ifx_window_hamming_f32, ifx_window_blackmanharris_f32.
  destruct win as [buf|].
  - destruct (1 <? len) eqn:E; cbn [negb].
    + apply Z.ltb_lt in E. split; [|split].
      * split; [discriminate|]. intros [?|?]; [discriminate|lia].
      * split; [discriminate|]. intros [?|?]; [discriminate|lia].
      * intros buf' w [= <-] Hlen [Hw|Hw]; injection Hw as <-;
          match goal with
          | |- context [for_loop len (fun n win => store win n (@?g n)) buf] =>
              destruct (window_fill_cells g buf len ltac:(lia)) as [Hl Hp]
          end;
          (split; [exact Hl|]); intros p Hp0; rewrite Hp by lia;
          now rewrite (proj2 (Z.ltb_ge p len)) by lia.
    + apply Z.ltb_ge in E. split; [|split].
      * split; auto.
      * split; auto.
      * intros buf' w _ _ [?|?]; discriminate.
  - split; [|split].
    + split; auto.
    + split; auto.
    + intros buf w; discriminate.
Qed.

Lemma window_assertions_and_frame_witness :
  exists w,
    ifx_window_hamming_f32 (F := R) (Some [7; 7; 7; 7]%R) 3 = Done w /\
    load (f32_of_int 0) w 3 = 7%R.
Proof.
  eexists. split; [reflexivity|].
  apply (proj2 (proj2 (window_assertions_and_frame (F := R) (Some [7; 7; 7; 7]%R) 3))
               [7; 7; 7; 7]%R _ eq_refl ltac:(cbn; lia) (or_introl eq_refl)).
  lia.
Defined.

(** ** The range of the window coefficients in exact arithmetic *)

Section WindowRange.

Lemma cos_3a (x : R) : cos (3 * x) = (4 * cos x * cos x * cos x - 3 * cos x)%R.
Proof.
  replace (3 * x)%R with (2 * x + x)%R by lra.
  rewrite cos_plus, cos_2a_cos, sin_2a.
  pose proof (sin2 x) as Hs. unfold Rsqr in Hs.
  replace (2 * sin x * cos x * sin x)%R with (2 * cos x * (sin x * sin x))%R by ring.
  rewrite Hs. ring.
Qed.

(** The Blackman-Harris sum as a polynomial in the cosine of the phase. *)
Lemma blackmanharris_range (c : R) :
  (-1 <= c <= 1)%R ->
  (6 / 100000
   <= 35875 / 100000 - 48829 / 100000 * c + 14128 / 100000 * (2 * c * c - 1)
      - 1168 / 100000 * (4 * c * c * c - 3 * c)
   <= 1)%R.
Proof.
  intros Hc.
  assert (Hq : (0 <= (1 - c) * (21741 / 100000 - 23584 / 100000 * c + 4672 / 100000 * (c * c)))%R).
  { apply Rmult_le_pos; [lra|]. nra. }
  assert (Hr : (0 <= (1 + c) * (78253 / 100000 - 32928 / 100000 * c + 4672 / 100000 * (c * c)))%R).
  { apply Rmult_le_pos; [lra|]. nra. }
  split; nra.
Qed.

Lemma window_phases (len i : Z) :
  1 < len ->
  let theta := (f32_lit 2 1 * f32_PI * f32_of_int i
                * (f32_lit 1 1 / (f32_of_int len - f32_lit 1 1)))%f32 in
  (f32_lit 4 1 * f32_PI * f32_of_int i * (f32_lit 1 1 / (f32_of_int len - f32_lit 1 1)))%f32
  = (2 * theta)%R /\
  (f32_lit 6 1 * f32_PI * f32_of_int i * (f32_lit 1 1 / (f32_of_int len - f32_lit 1 1)))%f32
  = (3 * theta)%R.
Proof.
  intros Hlen theta. subst theta.
  cbn [f32_lit f32_PI f32_of_int f32_mul f32_div f32_sub exact].
  assert (IZR len - 1 <> 0)%R.
  { apply Rgt_not_eq. apply IZR_lt in Hlen. lra. }
  split; field; lra.
Qed.

End WindowRange.

(** X21. In exact arithmetic, with the cosine of the reals as the backend,
    for every length [len > 1] and every index [i < len]: the Hamming
    coefficient lies in [0.08, 1] and the Blackman-Harris coefficient in
    [0.00006, 1]; the lower bounds are the values at index 0. *)
Theorem window_coefficient_range (win : list R) (len i : Z) :
  1 < len -> len <= Z.of_nat (length win) -> 0 <= i < len ->
  (exists w, ifx_window_hamming_f32 (Some win) len = Done w /\
     (8 / 100 <= load (f32_of_int 0) w i <= 1)%R /\
     load (f32_of_int 0) w 0 = (8 / 100)%R) /\
  (exists w, ifx_window_blackmanharris_f32 (Some win) len = Done w /\
     (6 / 100000 <= load (f32_of_int 0) w i <= 1)%R /\
     load (f32_of_int 0) w 0 = (6 / 100000)%R).
Proof.
  intros Hlen Hwin Hi.
  unfold ifx_window_hamming_f32, ifx_window_blackmanharris_f32.
  rewrite (proj2 (Z.ltb_lt 1 len) Hlen). cbn [negb].
  assert (Hzero : forall k : Z,
            cos (f32_lit k 1 * f32_PI * f32_of_int 0
                 * (f32_lit 1 1 / (f32_of_int len - f32_lit 1 1)))%f32 = 1%R).
  { intros k. cbn [f32_lit f32_PI f32_of_int f32_mul f32_div f32_sub exact].
    rewrite <- cos_0. f_equal. unfold Rdiv. ring. }
  split; (eexists; split; [reflexivity|]); rewrite !window_fill by lia;
    cbn [arm_cos_f32 exact_trig].
  - split.
    + match goal with |- context [cos ?t] => pose proof (COS_bound t) as Hc end.
      cbn [f32_lit f32_sub f32_mul exact] in *. lra.
    + rewrite Hzero. cbn [f32_lit f32_sub f32_mul exact]. lra.
  - split.
    + destruct (window_phases len i Hlen) as [-> ->].
      rewrite cos_2a_cos, cos_3a.
      match goal with |- context [cos ?t] => pose proof (COS_bound t) as Hc;
        pose proof (blackmanharris_range (cos t) Hc) as Hb end.
      unfold BLACKMANHARRIS_CONST_A0, BLACKMANHARRIS_CONST_A1,
        BLACKMANHARRIS_CONST_A2, BLACKMANHARRIS_CONST_A3.
      cbn [f32_lit f32_sub f32_add f32_mul exact] in *. lra.
    + rewrite !Hzero.
      unfold BLACKMANHARRIS_CONST_A0, BLACKMANHARRIS_CONST_A1,
        BLACKMANHARRIS_CONST_A2, BLACKMANHARRIS_CONST_A3.
      cbn [f32_lit f32_sub f32_add f32_mul exact]. lra.
Qed.

Lemma window_coefficient_range_witness :
  exists w, ifx_window_hamming_f32 (Some [0; 0; 0; 0]%R) 4 = Done w /\
    (8 / 100 <= load (f32_of_int 0) w 2 <= 1)%R.
Proof.
  destruct (proj1 (window_coefficient_range [0; 0; 0; 0]%R 4 2
                     ltac:(lia) ltac:(cbn; lia) ltac:(lia))) as (w & E & Hb & _).
  exists w. split; [exact E|exact Hb].
Defined.

(** ** The steering matrix *)

Section SteeringFacts.
Context {F : Type} `{Float32 F} `{ArmTrig F}.

Local Notation "x .[ i ]" := (load (f32_of_int 0) x i) (at level 1, format "x .[ i ]").

(** One row: the pointer moves on by [2 * num_ant] floats, which now hold
    the cosine and the sine of the phase of each antenna; nothing else
    changes. *)
Lemma steering_row_cells (coeff angle : F) (num_ant : Z) (m : list F) (p : Z) :
  0 <= p -> 0 <= num_ant -> p + 2 * num_ant <= Z.of_nat (length m) ->
  let r := steering_row coeff angle num_ant (m, p) in
  snd r = p + 2 * num_ant /\
  length (fst r) = length m /\
  (forall jj, 0 <= jj < num_ant ->
     (fst r).[p + 2 * jj] = arm_cos_f32 (coeff * f32_of_int jj * arm_sin_f32 angle)%f32 /\
     (fst r).[p + 2 * jj + 1] = arm_sin_f32 (coeff * f32_of_int jj * arm_sin_f32 angle)%f32) /\
  (forall q, 0 <= q -> q < p \/ p + 2 * num_ant <= q -> (fst r).[q] = m.[q]).
Proof.
  intros Hp Hn Hfit r. subst r. unfold steering_row.
  apply (for_loop_ind
           (fun j t =>
              snd t = p + 2 * j /\
              length (fst t) = length m /\
              (forall jj, 0 <= jj < j ->
                 (fst t).[p + 2 * jj]
                 = arm_cos_f32 (coeff * f32_of_int jj * arm_sin_f32 angle)%f32 /\
                 (fst t).[p + 2 * jj + 1]
                 = arm_sin_f32 (coeff * f32_of_int jj * arm_sin_f32 angle)%f32) /\
              (forall q, 0 <= q -> q < p \/ p + 2 * j <= q -> (fst t).[q] = m.[q])));
    [| |exact Hn].
  - cbn [fst snd]. split; [lia|]. split; [reflexivity|]. split; [intros; lia|reflexivity].
  - intros j [m' q'] Hj (Hptr & Hl & Hdone & Hrest). cbn [fst snd] in *. subst q'.
    split; [lia|]. split; [now rewrite !length_store|]. split.
    + intros jj Hjj. destruct (Z.eq_dec jj j) as [->|Hne].
      * split.
        -- rewrite load_store_ne by lia. apply load_store_eq. lia.
        -- replace (p + 2 * j + 1) with (p + 2 * j + 1) by lia.
           apply load_store_eq. rewrite length_store. lia.
      * rewrite !load_store_ne by lia. apply Hdone. lia.
    + intros q Hq Hout. rewrite !load_store_ne by lia. apply Hrest; lia.
Qed.

(** All rows. *)
Lemma steering_rows_cells (coeff range res : F) (num_angles num_ant : Z) (m : list F) :
  0 <= num_angles -> 0 <= num_ant ->
  2 * (num_angles * num_ant) <= Z.of_nat (length m) ->
  let r := for_loop num_angles
             (fun kk s =>
                steering_row coeff ((- range) + (f32_of_int kk * res))%f32 num_ant s)
             (m, 0) in
  length (fst r) = length m /\
  (forall kk jj, 0 <= kk < num_angles -> 0 <= jj < num_ant ->
     let phase :=
       (coeff * f32_of_int jj * arm_sin_f32 ((- range) + (f32_of_int kk * res)))%f32 in
     (fst r).[2 * (kk * num_ant + jj)] = arm_cos_f32 phase /\
     (fst r).[2 * (kk * num_ant + jj) + 1] = arm_sin_f32 phase) /\
  (forall q, 2 * (num_angles * num_ant) <= q -> (fst r).[q] = m.[q]).
Proof.
  intros Hna Hnt Hfit r. subst r.
  apply (for_loop_ind
           (fun k t =>
              snd t = 2 * (k * num_ant) /\
              length (fst t) = length m /\
              (forall kk jj, 0 <= kk < k -> 0 <= jj < num_ant ->
                 let phase :=
                   (coeff * f32_of_int jj
                    * arm_sin_f32 ((- range) + (f32_of_int kk * res)))%f32 in
                 (fst t).[2 * (kk * num_ant + jj)] = arm_cos_f32 phase /\
                 (fst t).[2 * (kk * num_ant + jj) + 1] = arm_sin_f32 phase) /\
              (forall q, 2 * (k * num_ant) <= q -> (fst t).[q] = m.[q])));
    [| |exact Hna].
  - cbn [fst snd]. split; [lia|]. split; [reflexivity|]. split; [intros; lia|reflexivity].
  - intros k [m' p] Hk (Hptr & Hl & Hdone & Hrest). cbn [fst snd] in *. subst p.
    assert (Hroom : k * num_ant + num_ant <= num_angles * num_ant) by nia.
    assert (Hk0 : 0 <= k * num_ant) by nia.
    destruct (steering_row_cells coeff ((- range) + (f32_of_int k * res))%f32 num_ant m'
                (2 * (k * num_ant))) as (Hptr' & Hl' & Hrow & Hout); try lia.
    split; [rewrite Hptr'; lia|]. split; [congruence|]. split.
    + intros kk jj Hkk Hjj. cbv zeta. cbv zeta in Hdone.
      destruct (Z.eq_dec kk k) as [->|Hne].
      * replace (2 * (k * num_ant + jj)) with (2 * (k * num_ant) + 2 * jj) by lia.
        now apply Hrow.
      * assert (kk * num_ant + num_ant <= k * num_ant) by nia.
        rewrite !Hout by nia. apply Hdone; lia.
    + intros q Hq. rewrite Hout by nia. apply Hrest. nia.
Qed.

(** The call as a whole once its assertions hold. *)
Lemma steering_matrix_done (range : F) (num_angles : Z) (spacing lambda : F) (num_ant : Z)
      (dst : arm_matrix_instance_f32' F) (data : list F) :
  (range >? f32_lit 0 1)%f32 = true ->
  (range <=? f32_PI / f32_lit 2 1)%f32 = true ->
  1 < num_angles -> 1 < num_ant ->
  pData' dst = Some data ->
  numCols' dst = num_ant -> numRows' dst = num_angles ->
  ifx_gen_steering_matrix_f32 range num_angles spacing lambda num_ant (Some dst)
  = Done {| numRows := numRows' dst; numCols := numCols' dst;
            pData :=
              fst (for_loop num_angles
                     (fun kk s =>
                        steering_row
                          ((- f32_lit 1 1) * f32_PI * ((f32_lit 2 1 * spacing) / lambda))%f32
                          ((- range)
                           + (f32_of_int kk
                              * ((f32_lit 2 1 * range)
                                 / (f32_of_int num_angles - f32_lit 1 1))))%f32
                          num_ant s)
                     (data, 0)) |}.
Proof.
  intros Hr0 Hr1 Hna Hnt Hdata Hc Hrw. unfold ifx_gen_steering_matrix_f32.
  rewrite Hr0, Hr1. cbn [negb].
  rewrite (proj2 (Z.ltb_lt 1 num_angles) Hna), (proj2 (Z.ltb_lt 1 num_ant) Hnt). cbn [negb].
  rewrite Hdata.
  rewrite (proj2 (Z.eqb_eq _ _) Hc), (proj2 (Z.eqb_eq _ _) Hrw). cbn [negb].
  destruct (for_loop _ _ _) as [mem p]. reflexivity.
Qed.

End SteeringFacts.

(** X22. [ifx_gen_steering_matrix_f32] completes exactly when the angle
    range passes the tests [> 0] and [<= PI / 2], both counts are above 1,
    neither the matrix pointer nor its data pointer is NULL and the matrix
    has [num_ant] columns and [num_angles] rows; when it completes on a
    matrix whose data holds the [2 * num_angles * num_ant] floats, the shape
    and the size of the data are kept and no float above them is changed. *)
Theorem steering_matrix_assertions_and_frame {F : Type} `{Float32 F} `{ArmTrig F}
        (range : F) (num_angles : Z) (spacing lambda : F) (num_ant : Z)
        (pDst : option (arm_matrix_instance_f32' F)) :
  ((exists d', ifx_gen_steering_matrix_f32 range num_angles spacing lambda num_ant pDst
               = Done d') <->
   (range >? f32_lit 0 1)%f32 = true /\ (range <=? f32_PI / f32_lit 2 1)%f32 = true /\
   1 < num_angles /\ 1 < num_ant /\
   exists dst data, pDst = Some dst /\ pData' dst = Some data /\
     numCols' dst = num_ant /\ numRows' dst = num_angles) /\
  (forall dst data d',
     pDst = Some dst -> pData' dst = Some data ->
     ifx_gen_steering_matrix_f32 range num_angles spacing lambda num_ant pDst = Done d' ->
     2 * (num_angles * num_ant) <= Z.of_nat (length data) ->
     numRows d' = numRows' dst /\ numCols d' = numCols' dst /\
     length (pData d') = length data /\
     forall q, 2 * (num_angles * num_ant) <= q ->
       load (f32_of_int 0) (pData d') q = load (f32_of_int 0) data q).
Proof.
  assert (Hconds :
    forall d', ifx_gen_steering_matrix_f32 range num_angles spacing lambda num_ant pDst
               = Done d' ->
    (range >? f32_lit 0 1)%f32 = true /\ (range <=? f32_PI / f32_lit 2 1)%f32 = true /\
    1 < num_angles /\ 1 < num_ant /\
    exists dst data, pDst = Some dst /\ pData' dst = Some data /\
      numCols' dst = num_ant /\ numRows' dst = num_angles).
  { intros d'. unfold ifx_gen_steering_matrix_f32.
    destruct (f32_ltb (f32_lit 0 1) range); cbn [negb]; [|discriminate].
    destruct (f32_leb range _); cbn [negb]; [|discriminate].
    destruct (1 <? num_angles) eqn:Ea; cbn [negb]; [|discriminate].
    destruct (1 <? num_ant) eqn:Et; cbn [negb]; [|discriminate].
    destruct pDst as [dst|]; [|discriminate].
    destruct (pData' dst) as [data|] eqn:Ed; [|discriminate].
    destruct (numCols' dst =? num_ant) eqn:Ec; cbn [negb]; [|discriminate].
    destruct (numRows' dst =? num_angles) eqn:Er; cbn [negb]; [|discriminate].
    intros _. apply Z.ltb_lt in Ea, Et. apply Z.eqb_eq in Ec, Er.
    repeat split; try assumption. exists dst, data. auto. }
  split.
  - split.
    + intros [d' E]. exact (Hconds d' E).
    + intros (Hr0 & Hr1 & Hna & Hnt & dst & data & -> & Hdata & Hc & Hrw).
      eexists. now apply (steering_matrix_done range num_angles spacing lambda num_ant dst data).
  - intros dst data d' -> Hdata E Hfit.
    destruct (Hconds d' E) as (Hr0 & Hr1 & Hna & Hnt & dst' & data' & [= <-] & Hd' & Hc & Hrw).
    rewrite (steering_matrix_done range num_angles spacing lambda num_ant dst data) in E
      by assumption.
    injection E as <-. cbn [numRows numCols pData].
    split; [reflexivity|]. split; [reflexivity|].
    match goal with
    | |- context [for_loop num_angles (fun kk s => steering_row ?c (_ + (_ * ?res))%f32 _ s) _] =>
        destruct (steering_rows_cells c range res num_angles num_ant data)
          as (Hl & _ & Hrest); try lia
    end.
    split; [exact Hl|exact Hrest].
Qed.

Lemma steering_matrix_assertions_and_frame_witness :
  (exists d',
     ifx_gen_steering_matrix_f32 (F := R) 1%R 2 1%R 2%R 2
       (Some {| numRows' := 2; numCols' := 2;
                pData' := Some [0; 0; 0; 0; 0; 0; 0; 0; 7]%R |})
     = Done d' /\
     load (f32_of_int 0) (pData d') 8 = 7%R) /\
  ifx_gen_steering_matrix_f32 (F := R) 1%R 2 1%R 2%R 2
    (Some {| numRows' := 2; numCols' := 2; pData' := None |})
  = AssertionFailed.
Proof.
  split.
  - assert (Hd : exists d',
      ifx_gen_steering_matrix_f32 (F := R) 1%R 2 1%R 2%R 2
        (Some {| numRows' := 2; numCols' := 2;
                 pData' := Some [0; 0; 0; 0; 0; 0; 0; 0; 7]%R |})
      = Done d').
    { apply (proj1 (steering_matrix_assertions_and_frame (F := R) 1%R 2 1%R 2%R 2
                      (Some {| numRows' := 2; numCols' := 2;
                               pData' := Some [0; 0; 0; 0; 0; 0; 0; 0; 7]%R |}))).
      pose proof PI_RGT_0. pose proof PI2_3_2.
      cbn [f32_ltb f32_leb f32_lit f32_div f32_PI exact].
      destruct (Rlt_dec (0 / 1) 1); [|lra].
      destruct (Rle_dec 1 (Rtrigo1.PI / (2 / 1))) as [|Hn];
        [|exfalso; apply Hn; unfold Rdiv in *; lra].
      repeat split; try lia. eexists _, _. repeat split. }
    destruct Hd as [d' E]. exists d'. split; [exact E|].
    rewrite (proj2 (proj2 (proj2 (proj2 (steering_matrix_assertions_and_frame (F := R)
               1%R 2 1%R 2%R 2
               (Some {| numRows' := 2; numCols' := 2;
                        pData' := Some [0; 0; 0; 0; 0; 0; 0; 0; 7]%R |}))
               _ _ d' eq_refl eq_refl E ltac:(cbn; lia)))) 8) by lia.
    reflexivity.
  - destruct (ifx_gen_steering_matrix_f32 (F := R) 1%R 2 1%R 2%R 2
                (Some {| numRows' := 2; numCols' := 2; pData' := None |}))
      as [d'|] eqn:E; [|reflexivity].
    destruct (proj1 (proj1 (steering_matrix_assertions_and_frame (F := R) 1%R 2 1%R 2%R 2
                (Some {| numRows' := 2; numCols' := 2; pData' := None |})))
                (ex_intro _ d' E)) as (_ & _ & _ & _ & dst & data & [= <-] & Hdata & _).
    discriminate Hdata.
Defined.

(** ** The steering matrix in exact arithmetic *)

Section SteeringExact.

Local Notation "x .[ i ]" := (load (f32_of_int 0) x i) (at level 1, format "x .[ i ]").

(** The two assertions on the angle range, read over the reals. *)
Lemma steering_range_tests (range : R) :
  (0 < range <= Rtrigo1.PI / 2)%R ->
  (range >? f32_lit 0 1)%f32 = true /\ (range <=? f32_PI / f32_lit 2 1)%f32 = true.
Proof.
  intros Hr. cbn [f32_ltb f32_leb f32_lit f32_div f32_PI exact].
  destruct (Rlt_dec (0 / 1) range); [|lra].
  destruct (Rle_dec range (Rtrigo1.PI / (2 / 1))) as [|Hn]; [auto|].
  exfalso. apply Hn. replace (2 / 1)%R with 2%R by lra. lra.
Qed.

(** The entries of the matrix the call returns. *)
Lemma steering_matrix_entries (range spacing lambda : R) (num_angles num_ant : Z)
      (dst : arm_matrix_instance_f32' R) (data : list R) :
  (0 < range <= Rtrigo1.PI / 2)%R ->
  1 < num_angles -> 1 < num_ant ->
  pData' dst = Some data ->
  numCols' dst = num_ant -> numRows' dst = num_angles ->
  2 * (num_angles * num_ant) <= Z.of_nat (length data) ->
  exists d',
    ifx_gen_steering_matrix_f32 range num_angles spacing lambda num_ant (Some dst) = Done d' /\
    forall kk jj, 0 <= kk < num_angles -> 0 <= jj < num_ant ->
      let phase :=
        (- (1 / 1) * Rtrigo1.PI * (2 / 1 * spacing / lambda) * IZR jj
         * sin (- range + IZR kk * (2 / 1 * range / (IZR num_angles - 1 / 1))))%R in
      (pData d').[2 * (kk * num_ant + jj)] = cos phase /\
      (pData d').[2 * (kk * num_ant + jj) + 1] = sin phase.
Proof.
  intros Hr Hna Hnt Hdata Hc Hrw Hfit.
  destruct (steering_range_tests range Hr) as [Hr0 Hr1].
  eexists. split; [now apply (steering_matrix_done range num_angles spacing lambda num_ant
                                dst data)|].
  cbn [pData].
  match goal with
  | |- context [for_loop num_angles (fun kk s => steering_row ?c (_ + (_ * ?res))%f32 _ s) _] =>
      destruct (steering_rows_cells c range res num_angles num_ant data)
        as (_ & Hcells & _); try lia
  end.
  intros kk jj Hkk Hjj. exact (Hcells kk jj Hkk Hjj).
Qed.

End SteeringExact.





(** ** The radar helpers of the header *)

(** X25. In exact arithmetic, for a non-zero sample rate, slope, bandwidth
    and times: the maximum range of [ifx_max_range] is [num_samples] times
    the range resolution of [ifx_range_resolution_ex] (for any non-zero
    number of samples); [ifx_range_resolution_ex] is [ifx_range_resolution]
    at the bandwidth [slope * num_samples / sample_rate]; and
    [ifx_max_doppler] is half of [ifx_doppler_resolution] at the same
    bandwidth and time. *)
Theorem radar_helper_relations (num_samples sample_rate_hz : Z)
        (freq_slope_hz_s bandwidth_hz time_s : R) :
  num_samples <> 0 -> sample_rate_hz <> 0 ->
  (freq_slope_hz_s <> 0)%R -> (bandwidth_hz <> 0)%R -> (time_s <> 0)%R ->
  ifx_max_range sample_rate_hz freq_slope_hz_s
  = (IZR num_samples
     * ifx_range_resolution_ex num_samples (IZR sample_rate_hz) freq_slope_hz_s)%R /\
  ifx_range_resolution_ex num_samples (IZR sample_rate_hz) freq_slope_hz_s
  = ifx_range_resolution (freq_slope_hz_s * IZR num_samples / IZR sample_rate_hz)%R /\
  ifx_max_doppler bandwidth_hz time_s
  = (ifx_doppler_resolution bandwidth_hz time_s / 2)%R.
Proof.
  intros Hn Hs Hslope Hb Ht.
  assert (IZR num_samples <> 0)%R by (now apply not_0_IZR).
  assert (IZR sample_rate_hz <> 0)%R by (now apply not_0_IZR).
  unfold ifx_max_range, ifx_range_resolution_ex, ifx_range_resolution,
    ifx_max_doppler, ifx_doppler_resolution, IFX_LIGHT_SPEED_M_S.
  cbn [f32_lit f32_of_int f32_mul f32_div exact].
  split; [|split]; field; auto.
Qed.

Lemma radar_helper_relations_witness :
  ifx_max_range 1000000 (2 * 10 ^ 12)%R
  = (IZR 64 * ifx_range_resolution_ex 64 (IZR 1000000) (2 * 10 ^ 12))%R.
Proof.
  apply (proj1 (radar_helper_relations 64 1000000 (2 * 10 ^ 12)%R 1%R 1%R
                  ltac:(lia) ltac:(lia) ltac:(apply Rgt_not_eq; nra)
                  ltac:(lra) ltac:(lra))).
Defined.

(** ** The complex transforms row by row *)

Section CfftRows.
Context {F : Type} `{Float32 F} `{ArmBasicMath F} `{ArmTransform F}.

Local Notation "x .[ i ]" := (load (f32_of_int 0) x i) (at level 1, format "x .[ i ]").

Lemma load_slice (m : list F) off n j :
  0 <= off -> 0 <= j < n -> off + n <= Z.of_nat (length m) ->
  (slice m off n).[j] = m.[off + j].
Proof.
  intros Hoff Hj Hfit.
  pose proof (lookup_slice (f32_of_int 0) m off n (Z.to_nat j) Hoff ltac:(lia) Hfit
                ltac:(lia)) as Hs.
  rewrite Z2Nat.id in Hs by lia.
  unfold load at 1. rewrite nth_lookup, Hs. reflexivity.
Qed.

(** Slices of two memories that agree on the cells are equal. *)
Lemma slice_ext (m m' : list F) off n :
  0 <= off -> 0 <= n -> off + n <= Z.of_nat (length m) -> length m' = length m ->
  (forall p, off <= p < off + n -> m'.[p] = m.[p]) ->
  slice m' off n = slice m off n.
Proof.
  intros Hoff Hn Hfit Hl Hp.
  apply (list_eq_load (f32_of_int 0)).
  - rewrite !length_slice_nat by lia. reflexivity.
  - intros j Hj. rewrite length_slice_nat in Hj by lia.
    rewrite !load_slice by lia. apply Hp. lia.
Qed.

(** Without mean removal and window, row by row. *)
Lemma cfft_rows_plain cfft n rows (m0 : list F) :
  0 <= n -> 0 <= rows -> 2 * (n * rows) <= Z.of_nat (length m0) ->
  (forall input, Z.of_nat (length input) = 2 * n ->
                 Z.of_nat (length (arm_cfft_f32 cfft input)) = 2 * n) ->
  let r := fst (for_loop rows (fun _ : Z => cfft_row cfft false None n) (m0, 0)) in
  forall k p, 0 <= k < rows -> 0 <= p < 2 * n ->
    r.[2 * (k * n) + p] = (arm_cfft_f32 cfft (slice m0 (2 * (k * n)) (2 * n))).[p].
Proof.
  intros Hn Hrows Hfit Hlen r. subst r.
  cut (let t := for_loop rows (fun _ : Z => cfft_row cfft false None n) (m0, 0) in
       snd t = rows * n /\ length (fst t) = length m0 /\
       (forall k p, 0 <= k < rows -> 0 <= p < 2 * n ->
          (fst t).[2 * (k * n) + p]
          = (arm_cfft_f32 cfft (slice m0 (2 * (k * n)) (2 * n))).[p]) /\
       (forall p, 2 * (rows * n) <= p -> (fst t).[p] = m0.[p])).
  { cbv zeta. tauto. }
  cbv zeta.
  apply (for_loop_ind
           (fun j t =>
              snd t = j * n /\ length (fst t) = length m0 /\
              (forall k p, 0 <= k < j -> 0 <= p < 2 * n ->
                 (fst t).[2 * (k * n) + p]
                 = (arm_cfft_f32 cfft (slice m0 (2 * (k * n)) (2 * n))).[p]) /\
              (forall p, 2 * (j * n) <= p -> (fst t).[p] = m0.[p])));
    [| |exact Hrows].
  - cbn [fst snd]. split; [lia|]. split; [reflexivity|]. split; [intros; lia|reflexivity].
  - intros j [m v] Hj (Hptr & Hl & Hdone & Hrest). cbn [fst snd] in *. subst v.
    unfold cfft_row. cbn [fst snd].
    assert (Hroom : j * n + n <= n * rows) by nia.
    assert (Hj0 : 0 <= j * n) by nia.
    assert (Hs : slice m (2 * (j * n)) (2 * n) = slice m0 (2 * (j * n)) (2 * n)).
    { apply slice_ext; try lia. intros p Hp. apply Hrest. lia. }
    rewrite Hs.
    assert (Hsl : Z.of_nat (length (slice m0 (2 * (j * n)) (2 * n))) = 2 * n).
    { rewrite length_slice_nat by lia. lia. }
    pose proof (Hlen _ Hsl) as Hout.
    split; [lia|]. split; [now rewrite length_blit|]. split.
    + intros k p Hk Hp. rewrite load_blit by nia. rewrite Hout, Z.min_id.
      destruct (Z.eq_dec k j) as [->|Hne].
      * replace ((2 * (j * n) <=? 2 * (j * n) + p)
                 && (2 * (j * n) + p <? 2 * (j * n) + 2 * n)
                 && (2 * (j * n) + p <? Z.of_nat (length m)))
          with true
          by (symmetry; repeat (apply andb_true_intro; split);
              [apply Z.leb_le|apply Z.ltb_lt|apply Z.ltb_lt]; lia).
        f_equal. lia.
      * assert (k * n + n <= j * n) by nia.
        replace ((2 * (j * n) <=? 2 * (k * n) + p)
                 && (2 * (k * n) + p <? 2 * (j * n) + 2 * n)
                 && (2 * (k * n) + p <? Z.of_nat (length m)))
          with false
          by (symmetry; rewrite (proj2 (Z.leb_gt _ _)) by lia; reflexivity).
        apply Hdone; lia.
    + intros p Hp. rewrite load_blit_outside by nia. apply Hrest. nia.
Qed.

End CfftRows.

(** X26. With mean removal and window switched off and a backend transform
    that returns as many floats as it is given, the complex transforms work
    row by row: when [ifx_range_cfft_f32] succeeds, row [k] of the frame
    holds the backend's transform of what row [k] held before, whatever the
    other rows hold; [ifx_doppler_cfft_f32] does the same to the rows of the
    matrix that the backend's transposition produced. *)
Theorem cfft_transforms_each_row {F : Type} `{Float32 F} `{ArmBasicMath F}
        `{ArmTransform F} `{ArmMatrix F}
        (st : statics) (a b : list F) (n rows : Z) :
  0 <= n -> 0 <= rows ->
  (forall plan input, Z.of_nat (length input) = 2 * n ->
     Z.of_nat (length (arm_cfft_f32 plan input)) = 2 * n) ->
  (let r := ifx_range_cfft_f32 st a false None n rows in
   2 * (n * rows) <= Z.of_nat (length a) ->
   fst (fst r) = IFX_SENSOR_DSP_STATUS_OK ->
   forall k p, 0 <= k < rows -> 0 <= p < 2 * n ->
     load (f32_of_int 0) (snd r) (2 * (k * n) + p)
     = load (f32_of_int 0)
         (arm_cfft_f32 (range_cfft_cfft (snd (fst r))) (slice a (2 * (k * n)) (2 * n))) p) /\
  (let r := ifx_doppler_cfft_f32 st a b false None rows n in
   let transposed :=
     pData (snd (arm_mat_cmplx_trans_f32
                   {| numRows := n; numCols := rows; pData := a |}
                   {| numRows := rows; numCols := n; pData := b |})) in
   2 * (n * rows) <= Z.of_nat (length transposed) ->
   fst (fst r) = IFX_SENSOR_DSP_STATUS_OK ->
   forall k p, 0 <= k < rows -> 0 <= p < 2 * n ->
     load (f32_of_int 0) (snd r) (2 * (k * n) + p)
     = load (f32_of_int 0)
         (arm_cfft_f32 (doppler_cfft_cfft (snd (fst r)))
            (slice transposed (2 * (k * n)) (2 * n))) p).
Proof.
  intros Hn Hrows Hlen. split; cbn zeta.
  - unfold ifx_range_cfft_f32.
    destruct (plan_for _ _ _ n) as [[status cfft] inits].
    destruct (negb _); [discriminate|].
    intros Hfit.
    pose proof (cfft_rows_plain cfft n rows a Hn Hrows Hfit (Hlen cfft)) as Hr.
    cbn zeta in Hr. destruct (for_loop _ _ _) as [fm ?]. cbn [fst snd] in *.
    intros _. exact Hr.
  - unfold ifx_doppler_cfft_f32.
    destruct (plan_for _ _ _ n) as [[status cfft] inits].
    destruct (negb _); [discriminate|].
    intros Hfit.
    match goal with
    | |- context [for_loop rows _ (?t, 0)] =>
        pose proof (cfft_rows_plain cfft n rows t Hn Hrows Hfit (Hlen cfft)) as Hr
    end.
    cbn zeta in Hr. destruct (for_loop _ _ _) as [fm ?]. cbn [fst snd] in *.
    intros _. exact Hr.
Qed.

Lemma cfft_transforms_each_row_witness :
  load (f32_of_int 0)
    (snd (ifx_range_cfft_f32 no_plans (b32_samples (map Z.of_nat (seq 1 64)))
            false None 16 2)) (2 * (1 * 16) + 3)
  = Binary32.of_int 36.
Proof.
  rewrite (proj1 (cfft_transforms_each_row no_plans
                    (b32_samples (map Z.of_nat (seq 1 64))) [] 16 2
                    ltac:(lia) ltac:(lia) (fun plan input Hl => Hl))
                 ltac:(vm_compute; congruence) eq_refl 1 3 ltac:(lia) ltac:(lia)).
  reflexivity.
Defined.

(** ** Moving target indication: initialisation and steady state *)

(** X27. [ifx_mti_init_f32] stops at an assertion exactly when the instance
    pointer or the buffer is NULL, or the instance as the caller left it
    holds a NULL history pointer or an [alpha] outside [0, 1]; the [alpha]
    and [len] passed in play no part.  When it completes on a buffer of at
    least [len] cells it stores [alpha], [len] and the buffer, zeroes the
    first [len] cells and leaves the others as they were. *)
Theorem mti_init_effect {F : Type} `{Float32 F}
        (inst : option (ifx_mti_inst_f32 F)) (alpha_arg : F) (len_arg : Z)
        (buf : option (list F)) :
  (ifx_mti_init_f32 inst alpha_arg len_arg buf = AssertionFailed <->
   inst = None \/ buf = None \/
   exists i, inst = Some i /\
     (historical_data i = None \/ (alpha i >=? f32_of_int 0)%f32 = false
      \/ (alpha i <=? f32_of_int 1)%f32 = false)) /\
  (forall b inst', buf = Some b -> 0 <= len_arg <= Z.of_nat (length b) ->
     ifx_mti_init_f32 inst alpha_arg len_arg buf = Done inst' ->
     len inst' = len_arg /\ alpha inst' = alpha_arg /\
     exists h, historical_data inst' = Some h /\ length h = length b /\
       forall p, 0 <= p ->
         load (f32_of_int 0) h p
         = if p <? len_arg then f32_lit 0 1 else load (f32_of_int 0) b p).
Proof.
  unfold ifx_mti_init_f32. split.
  - destruct inst as [i|]; [|split; auto].
    destruct buf as [b|]; [|split; auto].
    destruct (historical_data i) as [h|] eqn:Eh.
    + destruct (f32_leb (f32_of_int 0) (alpha i)) eqn:E0; cbn [negb].
      * destruct (f32_leb (alpha i) (f32_of_int 1)) eqn:E1; cbn [negb].
        -- split; [discriminate|].
           intros [?|[?|(i' & [= <-] & [?|[?|?]])]]; congruence.
        -- split; [|reflexivity]. intros _. right. right. exists i. auto.
      * split; [|reflexivity]. intros _. right. right. exists i. auto.
    + split; [|reflexivity]. intros _. right. right. exists i. auto.
  - intros b inst' -> Hlen.
    destruct inst as [i|]; [|discriminate].
    destruct (historical_data i); [|discriminate].
    destruct (negb _); [discriminate|]. destruct (negb _); [discriminate|].
    intros [= <-]. cbn [len alpha historical_data].
    split; [reflexivity|]. split; [reflexivity|].
    eexists. split; [reflexivity|].
    apply (for_loop_store_0 (f32_of_int 0) (fun _ _ => f32_lit 0 1) len_arg b); try lia.
    reflexivity.
Qed.

Lemma mti_init_effect_witness :
  ifx_mti_init_f32 (F := spec_float)
    (Some {| len := 0; alpha := Binary32.of_int 0; historical_data := None |})
    (Binary32.lit 5 10) 2 (Some (b32_samples [1; 2; 3]))
  = AssertionFailed.
Proof.
  apply (proj1 (mti_init_effect (F := spec_float) _ _ _ _)).
  right. right. eexists. split; [reflexivity|]. left. reflexivity.
Defined.

Lemma b32_add_zero (a : spec_float) (s : bool) :
  Binary32.is_finite a = true -> a <> S754_zero true ->
  (a + S754_zero s)%f32 = a.
Proof.
  destruct a as [[|]| | |sa m e]; try discriminate; intros _ Hnz;
    try congruence; destruct s; reflexivity.
Qed.

Lemma b32_mul_zero (a : spec_float) :
  Binary32.is_finite a = true -> exists s, (a * S754_zero false)%f32 = S754_zero s.
Proof. destruct a; try discriminate; intros _; eexists; reflexivity. Qed.

(** X28. In single precision: when the history already equals a finite
    input in the first [len] cells, [ifx_mti_f32] with a finite [alpha]
    within [0, 1] returns exactly [+0] in those cells of the output and
    leaves the history bit for bit as it was (a history cell holding [-0]
    apart): a learned static scene stays cancelled. *)
Theorem mti_steady_state (inst : ifx_mti_inst_f32 spec_float)
        (h input out : list spec_float) :
  historical_data inst = Some h ->
  0 <= len inst <= Z.of_nat (length h) ->
  len inst <= Z.of_nat (length out) ->
  (alpha inst >=? f32_of_int 0)%f32 = true ->
  (alpha inst <=? f32_of_int 1)%f32 = true ->
  (forall i, 0 <= i < len inst ->
     load (f32_of_int 0) input i = load (f32_of_int 0) h i /\
     Binary32.is_finite (load (f32_of_int 0) h i) = true) ->
  exists inst' h' out',
    ifx_mti_f32 inst (Some input) (Some out) = Done (inst', out') /\
    historical_data inst' = Some h' /\
    forall i, 0 <= i < len inst ->
      load (f32_of_int 0) out' i = S754_zero false /\
      (load (f32_of_int 0) h i <> S754_zero true ->
       load (f32_of_int 0) h' i = load (f32_of_int 0) h i).
Proof.
  intros Hh Hlh Hlo Ha0 Ha1 Hsame.
  destruct (ifx_mti_f32_cells inst h input out Hh Hlh Hlo Ha0 Ha1)
    as (h' & out' & E & _ & _ & Hov & Hp).
  eexists _, h', out'. split; [exact E|]. split; [reflexivity|].
  assert (Hfin : Binary32.is_finite (alpha inst) = true).
  { clear -Ha0 Ha1. destruct (alpha inst) as [| [|] | |]; try reflexivity; discriminate. }
  intros i Hi. destruct (Hsame i Hi) as [Hin Hf].
  assert (Hout : load (f32_of_int 0) out' i = S754_zero false).
  { rewrite Hov by lia. rewrite (proj2 (Z.ltb_lt i (len inst))) by lia.
    rewrite Hin. now apply b32_sub_diag. }
  split; [exact Hout|]. intros Hnz.
  rewrite Hp by lia. rewrite (proj2 (Z.ltb_lt i (len inst))) by lia. rewrite Hout.
  destruct (b32_mul_zero (alpha inst) Hfin) as [s ->].
  now apply b32_add_zero.
Qed.

Lemma mti_steady_state_witness :
  exists inst' out',
    ifx_mti_f32 {| len := 2; alpha := Binary32.lit 5 10;
                   historical_data := Some (b32_samples [4; 5]) |}
      (Some (b32_samples [4; 5])) (Some (b32_samples [9; 9]))
    = Done (inst', out') /\
    load (f32_of_int 0) out' 1 = S754_zero false.
Proof.
  destruct (mti_steady_state {| len := 2; alpha := Binary32.lit 5 10;
                                historical_data := Some (b32_samples [4; 5]) |}
              (b32_samples [4; 5]) (b32_samples [4; 5]) (b32_samples [9; 9])
              eq_refl ltac:(cbn; lia) ltac:(cbn; lia) eq_refl eq_refl)
    as (inst' & h' & out' & E & _ & Hcells).
  - intros i Hi. cbn [len] in Hi.
    assert (Hc : i = 0 \/ i = 1) by lia.
    destruct Hc as [-> | ->]; split; reflexivity.
  - exists inst', out'. split; [exact E|].
    apply (Hcells 1). cbn. lia.
Defined.
